(** * Duplicate-file finder: a shallow embedding of [src/main.py] and [src/ui.py]

    The development follows the Python source function by function:

    - [MD5]            the digest behind [hashlib.md5] (RFC 1321), on bytes;
    - [Str], [Re], [OsPath]  the string, regular-expression and path helpers
                       that [get_normalized_name] and [scan_directory] call;
    - [FileInfo]       the lazily caching record with [size], [quick_hash]
                       and [full_hash];
    - [scan_directory], [find_duplicates], [duplicate_file_finder];
    - [DuplicateFinderThread] and [display_duplicates] from [src/ui.py];
    - [organize_downloads], [ClipboardManager] and [save_favorite_snippet];
    - [ExtensionMappingDialog], the clip list and the table of duplicates of
      the window, from [src/ui.py].

    Python [int] is [Z]; [bytes] is [list byte]; [str] is [string], the
    bytes of its UTF-8 encoding; a [dict] / [defaultdict(list)] is an
    association list kept in insertion order, which is the order Python
    iterates it in. *)

From Stdlib Require Import ZArith List String Ascii Bool Lia Permutation Sorted.
From Stdlib Require Import Init.Byte.
From Stdlib Require Import Floats.PrimFloat Floats.FloatOps Floats.SpecFloat.
From Stdlib Require Import Numbers.Cyclic.Int63.Uint63.
From Stdlib Require Import DecimalString DecimalZ.
Import ListNotations.

Local Open Scope string_scope.
Local Open Scope list_scope.
Local Open Scope Z_scope.

(* ------------------------------------------------------------------ *)
(** ** [hashlib.md5] *)

Module MD5.

(** 32-bit words are kept in [Z], reduced modulo [2^32] after every
    addition and left shift. *)
Definition wrap32 (x : Z) : Z := Z.land x 0xffffffff.
Definition add32 (x y : Z) : Z := wrap32 (x + y).
Definition not32 (x : Z) : Z := Z.lxor x 0xffffffff.
Definition rotl32 (x n : Z) : Z :=
  Z.lor (wrap32 (Z.shiftl x n)) (Z.shiftr x (32 - n)).

(** Per-round left-rotation amounts. *)
Definition shift_amounts : list Z :=
  [ 7; 12; 17; 22;  7; 12; 17; 22;  7; 12; 17; 22;  7; 12; 17; 22;
    5;  9; 14; 20;  5;  9; 14; 20;  5;  9; 14; 20;  5;  9; 14; 20;
    4; 11; 16; 23;  4; 11; 16; 23;  4; 11; 16; 23;  4; 11; 16; 23;
    6; 10; 15; 21;  6; 10; 15; 21;  6; 10; 15; 21;  6; 10; 15; 21 ].

(** [K i = floor (2^32 * abs (sin (i + 1)))]. *)
Definition K : list Z :=
  [ 0xd76aa478; 0xe8c7b756; 0x242070db; 0xc1bdceee;
    0xf57c0faf; 0x4787c62a; 0xa8304613; 0xfd469501;
    0x698098d8; 0x8b44f7af; 0xffff5bb1; 0x895cd7be;
    0x6b901122; 0xfd987193; 0xa679438e; 0x49b40821;
    0xf61e2562; 0xc040b340; 0x265e5a51; 0xe9b6c7aa;
    0xd62f105d; 0x02441453; 0xd8a1e681; 0xe7d3fbc8;
    0x21e1cde6; 0xc33707d6; 0xf4d50d87; 0x455a14ed;
    0xa9e3e905; 0xfcefa3f8; 0x676f02d9; 0x8d2a4c8a;
    0xfffa3942; 0x8771f681; 0x6d9d6122; 0xfde5380c;
    0xa4beea44; 0x4bdecfa9; 0xf6bb4b60; 0xbebfbc70;
    0x289b7ec6; 0xeaa127fa; 0xd4ef3085; 0x04881d05;
    0xd9d4d039; 0xe6db99e5; 0x1fa27cf8; 0xc4ac5665;
    0xf4292244; 0x432aff97; 0xab9423a7; 0xfc93a039;
    0x655b59c3; 0x8f0ccc92; 0xffeff47d; 0x85845dd1;
    0x6fa87e4f; 0xfe2ce6e0; 0xa3014314; 0x4e0811a1;
    0xf7537e82; 0xbd3af235; 0x2ad7d2bb; 0xeb86d391 ].

Definition byte_val (b : byte) : Z := Z.of_N (Byte.to_N b).

Definition byte_of_val (z : Z) : byte :=
  match Byte.of_N (Z.to_N (z mod 256)) with
  | Some b => b
  | None => x00
  end.

(** [n] bytes of [z], least significant first. *)
Fixpoint le_bytes (n : nat) (z : Z) : list byte :=
  match n with
  | O => []
  | S n' => byte_of_val z :: le_bytes n' (Z.shiftr z 8)
  end.

(** The little-endian value of a byte string. *)
Fixpoint le_value (bs : list byte) : Z :=
  match bs with
  | [] => 0
  | b :: bs' => byte_val b + 256 * le_value bs'
  end.

(** Padding: one [0x80], zeros up to 56 modulo 64, then the bit length
    as a 64-bit little-endian integer. *)
Definition pad (msg : list byte) : list byte :=
  let len := Z.of_nat (List.length msg) in
  msg ++ [x80]
      ++ repeat x00 (Z.to_nat ((55 - len) mod 64))
      ++ le_bytes 8 ((8 * len) mod 2 ^ 64).

(** The sixteen message words of one 64-byte block. *)
Fixpoint block_words (n : nat) (block : list byte) : list Z :=
  match n with
  | O => []
  | S n' => le_value (firstn 4 block) :: block_words n' (skipn 4 block)
  end.

Record state := { sA : Z; sB : Z; sC : Z; sD : Z }.

Definition init : state :=
  {| sA := 0x67452301; sB := 0xefcdab89; sC := 0x98badcfe; sD := 0x10325476 |}.

Definition round_fun (i : Z) (b c d : Z) : Z * Z :=
  if i <? 16 then (Z.lor (Z.land b c) (Z.land (not32 b) d), i)
  else if i <? 32 then (Z.lor (Z.land d b) (Z.land (not32 d) c), (5 * i + 1) mod 16)
  else if i <? 48 then (Z.lxor (Z.lxor b c) d, (3 * i + 5) mod 16)
  else (Z.lxor c (Z.lor b (not32 d)), (7 * i) mod 16).

Definition step (M : list Z) (st : state) (i : nat) : state :=
  let '(f, g) := round_fun (Z.of_nat i) (sB st) (sC st) (sD st) in
  let f' := add32 (add32 (add32 f (sA st)) (nth i K 0)) (nth (Z.to_nat g) M 0) in
  {| sA := sD st;
     sB := add32 (sB st) (rotl32 f' (nth i shift_amounts 0));
     sC := sB st;
     sD := sC st |}.

Definition compress (st : state) (block : list byte) : state :=
  let M := block_words 16 block in
  let st' := fold_left (step M) (seq 0 64) st in
  {| sA := add32 (sA st) (sA st'); sB := add32 (sB st) (sB st');
     sC := add32 (sC st) (sC st'); sD := add32 (sD st) (sD st') |}.

Fixpoint process (blocks : nat) (st : state) (bytes : list byte) : state :=
  match blocks with
  | O => st
  | S k => process k (compress st (firstn 64 bytes)) (skipn 64 bytes)
  end.

Definition digest_state (msg : list byte) : state :=
  let p := pad msg in
  process (List.length p / 64)%nat init p.

Definition hex_digit (z : Z) : ascii :=
  nth (Z.to_nat z)
      (list_ascii_of_string "0123456789abcdef") "0"%char.

Definition hex_byte (z : Z) (rest : string) : string :=
  String (hex_digit ((z / 16) mod 16)) (String (hex_digit (z mod 16)) rest).

Definition hex_word_le (w : Z) (rest : string) : string :=
  hex_byte (w mod 256)
    (hex_byte ((w / 256) mod 256)
       (hex_byte ((w / 65536) mod 256)
          (hex_byte ((w / 16777216) mod 256) rest))).

(** [hashlib.md5(msg).hexdigest()]: 32 lower-case hexadecimal digits. *)
Definition hexdigest (msg : list byte) : string :=
  let st := digest_state msg in
  hex_word_le (sA st) (hex_word_le (sB st) (hex_word_le (sC st) (hex_word_le (sD st) ""))).

End MD5.

(* ------------------------------------------------------------------ *)
(** ** Python [str] methods

    A [str] is the sequence of the bytes of its UTF-8 encoding.  The
    methods below are those of Python on strings of ASCII characters
    (all codes below 128): [lower] folds [A-Z], and the whitespace
    class is the ASCII part of [str.isspace] (which is also what [\s]
    matches in a [str] pattern).  On other characters Python consults
    the Unicode tables, which are not modelled: the statements on
    letter case and on the rules of [organize_downloads] are made for
    strings of ASCII characters. *)

Module Str.

Definition code (c : ascii) : nat := nat_of_ascii c.

Definition is_upper (c : ascii) : bool :=
  (65 <=? code c)%nat && (code c <=? 90)%nat.

Definition lower_char (c : ascii) : ascii :=
  if is_upper c then ascii_of_nat (code c + 32) else c.

(** [s.lower()] *)
Fixpoint lower (s : string) : string :=
  match s with
  | EmptyString => EmptyString
  | String c s' => String (lower_char c) (lower s')
  end.

(** [c.isspace()]: tab, newline, vertical tab, form feed, carriage
    return, the separators 0x1c..0x1f, and space. *)
Definition is_space (c : ascii) : bool :=
  ((9 <=? code c)%nat && (code c <=? 13)%nat)
  || ((28 <=? code c)%nat && (code c <=? 32)%nat).

(** [c.isdigit()] on ASCII, the class [\d]. *)
Definition is_digit (c : ascii) : bool :=
  (48 <=? code c)%nat && (code c <=? 57)%nat.

Fixpoint lstrip (s : string) : string :=
  match s with
  | EmptyString => EmptyString
  | String c s' => if is_space c then lstrip s' else s
  end.

Definition reverse (s : string) : string :=
  string_of_list_ascii (rev (list_ascii_of_string s)).

Definition rstrip (s : string) : string := reverse (lstrip (reverse s)).

(** [s.strip()] *)
Definition strip (s : string) : string := rstrip (lstrip s).

(** [s.rfind(c)]: the highest index of [c] in [s], or [-1]. *)
Fixpoint rfind_from (c : ascii) (s : string) (i : Z) (found : Z) : Z :=
  match s with
  | EmptyString => found
  | String c' s' =>
      rfind_from c s' (i + 1) (if Ascii.eqb c c' then i else found)
  end.

Definition rfind (c : ascii) (s : string) : Z := rfind_from c s 0 (-1).

(** [s[i:j]] for [0 <= i]. *)
Definition slice (s : string) (i j : Z) : string :=
  substring (Z.to_nat i) (Z.to_nat (j - i)) s.

Definition len (s : string) : Z := Z.of_nat (String.length s).

Fixpoint existsb (p : ascii -> bool) (s : string) : bool :=
  match s with
  | EmptyString => false
  | String c s' => p c || existsb p s'
  end.

(** [s.split(sep)] for a one-character separator. *)
Fixpoint split_aux (sep : ascii) (cur : string) (s : string) : list string :=
  match s with
  | EmptyString => [reverse cur]
  | String c s' =>
      if Ascii.eqb c sep then reverse cur :: split_aux sep EmptyString s'
      else split_aux sep (String c cur) s'
  end.

Definition split (sep : ascii) (s : string) : list string :=
  split_aux sep EmptyString s.

Definition startswith (c : ascii) (s : string) : bool :=
  match s with
  | String c' _ => Ascii.eqb c c'
  | EmptyString => false
  end.

Definition endswith (c : ascii) (s : string) : bool :=
  startswith c (reverse s).

End Str.

(* ------------------------------------------------------------------ *)
(** ** The fragment of [re] that [get_normalized_name] uses

    A pattern is a sequence of atoms; a quantifier applies to a character
    class.  Matching is Python's: leftmost, greedy, with backtracking.
    Capture groups do not affect what [re.sub] removes and are dropped. *)

Module Re.

Inductive atom : Type :=
| Lit (c : ascii)               (* a literal character *)
| Star (cls : ascii -> bool)    (* [cls*] *)
| Plus (cls : ascii -> bool)    (* [cls+] *)
| Bos                           (* [^] *)
| Eos.                          (* [$] *)

Definition pattern := list atom.

(** Greedy repetition of a class followed by the continuation [k]:
    take as many characters as the class allows, give one back each
    time the rest of the pattern fails. *)
Fixpoint star (cls : ascii -> bool) (k : nat -> string -> option nat)
         (pos : nat) (s : string) : option nat :=
  match s with
  | String c s' =>
      if cls c then
        match star cls k (S pos) s' with
        | Some e => Some e
        | None => k pos s
        end
      else k pos s
  | EmptyString => k pos s
  end.

(** [$] without [re.MULTILINE]: at the end of the string, or just
    before a newline that ends it. *)
Definition at_end (s : string) : bool :=
  match s with
  | EmptyString => true
  | String c EmptyString => Ascii.eqb c "010"%char
  | _ => false
  end.

(** [match_at p pos s]: try [p] on [s], the text from index [pos] on;
    the result is the index where the match ends. *)
Fixpoint match_at (p : pattern) (pos : nat) (s : string) : option nat :=
  match p with
  | [] => Some pos
  | Lit c :: p' =>
      match s with
      | String c' s' => if Ascii.eqb c c' then match_at p' (S pos) s' else None
      | EmptyString => None
      end
  | Star cls :: p' => star cls (match_at p') pos s
  | Plus cls :: p' =>
      match s with
      | String c' s' => if cls c' then star cls (match_at p') (S pos) s' else None
      | EmptyString => None
      end
  | Bos :: p' => if (pos =? 0)%nat then match_at p' pos s else None
  | Eos :: p' => if at_end s then match_at p' pos s else None
  end.

(** [re.sub(p, repl, s)]: scan left to right, replace every
    non-overlapping match.  [skip] counts the characters of the current
    match that are still to be dropped. *)
Fixpoint sub_from (p : pattern) (repl : string) (pos skip : nat) (s : string)
  : string :=
  match skip with
  | S k =>
      match s with
      | EmptyString => EmptyString
      | String _ s' => sub_from p repl (S pos) k s'
      end
  | O =>
      match match_at p pos s, s with
      | Some e, String c s' =>
          if (pos <? e)%nat
          then repl ++ sub_from p repl (S pos) (e - pos - 1) s'
          else repl ++ String c (sub_from p repl (S pos) 0 s')
      | Some _, EmptyString => repl
      | None, String c s' => String c (sub_from p repl (S pos) 0 s')
      | None, EmptyString => EmptyString
      end
  end.

Definition sub (p : pattern) (repl : string) (s : string) : string :=
  sub_from p repl 0 0 s.

Definition lits (s : string) : pattern := map Lit (list_ascii_of_string s).

End Re.

(* ------------------------------------------------------------------ *)
(** ** [os.path] and [pathlib] (POSIX flavour) *)

Module OsPath.

Definition sep : ascii := "/"%char.
Definition extsep : ascii := "."%char.

(** The loop of [genericpath._splitext] that skips leading dots: is
    there a character other than [.] in [p[filenameIndex:dotIndex]]? *)
Definition has_non_dot (p : string) (filenameIndex dotIndex : Z) : bool :=
  Str.existsb (fun c => negb (Ascii.eqb c extsep))
              (Str.slice p filenameIndex dotIndex).

(** [os.path.splitext(p)] *)
Definition splitext (p : string) : string * string :=
  let sepIndex := Str.rfind sep p in
  let dotIndex := Str.rfind extsep p in
  if (sepIndex <? dotIndex) && has_non_dot p (sepIndex + 1) dotIndex
  then (Str.slice p 0 dotIndex, Str.slice p dotIndex (Str.len p))
  else (p, EmptyString).

(** [os.path.join(a, b)] *)
Definition join (a b : string) : string :=
  if Str.startswith sep b then b
  else if (String.eqb a EmptyString) || Str.endswith sep a then (a ++ b)%string
  else (a ++ String sep b)%string.

(** [Path(p).name]: the last of the components of [p], where empty
    components and [.] are dropped as [pathlib] does when it parses. *)
Definition parts (p : string) : list string :=
  filter (fun c => negb (String.eqb c EmptyString || String.eqb c "."))
         (Str.split sep p).

Definition name (p : string) : string := last (parts p) EmptyString.

End OsPath.

(* ------------------------------------------------------------------ *)
(** ** [get_normalized_name] *)

(** [r'^(copy of\s+)'] *)
Definition copy_of_prefix : Re.pattern :=
  Re.Bos :: Re.lits "copy of" ++ [Re.Plus Str.is_space].

(** [r'\s*\(\d+\)\s*$'] *)
Definition numbered_suffix : Re.pattern :=
  [Re.Star Str.is_space; Re.Lit "("%char; Re.Plus Str.is_digit;
   Re.Lit ")"%char; Re.Star Str.is_space; Re.Eos].

Definition get_normalized_name (filename : string) : string :=
  let '(basename, ext) := OsPath.splitext (Str.lower filename) in
  let basename := Re.sub copy_of_prefix "" basename in
  let basename := Re.sub numbered_suffix "" basename in
  (Str.strip basename ++ ext)%string.

(* ------------------------------------------------------------------ *)
(** ** The filesystem, as the program observes it

    One snapshot, taken for the length of a scan: the scan only reads.
    An operation that raises [OSError] (or its subclass
    [PermissionError]) answers [None].  For [fs_open], [None] stands for
    a failure of [open] or of any later [read]: both leave the [try]
    block of a digest accessor through the same handler. *)

Record FileSystem : Type := {
  fs_exists  : string -> bool;                        (* os.path.exists *)
  fs_walk    : string -> list (string * list string); (* os.walk: (root, files) *)
  fs_getsize : string -> option Z;                    (* os.path.getsize *)
  fs_open    : string -> option (list byte)           (* open(p, 'rb'), then read *)
}.

(** What an accessor does to the outside world. *)
Inductive io_event : Type :=
| Getsize (p : string)
| Open (p : string)
| LogError (msg : string).

Definition is_fs_call (e : io_event) : bool :=
  match e with
  | Getsize _ | Open _ => true
  | LogError _ => false
  end.

(** [f.read(n)] on the unread rest of a file: the chunk and the new rest. *)
Definition file_read (n : Z) (f : list byte) : list byte * list byte :=
  (firstn (Z.to_nat n) f, skipn (Z.to_nat n) f).

Definition len {A : Type} (l : list A) : Z := Z.of_nat (List.length l).

(* ------------------------------------------------------------------ *)
(** ** [class FileInfo] *)

Module FileInfo.

Definition CHUNK_SIZE : Z := 8192.
Definition MAX_QUICK_READ_SIZE : Z := 1024 * 1024.

Record t : Type := {
  path : string;
  _size : option Z;
  _quick_hash : option string;
  _full_hash : option string
}.

(** [__init__] *)
Definition init (p : string) : t :=
  {| path := p; _size := None; _quick_hash := None; _full_hash := None |}.

Definition set_size (self : t) (v : Z) : t :=
  {| path := path self; _size := Some v;
     _quick_hash := _quick_hash self; _full_hash := _full_hash self |}.

Definition set_quick_hash (self : t) (v : string) : t :=
  {| path := path self; _size := _size self;
     _quick_hash := Some v; _full_hash := _full_hash self |}.

Definition set_full_hash (self : t) (v : string) : t :=
  {| path := path self; _size := _size self;
     _quick_hash := _quick_hash self; _full_hash := Some v |}.

(** An accessor returns its value, the record as it leaves it, and the
    calls it made. *)
Definition access (A : Type) : Type := A * t * list io_event.

Definition value {A : Type} (r : access A) : A := fst (fst r).
Definition after {A : Type} (r : access A) : t := snd (fst r).
Definition trace {A : Type} (r : access A) : list io_event := snd r.

(** [size] *)
Definition size (fs : FileSystem) (self : t) : access Z :=
  match _size self with
  | Some v => (v, self, [])
  | None =>
      match fs_getsize fs (path self) with
      | Some v => (v, set_size self v, [Getsize (path self)])
      | None =>
          (0, set_size self 0,
           [Getsize (path self); LogError ("Error getting size for " ++ path self)])
      end
  end.

(** The [while] loop of [quick_hash]; [md5] is what has been fed to
    the digest object so far.  [None] only when the fuel runs out. *)
Fixpoint quick_hash_loop (fuel : nat) (f : list byte) (md5 : list byte)
         (bytes_read : Z) : option (list byte) :=
  match fuel with
  | O => None
  | S fuel' =>
      if bytes_read <? MAX_QUICK_READ_SIZE then
        let '(chunk, f') :=
          file_read (Z.min CHUNK_SIZE (MAX_QUICK_READ_SIZE - bytes_read)) f in
        match chunk with
        | [] => Some md5
        | _ => quick_hash_loop fuel' f' (md5 ++ chunk) (bytes_read + len chunk)
        end
      else Some md5
  end.

(** The [while chunk := f.read(CHUNK_SIZE)] loop of [full_hash]. *)
Fixpoint full_hash_loop (fuel : nat) (f : list byte) (md5 : list byte)
  : option (list byte) :=
  match fuel with
  | O => None
  | S fuel' =>
      let '(chunk, f') := file_read CHUNK_SIZE f in
      match chunk with
      | [] => Some md5
      | _ => full_hash_loop fuel' f' (md5 ++ chunk)
      end
  end.

(** Every turn of either loop reads at least one byte or leaves, so
    one more turn than the file has bytes is enough. *)
Definition fuel_for (content : list byte) : nat := S (List.length content).

(** The [try] block of [quick_hash]: the digest, or [None] for the
    [except] branch.  With [fuel_for] the loop always leaves by itself,
    so [None] comes from [fs_open] only. *)
Definition try_quick_hash (fs : FileSystem) (p : string) : option string :=
  match fs_open fs p with
  | Some content =>
      match quick_hash_loop (fuel_for content) content [] 0 with
      | Some md5 => Some (MD5.hexdigest md5)
      | None => None
      end
  | None => None
  end.

(** The [try] block of [full_hash], likewise. *)
Definition try_full_hash (fs : FileSystem) (p : string) : option string :=
  match fs_open fs p with
  | Some content =>
      match full_hash_loop (fuel_for content) content [] with
      | Some md5 => Some (MD5.hexdigest md5)
      | None => None
      end
  | None => None
  end.

(** [quick_hash] *)
Definition quick_hash (fs : FileSystem) (self : t) : access string :=
  match _quick_hash self with
  | Some v => (v, self, [])
  | None =>
      match try_quick_hash fs (path self) with
      | Some v => (v, set_quick_hash self v, [Open (path self)])
      | None =>
          (EmptyString, set_quick_hash self EmptyString,
           [Open (path self); LogError ("Error quick hashing " ++ path self)])
      end
  end.

(** [full_hash] *)
Definition full_hash (fs : FileSystem) (self : t) : access string :=
  match _full_hash self with
  | Some v => (v, self, [])
  | None =>
      match try_full_hash fs (path self) with
      | Some v => (v, set_full_hash self v, [Open (path self)])
      | None =>
          (EmptyString, set_full_hash self EmptyString,
           [Open (path self); LogError ("Error full hashing " ++ path self)])
      end
  end.

(** A record whose caches, where filled, hold what the snapshot [fs]
    gives: the state of every record that was created by [init] and
    only touched by the accessors during one scan. *)
Definition cached_from {A : Type} (c : option A) (fresh : A) : Prop :=
  c = None \/ c = Some fresh.

Definition size_of (fs : FileSystem) (p : string) : Z :=
  match fs_getsize fs p with Some v => v | None => 0 end.

Definition quick_hash_of (fs : FileSystem) (p : string) : string :=
  match try_quick_hash fs p with Some v => v | None => EmptyString end.

Definition full_hash_of (fs : FileSystem) (p : string) : string :=
  match try_full_hash fs p with Some v => v | None => EmptyString end.

Definition valid (fs : FileSystem) (self : t) : Prop :=
  cached_from (_size self) (size_of fs (path self))
  /\ cached_from (_quick_hash self) (quick_hash_of fs (path self))
  /\ cached_from (_full_hash self) (full_hash_of fs (path self)).

End FileInfo.

(* ------------------------------------------------------------------ *)
(** ** [defaultdict(list)]

    An association list in insertion order.  [dict_append k v d] is
    [d[k].append(v)]: a new key goes to the end with the one-element
    list, an old key keeps its place and gets [v] at the end of its list. *)

Section Dict.
Context {K V : Type}.
Variable eqb : K -> K -> bool.

Definition dict : Type := list (K * list V).

Fixpoint dict_append (k : K) (v : V) (d : dict) : dict :=
  match d with
  | [] => [(k, [v])]
  | (k', vs) :: d' =>
      if eqb k k' then (k', vs ++ [v]) :: d'
      else (k', vs) :: dict_append k v d'
  end.

(** [for x in xs: d[key(x)].append(val(x))], starting from [d]. *)
Definition dict_collect {A : Type} (kv : A -> K * V) (xs : list A) (d : dict)
  : dict :=
  fold_left (fun d x => dict_append (fst (kv x)) (snd (kv x)) d) xs d.

End Dict.

(* ------------------------------------------------------------------ *)
(** ** Exceptions and callbacks

    A progress callback is any Python callable: it may change a state of
    its own (type [S]) and it may raise. *)

Inductive exn : Type :=
| InterruptedError (msg : string)
| FileNotFoundError (msg : string)
| OtherException (msg : string).

Definition callback (S : Type) : Type := Z -> S -> S * option exn.

(* ------------------------------------------------------------------ *)
(** ** [int((processed_files / total_files) * 50)]

    [/] and [*] are binary64 operations: the exact result rounded to 53
    significant bits, ties to even.  Only positive values far from
    overflow and underflow occur here, and they are written as a
    numerator over a power of two.  [int] truncates. *)

Module Binary64.

(** The integer nearest to [num / den], the even one in a tie. *)
Definition round_half_even (num den : Z) : Z :=
  let q := num / den in
  let r := num mod den in
  if 2 * r <? den then q
  else if den <? 2 * r then q + 1
  else if Z.even q then q else q + 1.

(** The power of two under which the rounded value of [num / den] is
    written: large enough for 53 bits of any quotient with [1 <= num]. *)
Definition scale (den : Z) : Z := Z.log2 den + 54.

(** [round53 num den / 2 ^ scale den] is [num / den] rounded to 53
    significant bits: with [y / den] in [2^E, 2^(E+1)), the quotient is
    rounded to a multiple of [2 ^ (E - 52)]. *)
Definition round53 (num den : Z) : Z :=
  let y := num * 2 ^ scale den in
  let sh := Z.log2 (y / den) - 52 in
  round_half_even y (den * 2 ^ sh) * 2 ^ sh.

End Binary64.

Definition progress_percent (processed_files total_files : Z) : Z :=
  let B := Binary64.scale total_files in
  (* processed_files / total_files, over 2^B *)
  let ratio := Binary64.round53 processed_files total_files in
  (* ... * 50, over 2^(B + 54) *)
  let progress := Binary64.round53 (ratio * 50) (2 ^ B) in
  (* int(progress) *)
  progress / 2 ^ (B + 54).

(** The same expression on the primitive binary64 numbers of the
    prover, for integers below [2^53]; it is there to test the model
    above and is not used by the embedding. *)
Definition float_of_int (z : Z) : float := PrimFloat.of_uint63 (Uint63.of_Z z).

Definition int_of_float (x : float) : Z :=
  match Prim2SF x with
  | S754_finite sgn m e =>
      let a := if 0 <=? e then Z.pos m * 2 ^ e else Z.pos m / 2 ^ (- e) in
      if sgn then - a else a
  | _ => 0
  end.

Definition progress_percent_hw (processed_files total_files : Z) : Z :=
  int_of_float
    (PrimFloat.mul
       (PrimFloat.div (float_of_int processed_files) (float_of_int total_files))
       (float_of_int 50)).

(** All pairs [1 <= processed <= total <= n]. *)
Definition pairs_up_to (n : nat) : list (Z * Z) :=
  flat_map (fun t => map (fun k => (Z.of_nat k, Z.of_nat t)) (seq 1 t)) (seq 1 n).

(* ------------------------------------------------------------------ *)
(** ** [scan_directory] *)

Definition files_by_size_t : Type := @dict Z FileInfo.t.
Definition files_by_directory_t : Type := @dict string FileInfo.t.

Record scan_state (S : Type) : Type := {
  files_by_size : files_by_size_t;
  files_by_directory : files_by_directory_t;
  processed_files : Z;
  cb_state : S
}.
Arguments files_by_size {S} _.
Arguments files_by_directory {S} _.
Arguments processed_files {S} _.
Arguments cb_state {S} _.

(** [sum(len(files) for _, _, files in os.walk(directory))] *)
Definition count_files (walk : list (string * list string)) : Z :=
  fold_left (fun n entry => n + len (snd entry)) walk 0.

Section Scan.
Context {S : Type}.
Variable fs : FileSystem.

(** The body of the inner loop.  The whole body sits in
    [try: ... except Exception: continue]; the one call in it that can
    raise is the callback, the last statement, so the handler has
    nothing to undo. *)
Definition scan_file (progress_callback : option (callback S))
           (total_files chunk_size : Z) (root : string)
           (st : scan_state S) (name : string) : scan_state S :=
  let filepath := OsPath.join root name in
  let r := FileInfo.size fs (FileInfo.init filepath) in
  let file_info := FileInfo.after r in
  let by_size :=
    if 0 <? FileInfo.value r
    then dict_append Z.eqb (FileInfo.value r) file_info (files_by_size st)
    else files_by_size st in
  let by_dir :=
    if 0 <? FileInfo.value r
    then dict_append String.eqb root file_info (files_by_directory st)
    else files_by_directory st in
  let processed := processed_files st + 1 in
  let s' :=
    match progress_callback with
    | Some cb =>
        if processed mod chunk_size =? 0
        then fst (cb (progress_percent processed total_files) (cb_state st))
        else cb_state st
    | None => cb_state st
    end in
  {| files_by_size := by_size; files_by_directory := by_dir;
     processed_files := processed; cb_state := s' |}.

Definition scan_root (progress_callback : option (callback S))
           (total_files chunk_size : Z)
           (st : scan_state S) (entry : string * list string) : scan_state S :=
  fold_left (scan_file progress_callback total_files chunk_size (fst entry))
            (snd entry) st.

Definition scan_directory (directory : string)
           (progress_callback : option (callback S)) (s : S) : scan_state S :=
  let start :=
    {| files_by_size := []; files_by_directory := [];
       processed_files := 0; cb_state := s |} in
  let total_files := count_files (fs_walk fs directory) in
  if total_files =? 0 then start
  else
    let chunk_size := Z.max 1 (total_files / 100) in
    fold_left (scan_root progress_callback total_files chunk_size)
              (fs_walk fs directory) start.

End Scan.

(* ------------------------------------------------------------------ *)
(** ** [find_duplicates] *)

Record DuplicateGroup : Type := {
  paths : list string;
  size : Z;
  directory : string
}.

Section FindDuplicates.
Context {S : Type}.
Variable fs : FileSystem.

(** [for file in files: name_dict[get_normalized_name(file.path.name)].append(file)] *)
Definition name_dict_of (files : list FileInfo.t) : @dict string FileInfo.t :=
  dict_collect String.eqb
    (fun file => (get_normalized_name (OsPath.name (FileInfo.path file)), file))
    files [].

(** [for file in similar_files: hash_dict[file.full_hash()].append(file)];
    the record that goes into the bucket is the one [full_hash] left. *)
Definition hash_dict_of (similar_files : list FileInfo.t)
  : @dict string FileInfo.t :=
  dict_collect String.eqb
    (fun file =>
       let r := FileInfo.full_hash fs file in
       (FileInfo.value r, FileInfo.after r))
    similar_files [].

(** [duplicates[0].size] *)
Definition first_size (duplicates : list FileInfo.t) : Z :=
  match duplicates with
  | f :: _ => FileInfo.value (FileInfo.size fs f)
  | [] => 0
  end.

Definition groups_of_hash_bucket (directory : string)
           (bucket : string * list FileInfo.t) : list DuplicateGroup :=
  let duplicates := snd bucket in
  if 1 <? len duplicates then
    [ {| paths := map FileInfo.path duplicates;
         size := first_size duplicates;
         directory := directory |} ]
  else [].

Definition groups_of_name_bucket (directory : string)
           (bucket : string * list FileInfo.t) : list DuplicateGroup :=
  let similar_files := snd bucket in
  if 1 <? len similar_files then
    flat_map (groups_of_hash_bucket directory) (hash_dict_of similar_files)
  else [].

Definition groups_of_directory (entry : string * list FileInfo.t)
  : list DuplicateGroup :=
  flat_map (groups_of_name_bucket (fst entry)) (name_dict_of (snd entry)).

(** [files_by_size] and [progress_callback] are parameters the body
    never reads. *)
Definition find_duplicates (files_by_size : files_by_size_t)
           (files_by_directory : files_by_directory_t)
           (progress_callback : option (callback S)) : list DuplicateGroup :=
  flat_map groups_of_directory files_by_directory.

End FindDuplicates.

(* ------------------------------------------------------------------ *)
(** ** [duplicate_file_finder] *)

Inductive result (A : Type) : Type :=
| Ok (a : A)
| Raise (e : exn).
Arguments Ok {A} _.
Arguments Raise {A} _.

Section Finder.
Context {S : Type}.
Variable fs : FileSystem.

(** The inner [try/except Exception] logs and drops whatever the
    callback raises. *)
Definition safe_progress_callback (progress_callback : option (callback S))
  : callback S :=
  fun value s =>
    match progress_callback with
    | Some cb => (fst (cb value s), None)
    | None => (s, None)
    end.

(** The statements of the [try] block in order.  None of them raises,
    so the outer handler ([logger.error], then [raise]) is not entered. *)
Definition duplicate_file_finder (directory : string)
           (progress_callback : option (callback S)) (s : S)
  : result (list DuplicateGroup) * S :=
  let safe := safe_progress_callback progress_callback in
  let s0 := fst (safe 0 s) in
  let st := scan_directory fs directory (Some safe) s0 in
  let s1 := fst (safe 50 (cb_state st)) in
  let duplicates :=
    find_duplicates fs (files_by_size st) (files_by_directory st) (Some safe) in
  (Ok duplicates, s1).

End Finder.

(* ------------------------------------------------------------------ *)
(** ** [DuplicateFinderThread] (src/ui.py) *)

Inductive signal : Type :=
| progress_updated (value : Z)
| duplicates_found (groups : list DuplicateGroup)
| error_occurred (msg : string).

(** The worker's view of a run: how often it has read [_is_running], and
    what it has emitted.  [stop()] is called from the UI thread;
    [stop_after = Some k] says that the first [k] reads of the flag still
    see [True] and every later one sees [False]; [None] says that nobody
    calls [stop()]. *)
Record worker : Type := {
  flag_reads : nat;
  emitted : list signal
}.

Module DuplicateFinderThread.

Definition is_running (stop_after : option nat) (w : worker) : bool :=
  match stop_after with
  | Some k => (flag_reads w <? k)%nat
  | None => true
  end.

Definition read_flag (w : worker) : worker :=
  {| flag_reads := Datatypes.S (flag_reads w); emitted := emitted w |}.

Definition emit (sig : signal) (w : worker) : worker :=
  {| flag_reads := flag_reads w; emitted := emitted w ++ [sig] |}.

(** The closure [progress_callback] of [run]. *)
Definition progress_callback (stop_after : option nat) : callback worker :=
  fun value w =>
    if is_running stop_after w
    then (emit (progress_updated value) (read_flag w), None)
    else (read_flag w, Some (InterruptedError "Scan stopped by user")).

(** [run]; the result is the list of signals emitted, in order. *)
Definition run (fs : FileSystem) (directory : string)
           (stop_after : option nat) : list signal :=
  let w0 := {| flag_reads := 0; emitted := [] |} in
  if negb (fs_exists fs directory) then
    emitted (emit (duplicates_found [])
               (emit (error_occurred ("Directory not found: " ++ directory)) w0))
  else
    match duplicate_file_finder fs directory
            (Some (progress_callback stop_after)) w0 with
    | (Ok duplicates, w) =>
        if is_running stop_after w
        then emitted (emit (duplicates_found duplicates) (read_flag w))
        else emitted (read_flag w)
    | (Raise (InterruptedError _), w) =>
        emitted (emit (duplicates_found []) w)
    | (Raise (FileNotFoundError msg), w)
    | (Raise (OtherException msg), w) =>
        emitted (emit (duplicates_found []) (emit (error_occurred msg) w))
    end.

End DuplicateFinderThread.

(* ------------------------------------------------------------------ *)
(** ** [display_duplicates] (src/ui.py): the numbers it shows *)

Record display : Type := {
  duplicate_progress : Z;           (* the progress bar *)
  group_headers : list (Z * Z * Z); (* per group: files, size, wasted space *)
  group_count : Z;                  (* "Found {len(duplicates)} duplicate groups" *)
  total_wasted_space : Z
}.

(** [wasted_space = group['size'] * (len(group['paths']) - 1)] *)
Definition wasted_space (group : DuplicateGroup) : Z :=
  size group * (len (paths group) - 1).

(** One turn of [for group in duplicates]. *)
Definition display_group (acc : list (Z * Z * Z) * Z) (group : DuplicateGroup)
  : list (Z * Z * Z) * Z :=
  let '(headers, total) := acc in
  (headers ++ [(len (paths group), size group, wasted_space group)],
   total + wasted_space group).

Definition display_duplicates (duplicates : list DuplicateGroup) : display :=
  let '(headers, total) := fold_left display_group duplicates ([], 0) in
  {| duplicate_progress := 100;
     group_headers := headers;
     group_count := len duplicates;
     total_wasted_space := total |}.

(* ------------------------------------------------------------------ *)
(** ** Recording callback and concrete snapshots *)

(** A callback that appends every value it is given to a list. *)
Definition recorder : callback (list Z) := fun value s => (s ++ [value], None).

(** The values a whole [duplicate_file_finder] run reports. *)
Definition reported_progress (fs : FileSystem) (directory : string) : list Z :=
  snd (duplicate_file_finder fs directory (Some recorder) []).

(** The values its phase 1, [scan_directory], reports. *)
Definition scan_progress (fs : FileSystem) (directory : string) : list Z :=
  cb_state (scan_directory fs directory (Some recorder) []).

Definition groups_found (fs : FileSystem) (directory : string)
  : result (list DuplicateGroup) :=
  fst (duplicate_file_finder (S := unit) fs directory None tt).

Module Scenario.

Definition bytes_of_string (s : string) : list byte := list_byte_of_string s.

Definition hex_val (c : ascii) : Z :=
  let n := Z.of_nat (nat_of_ascii c) in
  if n <? 58 then n - 48 else n - 87.

(** The bytes written as lower-case hexadecimal digits. *)
Fixpoint bytes_of_hex (s : string) : list byte :=
  match s with
  | String hi (String lo s') =>
      MD5.byte_of_val (16 * hex_val hi + hex_val lo) :: bytes_of_hex s'
  | _ => []
  end.

Fixpoint lookup {V : Type} (k : string) (tbl : list (string * V)) : option V :=
  match tbl with
  | [] => None
  | (k', v) :: tbl' => if String.eqb k k' then Some v else lookup k tbl'
  end.

(** A tree under [top], given by what [os.walk] lists, what [getsize]
    reports and what reading yields; a path that a table lacks makes
    the call raise. *)
Definition snapshot (top : string) (tree : list (string * list string))
           (sizes : list (string * Z)) (contents : list (string * list byte))
  : FileSystem :=
  {| fs_exists := fun d => String.eqb d top;
     fs_walk := fun d => if String.eqb d top then tree else [];
     fs_getsize := fun p => lookup p sizes;
     fs_open := fun p => lookup p contents |}.

(** Readable files: the size is the length of the content. *)
Definition readable (top : string) (tree : list (string * list string))
           (contents : list (string * list byte)) : FileSystem :=
  snapshot top tree (map (fun e => (fst e, len (snd e))) contents) contents.

(** [/d] with [report.pdf] and [copy of report.pdf], same content. *)
Definition copy_of_report : FileSystem :=
  readable "/d" [("/d", ["report.pdf"; "copy of report.pdf"])]
    [("/d/report.pdf", bytes_of_string "%PDF-1.4");
     ("/d/copy of report.pdf", bytes_of_string "%PDF-1.4")].

(** [/d] with [report (1).pdf] listed before [report.pdf]. *)
Definition numbered_report : FileSystem :=
  readable "/d" [("/d", ["report (1).pdf"; "report.pdf"])]
    [("/d/report.pdf", bytes_of_string "%PDF-1.4");
     ("/d/report (1).pdf", bytes_of_string "%PDF-1.4")].

(** The section 8 scenario of the specification. *)
Definition abx : FileSystem :=
  readable "/d" [("/d", ["a.txt"; "a (1).txt"; "b.txt"])]
    [("/d/a.txt", bytes_of_string "X");
     ("/d/a (1).txt", bytes_of_string "X");
     ("/d/b.txt", bytes_of_string "Y")].

(** A duplicated pair in each of two directories, all four files with
    the same content. *)
Definition mirrored_directories : FileSystem :=
  readable "/d" [("/d", []); ("/d/x", ["a.txt"; "a (1).txt"]);
                 ("/d/y", ["a.txt"; "a (1).txt"])]
    [("/d/x/a.txt", bytes_of_string "X");
     ("/d/x/a (1).txt", bytes_of_string "X");
     ("/d/y/a.txt", bytes_of_string "X");
     ("/d/y/a (1).txt", bytes_of_string "X")].

(** The same content under the same name in two directories. *)
Definition two_directories : FileSystem :=
  readable "/d" [("/d", []); ("/d/x", ["a.txt"]); ("/d/y", ["a.txt"])]
    [("/d/x/a.txt", bytes_of_string "X");
     ("/d/y/a.txt", bytes_of_string "X")].

(** Two 128-byte messages that differ in six bytes and have the same
    MD5 digest (Wang and Yu, 2005). *)
Definition collision_1 : list byte :=
  bytes_of_hex
    ("d131dd02c5e6eec4693d9a0698aff95c2fcab58712467eab4004583eb8fb7f89"
     ++ "55ad340609f4b30283e488832571415a085125e8f7cdc99fd91dbdf280373c5b"
     ++ "d8823e3156348f5bae6dacd436c919c6dd53e2b487da03fd02396306d248cda0"
     ++ "e99f33420f577ee8ce54b67080a80d1ec69821bcb6a8839396f9652b6ff72a70").

Definition collision_2 : list byte :=
  bytes_of_hex
    ("d131dd02c5e6eec4693d9a0698aff95c2fcab50712467eab4004583eb8fb7f89"
     ++ "55ad340609f4b30283e4888325f1415a085125e8f7cdc99fd91dbd7280373c5b"
     ++ "d8823e3156348f5bae6dacd436c919c6dd53e23487da03fd02396306d248cda0"
     ++ "e99f33420f577ee8ce54b67080280d1ec69821bcb6a8839396f965ab6ff72a70").

Definition colliding_pair : FileSystem :=
  readable "/d" [("/d", ["a.bin"; "a (1).bin"])]
    [("/d/a.bin", collision_1); ("/d/a (1).bin", collision_2)].

(** Two files that [getsize] can stat (3 and 5 bytes) and [open]
    refuses, as for a file without read permission. *)
Definition unreadable_pair : FileSystem :=
  snapshot "/d" [("/d", ["a.txt"; "a (1).txt"])]
    [("/d/a.txt", 3); ("/d/a (1).txt", 5)] [].

(** Two different files under names that normalize alike. *)
Definition different_content : FileSystem :=
  readable "/d" [("/d", ["a.txt"; "a (1).txt"])]
    [("/d/a.txt", bytes_of_string "X"); ("/d/a (1).txt", bytes_of_string "Y")].

End Scenario.

(** The processed-file counts [from + 1, ..., from + n]. *)
Fixpoint counts (from : Z) (n : nat) : list Z :=
  match n with
  | O => []
  | Datatypes.S n' => (from + 1) :: counts (from + 1) n'
  end.

(** What the inner loop of [scan_directory] reports when the count of
    processed files reaches [k]. *)
Definition tick (total_files chunk_size k : Z) : list Z :=
  if k mod chunk_size =? 0 then [progress_percent k total_files] else [].

(** The values of phase 1 for a tree of [total_files] files: one for
    every multiple of [chunk_size] among [1, ..., total_files]. *)
Definition phase1_ticks (total_files : Z) : list Z :=
  let chunk_size := Z.max 1 (total_files / 100) in
  map (fun k => progress_percent k total_files)
      (filter (fun k => k mod chunk_size =? 0)
              (counts 0 (Z.to_nat total_files))).

(** The paths of the files a walk lists, in walk order. *)
Definition walk_paths (walk : list (string * list string)) : list string :=
  flat_map (fun entry => map (OsPath.join (fst entry)) (snd entry)) walk.

(** The catalogue that phase 1 hands to [find_duplicates]. *)
Definition catalogue (fs : FileSystem) (directory : string) : files_by_directory_t :=
  files_by_directory (scan_directory (S := unit) fs directory None tt).

(* ------------------------------------------------------------------ *)
(** ** Vocabulary of the properties *)

(** What [display_duplicates] should show for a group. *)
Definition header_of (g : DuplicateGroup) : Z * Z * Z :=
  (len (paths g), size g, size g * (len (paths g) - 1)).

Definition sum_Z (l : list Z) : Z := fold_right Z.add 0 l.

(** The number of filesystem calls an access made. *)
Definition fs_calls {A : Type} (r : FileInfo.access A) : nat :=
  List.length (filter is_fs_call (FileInfo.trace r)).

(** A second access, whatever the filesystem has become, returns the
    same value, leaves the record as it is and calls nothing. *)
Definition settled {A : Type}
           (accessor : FileSystem -> FileInfo.t -> FileInfo.access A)
           (fs fs' : FileSystem) (f : FileInfo.t) : Prop :=
  accessor fs' (FileInfo.after (accessor fs f))
  = (FileInfo.value (accessor fs f), FileInfo.after (accessor fs f), []).

(** Every value [v] filed under a key [k] of a dictionary satisfies
    [P k v]. *)
Definition entries_satisfy {K V : Type} (P : K -> V -> Prop) (d : @dict K V)
  : Prop :=
  forall k vs v, In (k, vs) d -> In v vs -> P k v.

(** [p] is the path of a file that [os.walk] lists directly in [root]. *)
Definition resides_in (fs : FileSystem) (top root : string) (p : string) : Prop :=
  exists names name,
    In (root, names) (fs_walk fs top) /\ In name names
    /\ p = OsPath.join root name.

(** Every path is listed under one directory only. *)
Definition one_directory_per_path (fs : FileSystem) (top : string) : Prop :=
  forall d1 d2 p, resides_in fs top d1 p -> resides_in fs top d2 p -> d1 = d2.

(** A record as [scan_directory] files it under [root]. *)
Definition catalogued (fs : FileSystem) (top root : string) (f : FileInfo.t)
  : Prop :=
  FileInfo.valid fs f /\ resides_in fs top root (FileInfo.path f).

(** Every record of the catalogue has caches that agree with [fs]. *)
Definition catalogue_valid (fs : FileSystem) (by_dir : files_by_directory_t)
  : Prop :=
  entries_satisfy (fun _ f => FileInfo.valid fs f) by_dir.

(** Two scan states with the same catalogue and file count. *)
Definition same_catalogue {S S' : Type} (st : scan_state S) (st' : scan_state S')
  : Prop :=
  files_by_size st = files_by_size st'
  /\ files_by_directory st = files_by_directory st'
  /\ processed_files st = processed_files st'.

(** [l1] is contained in [l2], counting repetitions. *)
Definition subperm {A : Type} (l1 l2 : list A) : Prop :=
  exists rest, Permutation (l1 ++ rest) l2.

(** All member paths of a list of groups, group after group. *)
Definition member_paths (groups : list DuplicateGroup) : list string :=
  flat_map paths groups.

(** All paths of a catalogue, directory after directory. *)
Definition catalogue_paths (by_dir : files_by_directory_t) : list string :=
  map FileInfo.path (List.concat (map snd by_dir)).


(* ------------------------------------------------------------------ *)
(** ** Vocabulary for the further properties *)

(** [d.get(k, [])]: the list filed under [k], empty when [k] is no key. *)
Fixpoint dict_values {K V : Type} (eqb : K -> K -> bool) (k : K) (d : @dict K V)
  : list V :=
  match d with
  | [] => []
  | (k', vs) :: d' => if eqb k k' then vs else dict_values eqb k d'
  end.

(** What [for x in xs: d[key(x)].append(val(x))] files under [k]: the
    values of the elements whose key is [k], in the order of [xs]. *)
Definition filed_under {A K V : Type} (eqb : K -> K -> bool)
           (kv : A -> K * V) (k : K) (xs : list A) : list V :=
  map (fun x => snd (kv x)) (filter (fun x => eqb (fst (kv x)) k) xs).

(** The records the inner loop of [scan_directory] appends for one
    listed file: the record of the file when its size is positive. *)
Definition scanned_file (fs : FileSystem) (root name : string)
  : list (string * FileInfo.t) :=
  let r := FileInfo.size fs (FileInfo.init (OsPath.join root name)) in
  if 0 <? FileInfo.value r then [(root, FileInfo.after r)] else [].

(** The same for a whole walk, in walk order. *)
Definition scanned_entries (fs : FileSystem) (walk : list (string * list string))
  : list (string * FileInfo.t) :=
  flat_map (fun entry => flat_map (scanned_file fs (fst entry)) (snd entry)) walk.

(** The key of a record in [name_dict]. *)
Definition name_key (f : FileInfo.t) : string :=
  get_normalized_name (OsPath.name (FileInfo.path f)).

(** The keys of a dictionary are distinct and no list is empty. *)
Definition well_formed {K V : Type} (d : @dict K V) : Prop :=
  NoDup (map fst d) /\ Forall (fun e => snd e <> []) d.

(** The files of a directory listing that [find_duplicates] puts into
    the group with name key [key] and digest [h]. *)
Definition bucket_members (fs : FileSystem) (key h : string)
           (files : list FileInfo.t) : list FileInfo.t :=
  filter (fun f => String.eqb (name_key f) key
                   && String.eqb (FileInfo.value (FileInfo.full_hash fs f)) h)
         files.

(** The group [find_duplicates] makes of these files. *)
Definition group_of (fs : FileSystem) (d : string) (members : list FileInfo.t)
  : DuplicateGroup :=
  {| paths := map FileInfo.path members;
     size := first_size fs
               (map (fun f => FileInfo.after (FileInfo.full_hash fs f)) members);
     directory := d |}.

(** The key and value under which [scan_directory] files in
    [files_by_size] a record it files in [files_by_directory]. *)
Definition by_size_entry (fs : FileSystem) (e : string * FileInfo.t)
  : Z * FileInfo.t :=
  (FileInfo.size_of fs (FileInfo.path (snd e)), snd e).

(** Both indices of a scan state are filled from [entries], in order. *)
Definition scan_indices_are {S : Type} (fs : FileSystem) (st : scan_state S)
           (entries : list (string * FileInfo.t)) : Prop :=
  files_by_directory st = dict_collect String.eqb (fun e => e) entries []
  /\ files_by_size st = dict_collect Z.eqb (by_size_entry fs) entries [].

(** The progress values a worker still passes on when [stop()] lands
    after [k] reads of the flag. *)
Definition visible_progress (stop_after : option nat) (reported : list Z)
  : list Z :=
  match stop_after with
  | Some k => firstn k reported
  | None => reported
  end.

(** Has [stop()] landed by the time the worker has read the flag once
    per reported value? *)
Definition stopped_by_the_end (stop_after : option nat) (reported : list Z)
  : bool :=
  match stop_after with
  | Some k => (k <=? List.length reported)%nat
  | None => false
  end.

Definition groups_of_result (r : result (list DuplicateGroup))
  : list DuplicateGroup :=
  match r with
  | Ok groups => groups
  | Raise _ => []
  end.

(** The worker has read the flag once per recorded value and emitted
    the values that were still visible. *)
Definition worker_follows (stop_after : option nat) (w : worker) (l : list Z)
  : Prop :=
  flag_reads w = List.length l
  /\ emitted w = map progress_updated (visible_progress stop_after l).

(** Every character of [s] satisfies [P]. *)
Definition chars_satisfy (P : ascii -> Prop) (s : string) : Prop :=
  Forall P (list_ascii_of_string s).

(** A string of ASCII characters: every code is below 128. *)
Definition ascii_only (s : string) : Prop :=
  chars_satisfy (fun c => (Str.code c < 128)%nat) s.

(** No upper-case letter. *)
Definition no_upper (c : ascii) : Prop := Str.is_upper c = false.

(** A directory without files. *)
Definition empty_directory : FileSystem :=
  Scenario.readable "/d" [("/d", [])] [].

(* ------------------------------------------------------------------ *)
(** ** [pathlib]: the suffix and the stem of a file name

    [PurePath.suffix] and [PurePath.stem] as in CPython up to 3.13: the
    last dot counts when it is neither the first nor the last character
    of the name. *)

Module PurePath.

Definition dot_index (name : string) : option Z :=
  let i := Str.rfind "."%char name in
  if (0 <? i) && (i <? Str.len name - 1) then Some i else None.

Definition suffix (name : string) : string :=
  match dot_index name with
  | Some i => Str.slice name i (Str.len name)
  | None => EmptyString
  end.

Definition stem (name : string) : string :=
  match dot_index name with
  | Some i => Str.slice name 0 i
  | None => name
  end.

End PurePath.

(** [str(n)] and [f"{n}"] of an [int]. *)
Definition str_of_int (n : Z) : string := NilEmpty.string_of_int (Z.to_int n).

(** [int(s)] on what [str] writes. *)
Definition int_of_str (s : string) : option Z :=
  option_map Z.of_int (NilEmpty.int_of_string s).

(* ------------------------------------------------------------------ *)
(** ** [organize_downloads]

    The mappings are a [dict] from a folder name to a list of
    extensions, in insertion order. *)

Definition folder_mappings_t : Type := @dict string string.

(** One turn of the loop over [custom_rules]; unpacking the result of
    [split] raises [ValueError] unless it has two elements, and the
    handler goes on with the next rule. *)
Definition add_custom_rule (folder_mappings : folder_mappings_t) (rule : string)
  : folder_mappings_t :=
  match Str.split ":"%char rule with
  | [extension; folder] =>
      dict_append String.eqb (Str.strip folder) (Str.lower (Str.strip extension))
                  folder_mappings
  | _ => folder_mappings
  end.

Definition custom_rule_mappings (custom_rules : list string) : folder_mappings_t :=
  fold_left add_custom_rule custom_rules [].

(** [saved] is [settings.get_extension_mappings()]; no rules and an
    empty list of rules are both falsy. *)
Definition mappings_in_use (saved : folder_mappings_t) (custom_rules : list string)
  : folder_mappings_t :=
  match custom_rules with
  | [] => saved
  | _ => custom_rule_mappings custom_rules
  end.

(** [x in l] for a list of strings. *)
Definition is_in (x : string) (l : list string) : bool :=
  existsb (String.eqb x) l.

(** The loop over [folder_mappings.items()] with its [break]: the first
    folder whose extensions hold the suffix. *)
Fixpoint matching_folder (suffix : string) (folder_mappings : folder_mappings_t)
  : option string :=
  match folder_mappings with
  | [] => None
  | (folder, extensions) :: rest =>
      if is_in suffix extensions then Some folder
      else matching_folder suffix rest
  end.

(** The folder a file goes to: [Others] when nothing matched. *)
Definition target_folder_name (folder_mappings : folder_mappings_t) (item : string)
  : string :=
  match matching_folder (Str.lower (PurePath.suffix item)) folder_mappings with
  | Some folder => folder
  | None => "Others"
  end.

(** [f"{item.stem}_{counter}{item.suffix}"] *)
Definition numbered_name (item : string) (counter : Z) : string :=
  (PurePath.stem item ++ "_" ++ str_of_int counter ++ PurePath.suffix item)%string.

(** The [while] loop: the first name numbered from [counter] that
    does not exist where the candidates lie, whose entries are
    [taken]. *)
Fixpoint free_numbered_name (fuel : nat) (taken : list string) (item : string)
         (counter : Z) : option string :=
  match fuel with
  | O => None
  | Datatypes.S fuel' =>
      let target := numbered_name item counter in
      if is_in target taken
      then free_numbered_name fuel' taken item (counter + 1)
      else Some target
  end.

(** The loop started at [counter = 1]; one turn more than there are
    entries is enough, see [free_numbered_name_total]. *)
Definition free_name (taken : list string) (item : string) : option string :=
  free_numbered_name (Datatypes.S (List.length taken)) taken item 1.

(** The folder being organized: the names of its regular files, and
    its subdirectories with the names of their entries.  Names are
    compared as on a case-sensitive file system. *)
Record folder_tree : Type := {
  top_files : list string;
  top_dirs : @dict string string
}.

(** Where a path that the run builds lies: in the folder, in one of
    its subdirectories, or at a place this tree does not hold. *)
Inductive place : Type :=
| the_folder
| subdirectory (name : string)
| elsewhere.

(** [folder_path / folder]: pathlib drops the empty components and
    the components [.] of [folder], keeps [..], and an absolute
    [folder] replaces the path. *)
Definition target_folder_of (folder : string) : place :=
  if Str.startswith OsPath.sep folder then elsewhere
  else
    match OsPath.parts folder with
    | [] => the_folder
    | [name] => if String.eqb name ".." then elsewhere else subdirectory name
    | _ => elsewhere
    end.

(** [p.parent] *)
Definition parent_of (p : place) : place :=
  match p with
  | subdirectory _ => the_folder
  | _ => elsewhere
  end.

Definition is_dir (t : folder_tree) (name : string) : bool :=
  is_in name (map fst (top_dirs t)).

(** The names for which [exists()] answers [True] in the folder. *)
Definition top_entries (t : folder_tree) : list string :=
  top_files t ++ map fst (top_dirs t).

Definition entries_of (t : folder_tree) (p : place) : list string :=
  match p with
  | the_folder => top_entries t
  | subdirectory name => dict_values String.eqb name (top_dirs t)
  | elsewhere => []
  end.

Definition remove_name (name : string) (l : list string) : list string :=
  filter (fun other => negb (String.eqb other name)) l.

(** What the operating system answers where the tree does not decide:
    whether it creates a directory whose name is free, and whether it
    moves a file.  A move is a rename within one file system: when it
    raises, nothing has changed. *)
Record os_answers : Type := {
  mkdir_succeeds : string -> bool;
  move_succeeds : string -> bool
}.

(** [target_folder.mkdir(exist_ok=True)]; [None] when it raises
    [OSError], which it does with [FileExistsError] when a file has the
    name. *)
Definition mkdir (os : os_answers) (t : folder_tree) (target_folder : place)
  : option folder_tree :=
  match target_folder with
  | subdirectory name =>
      if is_dir t name then Some t
      else if is_in name (top_files t) then None
      else if mkdir_succeeds os name
           then Some {| top_files := top_files t;
                        top_dirs := top_dirs t ++ [(name, [])] |}
           else None
  | _ => Some t
  end.

(** How far the model follows a run. *)
Inductive outcome (A : Type) : Type :=
| Finished (a : A)
| LeavesFolder
| OutOfFuel.

Arguments Finished {A} a.
Arguments LeavesFolder {A}.
Arguments OutOfFuel {A}.

(** [target_path]: [target_folder / item.name] when that does not
    exist.  Otherwise the candidates are [base.with_name(...)] for
    [base = target_folder / item.stem]; pathlib drops a component [.],
    so for the stem [.] the base is the target folder itself and the
    candidates lie beside it, in its parent. *)
Definition target_path (t : folder_tree) (target_folder : place) (item : string)
  : outcome (place * string) :=
  if is_in item (entries_of t target_folder) then
    let candidates_in :=
      if String.eqb (PurePath.stem item) "." then parent_of target_folder
      else target_folder in
    match candidates_in with
    | elsewhere => LeavesFolder
    | _ =>
        match free_name (entries_of t candidates_in) item with
        | Some name => Finished (candidates_in, name)
        | None => OutOfFuel
        end
    end
  else Finished (target_folder, item).

(** [shutil.move(str(item), str(target_path))] when it succeeds. *)
Definition move (t : folder_tree) (item : string) (p : place) (name : string)
  : folder_tree :=
  match p with
  | the_folder =>
      {| top_files := remove_name item (top_files t) ++ [name];
         top_dirs := top_dirs t |}
  | subdirectory d =>
      {| top_files := remove_name item (top_files t);
         top_dirs := dict_append String.eqb d name (top_dirs t) |}
  | elsewhere => t
  end.

(** The body of the loop over [folder_path.iterdir()], on the tree and
    [items_processed].  The handlers of [PermissionError] and [OSError]
    go on with the next item: after a failed [mkdir] nothing has
    changed, after a failed move the directory may have been made.
    [LeavesFolder]: the run goes on at a path that is neither in the
    folder nor in one of its subdirectories, where the model does not
    follow it. *)
Definition organize_item (os : os_answers) (folder_mappings : folder_mappings_t)
           (st : folder_tree * Z) (item : string) : outcome (folder_tree * Z) :=
  let '(t, items_processed) := st in
  if negb (is_in item (top_files t)) then Finished st
  else
    match target_folder_of (target_folder_name folder_mappings item) with
    | elsewhere => LeavesFolder
    | target_folder =>
        match mkdir os t target_folder with
        | None => Finished st
        | Some t1 =>
            match target_path t1 target_folder item with
            | Finished (p, name) =>
                if move_succeeds os item
                then Finished (move t1 item p name, items_processed + 1)
                else Finished (t1, items_processed)
            | LeavesFolder => LeavesFolder
            | OutOfFuel => OutOfFuel
            end
        end
    end.

Fixpoint organize_items (os : os_answers) (folder_mappings : folder_mappings_t)
         (st : folder_tree * Z) (items : list string) : outcome (folder_tree * Z) :=
  match items with
  | [] => Finished st
  | item :: rest =>
      match organize_item os folder_mappings st item with
      | Finished st' => organize_items os folder_mappings st' rest
      | LeavesFolder => LeavesFolder
      | OutOfFuel => OutOfFuel
      end
  end.

(** [organize_downloads(folder_path, custom_rules)] on an existing
    folder that can be read and written: [items] is what [iterdir]
    lists.  The result is the tree afterwards and the count of the
    final log line. *)
Definition organize_downloads (os : os_answers) (saved : folder_mappings_t)
           (custom_rules : list string) (t : folder_tree) (items : list string)
  : outcome (folder_tree * Z) :=
  organize_items os (mappings_in_use saved custom_rules) (t, 0) items.

(* ------------------------------------------------------------------ *)
(** ** [ExtensionMappingDialog]: the table of the dialog

    A row holds the extension (column 0) and the folder (column 1). *)

Module ExtensionMappingDialog.

Definition table : Type := list (string * string).

(** [load_mappings], on the empty table of a new dialog. *)
Definition load_mappings (mappings : folder_mappings_t) : table :=
  flat_map (fun entry => map (fun ext => (ext, fst entry)) (snd entry)) mappings.

Definition add_mapping (ext_input folder_input : string) (rows : table) : table :=
  let ext := Str.strip ext_input in
  let folder := Str.strip folder_input in
  if negb (String.eqb ext EmptyString) && negb (String.eqb folder EmptyString)
  then
    let ext := if Str.startswith "."%char ext then ext else ("." ++ ext)%string in
    rows ++ [(ext, folder)]
  else rows.

Definition get_mappings (rows : table) : folder_mappings_t :=
  dict_collect String.eqb (fun row => (snd row, fst row)) rows [].

End ExtensionMappingDialog.

(* ------------------------------------------------------------------ *)
(** ** [ClipboardManager]: the clipboard history

    The table [history] is the list of its rows in insertion order; a
    Python [str] is the sequence of the bytes of its encoding. *)

Module ClipboardManager.

Record row : Type := {
  rowid : Z;
  timestamp : string;
  content : string;
  favorite : Z;
  hash : string
}.

Definition history : Type := list row.

(** One turn of the loop of [monitor_clipboard] in which
    [pyperclip.paste()] returns [clip]: the state is [last_clip] and the
    queue. *)
Definition monitor_step (st : string * list (string * string)) (clip : string)
  : string * list (string * string) :=
  let '(last_clip, queue) := st in
  if negb (String.eqb clip EmptyString) && negb (String.eqb clip last_clip)
     && negb (String.prefix "*****" clip)
  then (clip, queue ++ [(clip, MD5.hexdigest (list_byte_of_string clip))])
  else (last_clip, queue).

(** What [monitor_clipboard] puts on the queue while the clipboard
    shows [pastes], one per turn. *)
Definition monitor_clipboard (pastes : list string) : list (string * string) :=
  snd (fold_left monitor_step pastes (EmptyString, [])).

(** The rowid SQLite gives a new row: one more than the largest in
    use, 1 in an empty table. *)
Definition next_rowid (h : history) : Z :=
  fold_right Z.max 0 (map rowid h) + 1.

(** One turn of the loop of [process_queue] that takes an entry from
    the queue at time [now]. *)
Definition process_entry (h : history) (e : string * (string * string)) : history :=
  let '(now, (clip, clip_hash)) := e in
  if existsb (fun r => String.eqb (hash r) clip_hash) h then h
  else h ++ [{| rowid := next_rowid h; timestamp := now; content := clip;
                favorite := 0; hash := clip_hash |}].

Definition process_queue (h : history) (entries : list (string * (string * string)))
  : history :=
  fold_left process_entry entries h.

(** [SET favorite = CASE WHEN favorite = 0 THEN 1 ELSE 0 END] *)
Definition toggled (r : row) : row :=
  {| rowid := rowid r; timestamp := timestamp r; content := content r;
     favorite := if favorite r =? 0 then 1 else 0; hash := hash r |}.

(** [save_favorite_snippet]: the table afterwards and the result. *)
Definition save_favorite_snippet (snippet_id : Z) (h : history) : history * bool :=
  if existsb (fun r => rowid r =? snippet_id) h
  then
    let h' := map (fun r => if rowid r =? snippet_id then toggled r else r) h in
    let rowcount := len (filter (fun r => rowid r =? snippet_id) h) in
    (h', 0 <? rowcount)
  else (h, false).

End ClipboardManager.

(** *** The list of clips in the window *)

(** A byte that continues a character in UTF-8: [10xxxxxx]. *)
Definition is_continuation (c : ascii) : bool :=
  (128 <=? Str.code c)%nat && (Str.code c <? 192)%nat.

(** [len(s)]: the number of characters of [s], one for each byte that
    does not continue a character. *)
Fixpoint code_points (s : string) : Z :=
  match s with
  | EmptyString => 0
  | String c s' => (if is_continuation c then 0 else 1) + code_points s'
  end.

(** [s[:n]]: the bytes of the first [n] characters. *)
Fixpoint take_code_points (n : nat) (s : string) : string :=
  match s with
  | EmptyString => EmptyString
  | String c s' =>
      if is_continuation c then String c (take_code_points n s')
      else
        match n with
        | O => EmptyString
        | Datatypes.S n' => String c (take_code_points n' s')
        end
  end.

(** The text of the content cell that [load_clips] makes. *)
Definition display_content (content : string) : string :=
  if 100 <? code_points content
  then (take_code_points 97 content ++ "...")%string
  else content.

(** The text of the favorite cell. *)
Definition favorite_text (favorite : Z) : string :=
  if favorite =? 0 then "No" else "Yes".

(** The cells of a row of [clips_list] that the slots read: id,
    content and favorite. *)
Record clip_cells : Type := {
  id_cell : string;
  content_cell : string;
  favorite_cell : string
}.

Definition cells_of (r : ClipboardManager.row) : clip_cells :=
  {| id_cell := str_of_int (ClipboardManager.rowid r);
     content_cell := display_content (ClipboardManager.content r);
     favorite_cell := favorite_text (ClipboardManager.favorite r) |}.

(** [copy_selected_clip]: what goes to the clipboard. *)
Definition copy_selected_clip (cells : clip_cells) : string := content_cell cells.

(** [toggle_favorite] on the selected row; [None] when [int] raises. *)
Definition toggle_favorite (cells : clip_cells) (h : ClipboardManager.history)
  : option (clip_cells * ClipboardManager.history) :=
  match int_of_str (id_cell cells) with
  | None => None
  | Some snippet_id =>
      let new_favorite := negb (String.eqb (favorite_cell cells) "Yes") in
      let '(h', success) := ClipboardManager.save_favorite_snippet snippet_id h in
      if success
      then Some ({| id_cell := id_cell cells; content_cell := content_cell cells;
                    favorite_cell := if new_favorite then "Yes" else "No" |}, h')
      else Some (cells, h')
  end.

(** *** Vocabulary for [organize_downloads] *)

(** The rule has the form [extension:folder] and, with its parts
    stripped and the extension in lower case, names [ext] and [folder]. *)
Definition rule_assigns (rule ext folder : string) : Prop :=
  exists extension folder',
    Str.split ":"%char rule = [extension; folder']
    /\ Str.lower (Str.strip extension) = ext
    /\ Str.strip folder' = folder.

(** What a rule adds to the mappings: the folder and the extension. *)
Definition parsed_rule (rule : string) : list (string * string) :=
  match Str.split ":"%char rule with
  | [extension; folder] => [(Str.strip folder, Str.lower (Str.strip extension))]
  | _ => []
  end.

(** The name of a moved file: its own or a numbered one. *)
Definition named_after (target item : string) : Prop :=
  target = item \/ exists k, 1 <= k /\ target = numbered_name item k.

(** Files and subdirectories have distinct names, within the folder
    and within each subdirectory. *)
Definition tidy (t : folder_tree) : Prop :=
  NoDup (top_files t)
  /\ NoDup (map fst (top_dirs t))
  /\ Forall (fun e => NoDup (snd e)) (top_dirs t)
  /\ forall name, In name (top_files t) -> ~ In name (map fst (top_dirs t)).

(** The number of entries of the subdirectories. *)
Definition entries_count (d : @dict string string) : Z :=
  sum_Z (map (fun e => len (snd e)) d).

(** The run stays in the folder and its subdirectories at [item]: the
    target folder is the folder or a subdirectory, and candidate names
    are not looked for beside the folder. *)
Definition stays_inside (folder_mappings : folder_mappings_t) (item : string)
  : Prop :=
  match target_folder_of (target_folder_name folder_mappings item) with
  | the_folder => PurePath.stem item <> "."
  | subdirectory _ => True
  | elsewhere => False
  end.

(** The name of the subdirectory that is the target folder of [item]. *)
Definition subdirectory_of (folder_mappings : folder_mappings_t) (item : string)
  : string :=
  match target_folder_of (target_folder_name folder_mappings item) with
  | subdirectory name => name
  | _ => EmptyString
  end.

(** The target folder of [item] is a subdirectory, and its candidate
    names lie there. *)
Definition goes_to_a_subdirectory (folder_mappings : folder_mappings_t)
           (item : string) : Prop :=
  target_folder_of (target_folder_name folder_mappings item)
  = subdirectory (subdirectory_of folder_mappings item)
  /\ PurePath.stem item <> ".".

(** What a run keeps, whatever it moves: the number of files, the
    entries of the subdirectories and the subdirectories. *)
Definition kept (t t' : folder_tree) : Prop :=
  len (top_files t') + entries_count (top_dirs t')
  = len (top_files t) + entries_count (top_dirs t)
  /\ (forall d name,
         In name (dict_values String.eqb d (top_dirs t)) ->
         In name (dict_values String.eqb d (top_dirs t')))
  /\ incl (map fst (top_dirs t)) (map fst (top_dirs t')).

(** [item] is in its subdirectory, under a name of its own that was
    free there. *)
Definition placed (folder_mappings : folder_mappings_t) (t t' : folder_tree)
           (item : string) : Prop :=
  exists target,
    In target (dict_values String.eqb (subdirectory_of folder_mappings item)
                           (top_dirs t'))
    /\ named_after target item
    /\ ~ In target (dict_values String.eqb (subdirectory_of folder_mappings item)
                                (top_dirs t)).

(** How [t'] comes from [t] when files have gone to subdirectories:
    no file has come to the folder, and each file that left it is
    placed. *)
Definition sorted_into_subdirectories (folder_mappings : folder_mappings_t)
           (t t' : folder_tree) : Prop :=
  incl (top_files t') (top_files t)
  /\ kept t t'
  /\ forall item, In item (top_files t) -> ~ In item (top_files t') ->
                  placed folder_mappings t t' item.

(** Why [item] is still where it was: [mkdir] raised, because a file
    of the folder has the name of the subdirectory or because the
    operating system refused, or the move raised. *)
Definition held_back (os : os_answers) (folder_mappings : folder_mappings_t)
           (t : folder_tree) (item : string) : Prop :=
  (In (subdirectory_of folder_mappings item) (top_files t)
   /\ ~ In (subdirectory_of folder_mappings item) (map fst (top_dirs t)))
  \/ (~ In (subdirectory_of folder_mappings item) (map fst (top_dirs t))
      /\ mkdir_succeeds os (subdirectory_of folder_mappings item) = false)
  \/ move_succeeds os item = false.

(** *** Vocabulary for the clipboard history *)

(** A clip that [monitor_clipboard] records when it is new. *)
Definition recordable (clip : string) : Prop :=
  clip <> EmptyString /\ String.prefix "*****" clip = false.

(** The digest [monitor_clipboard] computes for a clip. *)
Definition clip_digest (clip : string) : string :=
  MD5.hexdigest (list_byte_of_string clip).

(** The rows have distinct digests and distinct positive rowids, and
    [favorite] is 0 or 1. *)
Definition sound_history (h : ClipboardManager.history) : Prop :=
  NoDup (map ClipboardManager.hash h)
  /\ NoDup (map ClipboardManager.rowid h)
  /\ Forall (fun r => 0 < ClipboardManager.rowid r) h
  /\ Forall (fun r => ClipboardManager.favorite r = 0
                      \/ ClipboardManager.favorite r = 1) h.

(** *** Sample data *)

(** A downloads folder: five files, one of them named like the folder
    for unmatched files, and two subdirectories. *)
Definition downloads : folder_tree :=
  {| top_files := ["a.png"; "b.PDF"; "c.xyz"; "Others"; "a.jpg"];
     top_dirs := [("Images", ["a.png"; "a_1.png"]); ("sub", [])] |}.

(** What [iterdir] lists for it. *)
Definition downloads_listing : list string :=
  ["a.png"; "sub"; "b.PDF"; "c.xyz"; "Others"; "a.jpg"; "Images"].

Definition saved_mappings : folder_mappings_t :=
  [("Images", [".png"; ".jpg"]); ("Documents", [".pdf"])].

(** The history after the clips [abc] and [x]. *)
Definition two_clips : ClipboardManager.history :=
  ClipboardManager.process_queue
    [] (combine ["t1"; "t2"] (ClipboardManager.monitor_clipboard ["abc"; "x"])).

(** The letter e with an acute accent, U+00E9: the two bytes of its UTF-8
    encoding. *)
Definition e_acute : string :=
  String (Ascii.ascii_of_nat 195) (String (Ascii.ascii_of_nat 169) EmptyString).
(* ------------------------------------------------------------------ *)
(** ** The table of duplicates and [delete_selected_duplicates] (src/ui.py) *)

Module PosixPath.

(** [s.rstrip(c)] for a character. *)
Fixpoint lstrip_char (c : ascii) (s : string) : string :=
  match s with
  | EmptyString => EmptyString
  | String c' s' => if Ascii.eqb c c' then lstrip_char c s' else s
  end.

Definition rstrip_char (c : ascii) (s : string) : string :=
  Str.reverse (lstrip_char c (Str.reverse s)).

(** [head == sep * len(head)] *)
Definition all_sep (s : string) : bool :=
  negb (Str.existsb (fun c => negb (Ascii.eqb c OsPath.sep)) s).

(** [posixpath.split(p)] *)
Definition split (p : string) : string * string :=
  let i := Str.rfind OsPath.sep p + 1 in
  let head := Str.slice p 0 i in
  let tail := Str.slice p i (Str.len p) in
  let head :=
    if negb (String.eqb head EmptyString) && negb (all_sep head)
    then rstrip_char OsPath.sep head
    else head in
  (head, tail).

Definition dirname (p : string) : string := fst (split p).
Definition basename (p : string) : string := snd (split p).

End PosixPath.

(** A row of [duplicates_table]: the header of a group, which has a
    check box and an item in column 1 only; a file, with its check
    box, its name (column 1) and its location (column 3); or a
    separator, which has no check box. *)
Inductive table_row : Type :=
| header_row (checked : bool)
| file_row (checked : bool) (file_name location : string)
| separator_row.

(** The rows [display_duplicates] adds for a group, with the boxes as
    the user has left them. *)
Definition rows_of_group (header_checked : bool) (checked : string -> bool)
           (g : DuplicateGroup) : list table_row :=
  header_row header_checked
  :: map (fun file_path =>
            file_row (checked file_path)
                     (PosixPath.basename file_path) (PosixPath.dirname file_path))
         (paths g)
  ++ [separator_row].

Definition duplicates_table (header_checked : DuplicateGroup -> bool)
           (checked : string -> bool) (duplicates : list DuplicateGroup)
  : list table_row :=
  flat_map (fun g => rows_of_group (header_checked g) checked g) duplicates.

(** The loop of [delete_selected_duplicates] that collects
    [files_to_delete]; [None] when it raises.  On a header row whose
    box is checked, [item(row, 2)] is [None] and [.text()] raises
    [AttributeError]. *)
Fixpoint files_to_delete (rows : list table_row) : option (list string) :=
  match rows with
  | [] => Some []
  | header_row true :: _ => None
  | file_row true file_name location :: rest =>
      option_map (cons (OsPath.join location file_name)) (files_to_delete rest)
  | _ :: rest => files_to_delete rest
  end.

(** The paths [delete_selected_duplicates] hands to [os.remove]: none
    when the loop raised (the handler shows a warning), when nothing is
    selected, or when the answer to the question is no. *)
Definition delete_selected_duplicates (rows : list table_row) (reply_yes : bool)
  : list string :=
  match files_to_delete rows with
  | Some files => if reply_yes then files else []
  | None => []
  end.

(** A name without separator. *)
Definition plain_name (name : string) : Prop :=
  Str.existsb (Ascii.eqb OsPath.sep) name = false.

(** A directory path as [os.walk] makes it of a top without trailing
    separator: empty, all separators, or not ending in one. *)
Definition plain_root (root : string) : Prop :=
  root = EmptyString
  \/ PosixPath.all_sep root = true
  \/ Str.endswith OsPath.sep root = false.

(** The walk lists plain names under plain roots. *)
Definition plain_walk (walk : list (string * list string)) : Prop :=
  Forall (fun entry => plain_root (fst entry) /\ Forall plain_name (snd entry)) walk.


(** The record [scan_directory] makes of the path [p]. *)
Definition scanned_record (fs : FileSystem) (p : string) : FileInfo.t :=
  FileInfo.after (FileInfo.size fs (FileInfo.init p)).

(* ================================================================== *)
(** * Properties *)


(** ** The wasted-space metric *)

Lemma display_group_fold (duplicates : list DuplicateGroup) :
  forall headers total,
    fold_left display_group duplicates (headers, total)
    = (headers ++ map header_of duplicates,
       total + sum_Z (map (fun g => size g * (len (paths g) - 1)) duplicates)).
Proof.
  induction duplicates as [| g gs IH]; intros headers total; simpl.
  - now rewrite app_nil_r, Z.add_0_r.
  - rewrite IH. unfold wasted_space, header_of.
    rewrite <- app_assoc. simpl. f_equal. unfold sum_Z. lia.
Qed.

(** C5.  [display_duplicates] shows, for each group of N paths and size
    S, the wasted space S * (N - 1), and as the total the sum of these
    over all groups. *)
Theorem wasted_space_is_size_times_copies (duplicates : list DuplicateGroup) :
  group_headers (display_duplicates duplicates)
  = map (fun g => (len (paths g), size g, size g * (len (paths g) - 1))) duplicates
  /\ total_wasted_space (display_duplicates duplicates)
     = sum_Z (map (fun g => size g * (len (paths g) - 1)) duplicates)
  /\ (forall g, wasted_space g = size g * (len (paths g) - 1)).
Proof.
  unfold display_duplicates.
  rewrite display_group_fold. simpl. repeat split.
Qed.

(** ** The accessors of [FileInfo] *)

Module FileInfoFacts.
Import FileInfo.

Lemma firstn_nil_inv {A : Type} (n : nat) (l : list A) :
  (0 < n)%nat -> firstn n l = [] -> l = [].
Proof.
  destruct n; [lia |]. destruct l; [reflexivity | discriminate].
Qed.

Lemma firstn_chunks {A : Type} (n m : nat) (l : list A) :
  (n <= m)%nat ->
  firstn n l ++ firstn (m - List.length (firstn n l)) (skipn n l) = firstn m l.
Proof.
  revert m l. induction n as [| n IH]; intros m l Hnm.
  - simpl. now rewrite Nat.sub_0_r.
  - destruct l as [| x l]; simpl.
    + now rewrite !firstn_nil.
    + destruct m as [| m]; [lia |]. simpl. f_equal. apply IH. lia.
Qed.

Lemma CHUNK_SIZE_pos : 0 < CHUNK_SIZE.
Proof. reflexivity. Qed.

Local Opaque CHUNK_SIZE MAX_QUICK_READ_SIZE.

(** The loop of [full_hash] feeds the whole content to the digest, and
    the fuel [fuel_for] gives is enough for it to leave by itself. *)
Lemma full_hash_loop_total (fuel : nat) :
  forall f md5,
    (List.length f < fuel)%nat ->
    full_hash_loop fuel f md5 = Some (md5 ++ f).
Proof.
  induction fuel as [| fuel IH]; intros f md5 Hfuel; [lia |].
  simpl. unfold file_read.
  assert (Hpos : (0 < Z.to_nat CHUNK_SIZE)%nat) by (pose proof CHUNK_SIZE_pos; lia).
  remember (Z.to_nat CHUNK_SIZE) as n eqn:En. clear En.
  destruct (firstn n f) as [| b chunk] eqn:Hchunk.
  - apply firstn_nil_inv in Hchunk; [| exact Hpos]. subst f.
    now rewrite app_nil_r.
  - rewrite IH.
    + rewrite <- app_assoc, <- Hchunk, firstn_skipn. reflexivity.
    + rewrite length_skipn.
      assert (0 < List.length f)%nat
        by (destruct f; [now rewrite firstn_nil in Hchunk | simpl; lia]).
      lia.
Qed.

(** The loop of [quick_hash] feeds the first [MAX_QUICK_READ_SIZE] bytes. *)
Lemma quick_hash_loop_total (fuel : nat) :
  forall f md5 bytes_read,
    0 <= bytes_read ->
    (List.length f < fuel)%nat ->
    quick_hash_loop fuel f md5 bytes_read
    = Some (md5 ++ firstn (Z.to_nat (MAX_QUICK_READ_SIZE - bytes_read)) f).
Proof.
  induction fuel as [| fuel IH]; intros f md5 bytes_read Hbr Hfuel; [lia |].
  simpl. destruct (bytes_read <? MAX_QUICK_READ_SIZE) eqn:Hlt.
  - apply Z.ltb_lt in Hlt. unfold file_read.
    assert (Hpos : (0 < Z.to_nat (Z.min CHUNK_SIZE (MAX_QUICK_READ_SIZE - bytes_read)))%nat)
      by (pose proof CHUNK_SIZE_pos; lia).
    assert (Hle : (Z.to_nat (Z.min CHUNK_SIZE (MAX_QUICK_READ_SIZE - bytes_read))
                   <= Z.to_nat (MAX_QUICK_READ_SIZE - bytes_read))%nat) by lia.
    remember (Z.to_nat (Z.min CHUNK_SIZE (MAX_QUICK_READ_SIZE - bytes_read))) as n eqn:En.
    clear En.
    destruct (firstn n f) as [| b chunk] eqn:Hchunk.
    + apply firstn_nil_inv in Hchunk; [| exact Hpos]. subst f.
      now rewrite firstn_nil, app_nil_r.
    + rewrite IH.
      * rewrite <- app_assoc. f_equal.
        rewrite <- (firstn_chunks n (Z.to_nat (MAX_QUICK_READ_SIZE - bytes_read)) f Hle).
        rewrite Hchunk. do 3 f_equal. unfold len. lia.
      * unfold len. lia.
      * rewrite length_skipn.
        assert (0 < List.length f)%nat
          by (destruct f; [now rewrite firstn_nil in Hchunk | simpl; lia]).
        lia.
  - apply Z.ltb_ge in Hlt.
    replace (Z.to_nat (MAX_QUICK_READ_SIZE - bytes_read)) with 0%nat by lia.
    simpl. now rewrite app_nil_r.
Qed.

Lemma try_full_hash_readable fs p content :
  fs_open fs p = Some content ->
  try_full_hash fs p = Some (MD5.hexdigest content).
Proof.
  intros Hopen. unfold try_full_hash. rewrite Hopen.
  rewrite full_hash_loop_total by (unfold fuel_for; lia). reflexivity.
Qed.

Lemma try_quick_hash_readable fs p content :
  fs_open fs p = Some content ->
  try_quick_hash fs p
  = Some (MD5.hexdigest (firstn (Z.to_nat MAX_QUICK_READ_SIZE) content)).
Proof.
  intros Hopen. unfold try_quick_hash. rewrite Hopen.
  rewrite quick_hash_loop_total by (unfold fuel_for; lia).
  rewrite Z.sub_0_r. reflexivity.
Qed.

Local Transparent CHUNK_SIZE MAX_QUICK_READ_SIZE.

Lemma try_full_hash_unreadable fs p :
  fs_open fs p = None -> try_full_hash fs p = None.
Proof. intros H. unfold try_full_hash. now rewrite H. Qed.

Lemma try_quick_hash_unreadable fs p :
  fs_open fs p = None -> try_quick_hash fs p = None.
Proof. intros H. unfold try_quick_hash. now rewrite H. Qed.

(** The digest of a file that can be read is never the sentinel. *)
Lemma hexdigest_not_empty (msg : list byte) : MD5.hexdigest msg <> EmptyString.
Proof.
  unfold MD5.hexdigest, MD5.hex_word_le, MD5.hex_byte. discriminate.
Qed.

Lemma hexdigest_length (msg : list byte) :
  String.length (MD5.hexdigest msg) = 32%nat.
Proof.
  unfold MD5.hexdigest, MD5.hex_word_le, MD5.hex_byte. reflexivity.
Qed.

(** What each accessor returns on a record whose caches are valid. *)
Lemma size_value fs f :
  valid fs f -> value (size fs f) = size_of fs (path f).
Proof.
  intros (Hs & _ & _). unfold size, size_of, value.
  destruct Hs as [-> | ->]; [| reflexivity].
  destruct (fs_getsize fs (path f)); reflexivity.
Qed.

Lemma quick_hash_value fs f :
  valid fs f -> value (quick_hash fs f) = quick_hash_of fs (path f).
Proof.
  intros (_ & Hq & _). unfold quick_hash, quick_hash_of, value.
  destruct Hq as [-> | ->]; [| reflexivity].
  destruct (try_quick_hash fs (path f)); reflexivity.
Qed.

Lemma full_hash_value fs f :
  valid fs f -> value (full_hash fs f) = full_hash_of fs (path f).
Proof.
  intros (_ & _ & Hf). unfold full_hash, full_hash_of, value.
  destruct Hf as [-> | ->]; [| reflexivity].
  destruct (try_full_hash fs (path f)); reflexivity.
Qed.

Lemma size_path fs f : path (after (size fs f)) = path f.
Proof.
  unfold size, after. destruct (_size f); [reflexivity |].
  destruct (fs_getsize fs (path f)); reflexivity.
Qed.

Lemma full_hash_path fs f : path (after (full_hash fs f)) = path f.
Proof.
  unfold full_hash, after. destruct (_full_hash f); [reflexivity |].
  destruct (try_full_hash fs (path f)); reflexivity.
Qed.

Lemma init_valid fs p : valid fs (init p).
Proof. repeat split; left; reflexivity. Qed.

Lemma size_valid fs f : valid fs f -> valid fs (after (size fs f)).
Proof.
  intros (Hs & Hq & Hf). unfold size, after, valid.
  destruct (_size f) eqn:E; simpl; [now rewrite E |].
  unfold size_of.
  destruct (fs_getsize fs (path f)) eqn:G; simpl; rewrite ?G;
    (split; [right; reflexivity | split; assumption]).
Qed.

Lemma full_hash_valid fs f : valid fs f -> valid fs (after (full_hash fs f)).
Proof.
  intros (Hs & Hq & Hf). unfold full_hash, after, valid.
  destruct (_full_hash f) eqn:E; simpl; [now rewrite E |].
  unfold full_hash_of.
  destruct (try_full_hash fs (path f)) eqn:G; simpl; rewrite ?G;
    (split; [assumption | split; [assumption | right; reflexivity]]).
Qed.

Lemma size_after_full_hash fs f :
  valid fs f -> value (size fs (after (full_hash fs f))) = size_of fs (path f).
Proof.
  intros Hv. rewrite size_value by now apply full_hash_valid.
  now rewrite full_hash_path.
Qed.

End FileInfoFacts.

Section Accessors.
Import FileInfo FileInfoFacts.

Lemma size_settled fs fs' f : settled size fs fs' f.
Proof.
  unfold settled, size, after, value.
  destruct (_size f) eqn:E; simpl; [now rewrite E |].
  destruct (fs_getsize fs (path f)); reflexivity.
Qed.

Lemma quick_hash_settled fs fs' f : settled quick_hash fs fs' f.
Proof.
  unfold settled, quick_hash, after, value.
  destruct (_quick_hash f) eqn:E; simpl; [now rewrite E |].
  destruct (try_quick_hash fs (path f)); reflexivity.
Qed.

Lemma full_hash_settled fs fs' f : settled full_hash fs fs' f.
Proof.
  unfold settled, full_hash, after, value.
  destruct (_full_hash f) eqn:E; simpl; [now rewrite E |].
  destruct (try_full_hash fs (path f)); reflexivity.
Qed.

Lemma size_calls fs f : (fs_calls (size fs f) <= 1)%nat.
Proof.
  unfold fs_calls, size, trace. destruct (_size f); simpl; [lia |].
  destruct (fs_getsize fs (path f)); simpl; lia.
Qed.

Lemma quick_hash_calls fs f : (fs_calls (quick_hash fs f) <= 1)%nat.
Proof.
  unfold fs_calls, quick_hash, trace. destruct (_quick_hash f); simpl; [lia |].
  destruct (try_quick_hash fs (path f)); simpl; lia.
Qed.

Lemma full_hash_calls fs f : (fs_calls (full_hash fs f) <= 1)%nat.
Proof.
  unfold fs_calls, full_hash, trace. destruct (_full_hash f); simpl; [lia |].
  destruct (try_full_hash fs (path f)); simpl; lia.
Qed.

(** C8.  Each of [size], [quick_hash] and [full_hash] is a total
    function (no exception leaves it), makes at most one filesystem call,
    and leaves a record on which every later access returns the same
    value without any call, even if the filesystem has changed to [fs'];
    when the call fails on an empty cache, the value returned and cached
    is the sentinel: 0 for the size, the empty string for a digest. *)
Theorem accessors_compute_once_and_cache_sentinels
        (fs fs' : FileSystem) (f : FileInfo.t) :
  ((fs_calls (size fs f) <= 1)%nat
   /\ settled size fs fs' f
   /\ (_size f = None -> fs_getsize fs (path f) = None ->
       value (size fs f) = 0 /\ _size (after (size fs f)) = Some 0))
  /\ ((fs_calls (quick_hash fs f) <= 1)%nat
      /\ settled quick_hash fs fs' f
      /\ (_quick_hash f = None -> fs_open fs (path f) = None ->
          value (quick_hash fs f) = EmptyString
          /\ _quick_hash (after (quick_hash fs f)) = Some EmptyString))
  /\ ((fs_calls (full_hash fs f) <= 1)%nat
      /\ settled full_hash fs fs' f
      /\ (_full_hash f = None -> fs_open fs (path f) = None ->
          value (full_hash fs f) = EmptyString
          /\ _full_hash (after (full_hash fs f)) = Some EmptyString)).
Proof.
  split; [| split].
  - split; [apply size_calls | split; [apply size_settled |]].
    intros Hc Hfail. unfold size, value, after. rewrite Hc, Hfail. now split.
  - split; [apply quick_hash_calls | split; [apply quick_hash_settled |]].
    intros Hc Hfail. unfold quick_hash, value, after.
    rewrite Hc, (try_quick_hash_unreadable _ _ Hfail). now split.
  - split; [apply full_hash_calls | split; [apply full_hash_settled |]].
    intros Hc Hfail. unfold full_hash, value, after.
    rewrite Hc, (try_full_hash_unreadable _ _ Hfail). now split.
Qed.

(** A file that cannot be opened at first and can be read later: the
    sentinel stays. *)
Lemma accessors_compute_once_witness :
  value (full_hash Scenario.unreadable_pair (init "/d/a.txt")) = EmptyString
  /\ full_hash Scenario.abx
       (after (full_hash Scenario.unreadable_pair (init "/d/a.txt")))
     = (EmptyString,
        after (full_hash Scenario.unreadable_pair (init "/d/a.txt")), []).
Proof.
  destruct (accessors_compute_once_and_cache_sentinels
              Scenario.unreadable_pair Scenario.abx (init "/d/a.txt"))
    as (_ & _ & (_ & Hsettled & Hsentinel)).
  destruct (Hsentinel eq_refl eq_refl) as (Hv & _).
  split; [exact Hv |].
  unfold settled in Hsettled. rewrite Hv in Hsettled. exact Hsettled.
Defined.

(** Up to [MAX_QUICK_READ_SIZE] bytes the two digests of a file are
    digests of the same bytes. *)
Lemma quick_hash_of_small_file fs p content :
  fs_open fs p = Some content ->
  len content <= MAX_QUICK_READ_SIZE ->
  quick_hash_of fs p = full_hash_of fs p.
Proof.
  intros Hopen Hlen. unfold quick_hash_of, full_hash_of.
  rewrite (try_quick_hash_readable _ _ _ Hopen), (try_full_hash_readable _ _ _ Hopen).
  rewrite firstn_all2; [reflexivity |]. unfold len in Hlen. lia.
Qed.

(** C9.  On a file that can be read and holds at most 1 MiB
    (1024 * 1024 bytes), [quick_hash] returns what [full_hash] returns;
    so two such files with equal full digests have equal quick digests,
    and a pre-filter on the quick digest would not separate them. *)
Theorem quick_hash_is_full_hash_up_to_1MiB
        (fs : FileSystem) (f : FileInfo.t) (content : list byte) :
  valid fs f ->
  fs_open fs (path f) = Some content ->
  len content <= 1024 * 1024 ->
  value (quick_hash fs f) = value (full_hash fs f)
  /\ forall f' content',
       valid fs f' ->
       fs_open fs (path f') = Some content' ->
       len content' <= 1024 * 1024 ->
       value (full_hash fs f) = value (full_hash fs f') ->
       value (quick_hash fs f) = value (quick_hash fs f').
Proof.
  intros Hvalid Hopen Hlen.
  assert (Hone : forall g c, valid fs g -> fs_open fs (path g) = Some c ->
                             len c <= 1024 * 1024 ->
                             value (quick_hash fs g) = value (full_hash fs g)).
  { intros g c Hg Ho Hl.
    rewrite quick_hash_value, full_hash_value by assumption.
    now apply quick_hash_of_small_file with c. }
  split; [now apply Hone with content |].
  intros f' content' Hvalid' Hopen' Hlen' Hfull.
  rewrite (Hone f content), (Hone f' content') by assumption. exact Hfull.
Qed.

Lemma quick_hash_is_full_hash_witness :
  value (quick_hash Scenario.abx (init "/d/a.txt"))
  = value (full_hash Scenario.abx (init "/d/a.txt")).
Proof.
  refine (proj1 (quick_hash_is_full_hash_up_to_1MiB
                   Scenario.abx (init "/d/a.txt") (Scenario.bytes_of_string "X")
                   _ _ _)).
  - apply init_valid.
  - reflexivity.
  - vm_compute. discriminate.
Defined.

End Accessors.

(** ** [defaultdict(list)]: what a bucket holds *)

Section DictFacts.
Context {K V : Type}.
Variable eqb : K -> K -> bool.
Hypothesis eqb_true : forall a b, eqb a b = true -> a = b.

Lemma dict_append_satisfy (P : K -> V -> Prop) k v d :
  entries_satisfy P d -> P k v -> entries_satisfy P (dict_append eqb k v d).
Proof.
  intros Hd Hkv. induction d as [| [k' vs'] d IH]; simpl.
  - intros k0 vs0 v0 [E | []] Hin. inversion E; subst.
    destruct Hin as [-> | []]. exact Hkv.
  - assert (Hd' : entries_satisfy P d)
      by (intros k0 vs0 v0 H1 H2; apply (Hd k0 vs0 v0); [now right | exact H2]).
    destruct (eqb k k') eqn:E.
    + apply eqb_true in E. subst k'.
      intros k0 vs0 v0 [E | Hin] Hv.
      * inversion E; subst. apply in_app_or in Hv.
        destruct Hv as [Hv | [-> | []]]; [| exact Hkv].
        apply (Hd k0 vs' v0); [now left | exact Hv].
      * apply (Hd k0 vs0 v0); [now right | exact Hv].
    + intros k0 vs0 v0 [E' | Hin] Hv.
      * inversion E'; subst. apply (Hd k0 vs0 v0); [now left | exact Hv].
      * apply (IH Hd' k0 vs0 v0 Hin Hv).
Qed.

Lemma dict_collect_satisfy {A : Type} (P : K -> V -> Prop)
      (kv : A -> K * V) (xs : list A) :
  forall d,
    entries_satisfy P d ->
    (forall x, In x xs -> P (fst (kv x)) (snd (kv x))) ->
    entries_satisfy P (dict_collect eqb kv xs d).
Proof.
  induction xs as [| x xs IH]; intros d Hd Hxs; simpl; [exact Hd |].
  apply IH.
  - apply dict_append_satisfy; [exact Hd | apply Hxs; now left].
  - intros y Hy. apply Hxs. now right.
Qed.

(** The buckets together hold what was appended, nothing twice. *)
Lemma dict_append_values k v (d : @dict K V) :
  Permutation (List.concat (map snd (dict_append eqb k v d)))
              (List.concat (map snd d) ++ [v]).
Proof.
  induction d as [| [k' vs'] d IH]; simpl; [reflexivity |].
  destruct (eqb k k'); simpl.
  - rewrite <- !app_assoc. apply Permutation_app_head.
    apply Permutation_app_comm.
  - rewrite <- app_assoc. apply Permutation_app_head. exact IH.
Qed.

Lemma dict_collect_values {A : Type} (kv : A -> K * V) (xs : list A) :
  forall d,
    Permutation (List.concat (map snd (dict_collect eqb kv xs d)))
                (List.concat (map snd d) ++ map (fun x => snd (kv x)) xs).
Proof.
  induction xs as [| x xs IH]; intros d; simpl.
  - now rewrite app_nil_r.
  - rewrite IH, dict_append_values, <- app_assoc. reflexivity.
Qed.

End DictFacts.

(** ** The invariant of a [DuplicateGroup] *)

Section GroupFacts.
Import FileInfoFacts.
Context {S : Type}.
Variable fs : FileSystem.

Lemma string_eqb_true (a b : string) : String.eqb a b = true -> a = b.
Proof. apply String.eqb_eq. Qed.

(** A name bucket holds files of the directory listing, all with the
    bucket's key as normalized name. *)
Lemma name_dict_of_entries (files : list FileInfo.t) :
  entries_satisfy
    (fun key f => In f files
                  /\ get_normalized_name (OsPath.name (FileInfo.path f)) = key)
    (name_dict_of files).
Proof.
  apply dict_collect_satisfy.
  - exact string_eqb_true.
  - intros k vs v [].
  - intros f Hf. simpl. now split.
Qed.

(** A digest bucket holds the records of the name bucket after
    [full_hash], all with the bucket's key as digest. *)
Lemma hash_dict_of_entries (similar_files : list FileInfo.t) :
  entries_satisfy
    (fun h f' => exists f, In f similar_files
                           /\ f' = FileInfo.after (FileInfo.full_hash fs f)
                           /\ FileInfo.value (FileInfo.full_hash fs f) = h)
    (hash_dict_of fs similar_files).
Proof.
  apply dict_collect_satisfy.
  - exact string_eqb_true.
  - intros k vs v [].
  - intros f Hf. simpl. exists f. now repeat split.
Qed.

(** Where a group comes from. *)
Lemma in_find_duplicates by_size by_dir (cb : option (callback S)) g :
  In g (find_duplicates fs by_size by_dir cb) ->
  exists files key similar_files h duplicates,
    In (directory g, files) by_dir
    /\ In (key, similar_files) (name_dict_of files)
    /\ In (h, duplicates) (hash_dict_of fs similar_files)
    /\ 1 < len duplicates
    /\ paths g = map FileInfo.path duplicates
    /\ size g = first_size fs duplicates.
Proof.
  unfold find_duplicates. intros Hg.
  apply in_flat_map in Hg. destruct Hg as ([d files] & Hd & Hg).
  unfold groups_of_directory in Hg. simpl in Hg.
  apply in_flat_map in Hg. destruct Hg as ([key similar_files] & Hkey & Hg).
  unfold groups_of_name_bucket in Hg. simpl in Hg.
  destruct (1 <? len similar_files); [| contradiction].
  apply in_flat_map in Hg. destruct Hg as ([h duplicates] & Hh & Hg).
  unfold groups_of_hash_bucket in Hg. simpl in Hg.
  destruct (1 <? len duplicates) eqn:Hlen; [| contradiction].
  destruct Hg as [<- | []]. simpl.
  exists files, key, similar_files, h, duplicates.
  apply Z.ltb_lt in Hlen. now repeat split.
Qed.

(** The members of a group are files of the group's directory bucket
    that share a normalized name and a [full_hash] value. *)
Lemma group_members by_size by_dir (cb : option (callback S)) g :
  In g (find_duplicates fs by_size by_dir cb) ->
  exists files key h,
    In (directory g, files) by_dir
    /\ forall p, In p (paths g) ->
         exists f, In f files
                   /\ FileInfo.path f = p
                   /\ get_normalized_name (OsPath.name (FileInfo.path f)) = key
                   /\ FileInfo.value (FileInfo.full_hash fs f) = h.
Proof.
  intros Hg. apply in_find_duplicates in Hg.
  destruct Hg as (files & key & similar & h & dups & Hd & Hk & Hh & _ & Hp & _).
  exists files, key, h. split; [exact Hd |].
  intros p Hin. rewrite Hp in Hin. apply in_map_iff in Hin.
  destruct Hin as (f' & <- & Hf').
  destruct (hash_dict_of_entries similar h dups f' Hh Hf') as (f & Hf & -> & Hv).
  destruct (name_dict_of_entries files key similar f Hk Hf) as (Hfiles & Hname).
  exists f. rewrite full_hash_path. now repeat split.
Qed.

End GroupFacts.

(** ** [scan_directory]: the catalogue and the progress values *)

Lemma fold_left_invariant {A B : Type} (f : A -> B -> A) (P : A -> Prop)
      (l : list B) :
  forall a,
    P a -> (forall a x, In x l -> P a -> P (f a x)) -> P (fold_left f l a).
Proof.
  induction l as [| x l IH]; intros a Ha Hstep; simpl; [exact Ha |].
  apply IH.
  - apply Hstep; [now left | exact Ha].
  - intros a' y Hy. apply Hstep. now right.
Qed.

Lemma fold_left_related {A A' B : Type} (f : A -> B -> A) (f' : A' -> B -> A')
      (R : A -> A' -> Prop) (l : list B) :
  forall a a',
    R a a' -> (forall a a' x, R a a' -> R (f a x) (f' a' x)) ->
    R (fold_left f l a) (fold_left f' l a').
Proof.
  induction l as [| x l IH]; intros a a' Ha Hstep; simpl; [exact Ha |].
  apply IH; [apply Hstep; exact Ha | exact Hstep].
Qed.

Section ScanFacts.
Import FileInfoFacts.
Variable fs : FileSystem.

Lemma scan_file_entries {S : Type} top cb total chunk root names name
      (st : scan_state S) :
  In (root, names) (fs_walk fs top) -> In name names ->
  entries_satisfy (catalogued fs top) (files_by_directory st) ->
  entries_satisfy (catalogued fs top)
                  (files_by_directory (scan_file fs cb total chunk root st name)).
Proof.
  intros Hroot Hname Hst. unfold scan_file. simpl.
  destruct (0 <? _); [| exact Hst].
  apply dict_append_satisfy; [exact string_eqb_true | exact Hst |].
  split.
  - apply size_valid, init_valid.
  - exists names, name. rewrite size_path. now repeat split.
Qed.

(** Every record of the catalogue sits under the directory that lists
    its file, with caches that agree with the snapshot. *)
Lemma scan_directory_entries {S : Type} top (cb : option (callback S)) s :
  entries_satisfy (catalogued fs top)
                  (files_by_directory (scan_directory fs top cb s)).
Proof.
  unfold scan_directory.
  destruct (_ =? 0); [intros k vs v [] |].
  apply fold_left_invariant; [intros k vs v [] |].
  intros st [root names] Hroot Hst. unfold scan_root. simpl.
  apply fold_left_invariant; [exact Hst |].
  intros st' name Hname Hst'. now apply scan_file_entries with (names := names).
Qed.

Lemma scan_directory_same_catalogue {S S' : Type} top
      (cb : option (callback S)) (cb' : option (callback S')) s s' :
  same_catalogue (scan_directory fs top cb s) (scan_directory fs top cb' s').
Proof.
  unfold scan_directory.
  destruct (_ =? 0); [now repeat split |].
  apply fold_left_related; [now repeat split |].
  intros st st' [root names] Hst. unfold scan_root. simpl.
  apply fold_left_related; [exact Hst |].
  intros a a' name (H1 & H2 & H3). unfold scan_file, same_catalogue. simpl.
  rewrite H1, H2, H3. now repeat split.
Qed.

End ScanFacts.

(** ** Groups are pairwise disjoint *)

Section Subperm.
Context {A : Type}.
Implicit Types l : list A.

Lemma subperm_nil l : subperm [] l.
Proof. exists l. reflexivity. Qed.

Lemma subperm_refl l : subperm l l.
Proof. exists []. now rewrite app_nil_r. Qed.

Lemma subperm_app l1 l2 l3 l4 :
  subperm l1 l2 -> subperm l3 l4 -> subperm (l1 ++ l3) (l2 ++ l4).
Proof.
  intros [r1 H1] [r2 H2]. exists (r1 ++ r2).
  rewrite <- H1, <- H2, <- !app_assoc. apply Permutation_app_head.
  rewrite !app_assoc. apply Permutation_app_tail. apply Permutation_app_comm.
Qed.

Lemma subperm_perm l1 l2 l3 :
  subperm l1 l2 -> Permutation l2 l3 -> subperm l1 l3.
Proof. intros [r H] H23. exists r. now rewrite H. Qed.

Lemma subperm_trans l1 l2 l3 : subperm l1 l2 -> subperm l2 l3 -> subperm l1 l3.
Proof.
  intros [r1 H1] [r2 H2]. exists (r1 ++ r2).
  now rewrite app_assoc, H1.
Qed.

Lemma subperm_NoDup l1 l2 : subperm l1 l2 -> NoDup l2 -> NoDup l1.
Proof.
  intros [r H] Hnd. apply (Permutation_NoDup (Permutation_sym H)) in Hnd.
  now apply NoDup_app_remove_r in Hnd.
Qed.

Lemma subperm_flat_map {B : Type} (f g : B -> list A) (xs : list B) :
  (forall x, In x xs -> subperm (f x) (g x)) ->
  subperm (flat_map f xs) (flat_map g xs).
Proof.
  induction xs as [| x xs IH]; intros H; simpl; [apply subperm_refl |].
  apply subperm_app; [apply H; now left |].
  apply IH. intros y Hy. apply H. now right.
Qed.

End Subperm.

Lemma flat_map_flat_map {A B C : Type} (f : A -> list B) (g : B -> list C)
      (l : list A) :
  flat_map g (flat_map f l) = flat_map (fun x => flat_map g (f x)) l.
Proof.
  induction l as [| x l IH]; simpl; [reflexivity |].
  now rewrite flat_map_app, IH.
Qed.

Lemma map_concat_flat_map {A B C : Type} (f : B -> C) (d : list (A * list B)) :
  map f (List.concat (map snd d)) = flat_map (fun e => map f (snd e)) d.
Proof.
  induction d as [| e d IH]; simpl; [reflexivity |].
  now rewrite map_app, IH.
Qed.

Section Disjoint.
Import FileInfoFacts.
Context {S : Type}.
Variable fs : FileSystem.

Lemma hash_bucket_paths d (bucket : string * list FileInfo.t) :
  subperm (member_paths (groups_of_hash_bucket fs d bucket))
          (map FileInfo.path (snd bucket)).
Proof.
  unfold groups_of_hash_bucket, member_paths.
  destruct (1 <? len (snd bucket)); simpl.
  - rewrite app_nil_r. apply subperm_refl.
  - apply subperm_nil.
Qed.

Lemma hash_dict_paths (similar_files : list FileInfo.t) :
  Permutation
    (map FileInfo.path (List.concat (map snd (hash_dict_of fs similar_files))))
    (map FileInfo.path similar_files).
Proof.
  unfold hash_dict_of. rewrite dict_collect_values. simpl.
  rewrite map_map. apply Permutation_refl'.
  apply map_ext. intros f. apply full_hash_path.
Qed.

Lemma name_bucket_paths d (bucket : string * list FileInfo.t) :
  subperm (member_paths (groups_of_name_bucket fs d bucket))
          (map FileInfo.path (snd bucket)).
Proof.
  unfold groups_of_name_bucket, member_paths.
  destruct (1 <? len (snd bucket)); [| apply subperm_nil].
  rewrite flat_map_flat_map.
  apply subperm_perm with
    (l2 := flat_map (fun e => map FileInfo.path (snd e)) (hash_dict_of fs (snd bucket))).
  - apply subperm_flat_map. intros e _. apply hash_bucket_paths.
  - rewrite <- map_concat_flat_map. apply hash_dict_paths.
Qed.

Lemma directory_paths (entry : string * list FileInfo.t) :
  subperm (member_paths (groups_of_directory fs entry))
          (map FileInfo.path (snd entry)).
Proof.
  unfold groups_of_directory, member_paths.
  rewrite flat_map_flat_map.
  apply subperm_perm with
    (l2 := flat_map (fun e => map FileInfo.path (snd e)) (name_dict_of (snd entry))).
  - apply subperm_flat_map. intros e _. apply name_bucket_paths.
  - rewrite <- map_concat_flat_map. unfold name_dict_of.
    apply Permutation_map. rewrite dict_collect_values. simpl.
    now rewrite map_id.
Qed.

Lemma find_duplicates_paths by_size by_dir (cb : option (callback S)) :
  subperm (member_paths (find_duplicates fs by_size by_dir cb))
          (catalogue_paths by_dir).
Proof.
  unfold find_duplicates, member_paths, catalogue_paths.
  rewrite flat_map_flat_map, map_concat_flat_map.
  apply subperm_flat_map. intros e _. apply directory_paths.
Qed.

Lemma NoDup_app_disjoint {A : Type} (l1 l2 : list A) :
  NoDup (l1 ++ l2) -> forall a, In a l1 -> ~ In a l2.
Proof.
  induction l1 as [| x l1 IH]; intros Hnd a Ha Hb; [destruct Ha |].
  simpl in Hnd. apply NoDup_cons_iff in Hnd. destruct Hnd as (Hx & Hnd).
  destruct Ha as [-> | Ha].
  - apply Hx. apply in_or_app. now right.
  - exact (IH Hnd a Ha Hb).
Qed.

Lemma NoDup_flat_map_index {A B : Type} (f : A -> list B) (l : list A) :
  NoDup (flat_map f l) ->
  forall i j x y b,
    nth_error l i = Some x -> nth_error l j = Some y ->
    In b (f x) -> In b (f y) -> i = j.
Proof.
  induction l as [| z l IH]; intros Hnd i j x y b Hi Hj Hx Hy.
  - destruct i; discriminate.
  - simpl in Hnd.
    assert (Hrest : forall k w, nth_error l k = Some w -> In b (f w) ->
                                In b (flat_map f l)).
    { intros k w Hk Hw. apply in_flat_map. exists w.
      split; [now apply nth_error_In with k | exact Hw]. }
    destruct i as [| i], j as [| j]; simpl in Hi, Hj.
    + reflexivity.
    + inversion Hi; subst z.
      exfalso. exact (NoDup_app_disjoint _ _ Hnd b Hx (Hrest j y Hj Hy)).
    + inversion Hj; subst z.
      exfalso. exact (NoDup_app_disjoint _ _ Hnd b Hy (Hrest i x Hi Hx)).
    + f_equal. apply NoDup_app_remove_l in Hnd.
      exact (IH Hnd i j x y b Hi Hj Hx Hy).
Qed.

Lemma NoDup_flat_map_elem {A B : Type} (f : A -> list B) (l : list A) :
  NoDup (flat_map f l) -> forall x, In x l -> NoDup (f x).
Proof.
  induction l as [| z l IH]; intros Hnd x Hx; [destruct Hx |].
  simpl in Hnd. destruct Hx as [-> | Hx].
  - now apply NoDup_app_remove_r in Hnd.
  - apply NoDup_app_remove_l in Hnd. now apply IH.
Qed.

(** The groups that [find_duplicates] makes of a catalogue without
    repeated paths share no path. *)
Lemma find_duplicates_groups_disjoint
      by_size by_dir (cb : option (callback S)) :
  NoDup (catalogue_paths by_dir) ->
  NoDup (member_paths (find_duplicates fs by_size by_dir cb)).
Proof.
  intros Hnd. eapply subperm_NoDup; [apply find_duplicates_paths | exact Hnd].
Qed.

Lemma catalogue_paths_append k v (d : files_by_directory_t) :
  Permutation (catalogue_paths (dict_append String.eqb k v d))
              (catalogue_paths d ++ [FileInfo.path v]).
Proof.
  unfold catalogue_paths. now rewrite dict_append_values, map_app.
Qed.

Lemma scan_file_paths (cb : option (callback S)) total chunk root st name :
  subperm
    (catalogue_paths (files_by_directory (scan_file fs cb total chunk root st name)))
    (catalogue_paths (files_by_directory st) ++ [OsPath.join root name]).
Proof.
  unfold scan_file. cbn [files_by_directory].
  destruct (0 <? _).
  - exists []. rewrite app_nil_r, catalogue_paths_append.
    now rewrite size_path.
  - exists [OsPath.join root name]. reflexivity.
Qed.

Lemma scan_names_paths (cb : option (callback S)) total chunk root names :
  forall st,
    subperm
      (catalogue_paths
         (files_by_directory
            (fold_left (scan_file fs cb total chunk root) names st)))
      (catalogue_paths (files_by_directory st) ++ map (OsPath.join root) names).
Proof.
  induction names as [| name names IH]; intros st; simpl.
  - rewrite app_nil_r. apply subperm_refl.
  - eapply subperm_trans; [apply IH |].
    change (OsPath.join root name :: map (OsPath.join root) names)
      with ([OsPath.join root name] ++ map (OsPath.join root) names).
    rewrite app_assoc.
    apply subperm_app; [apply scan_file_paths | apply subperm_refl].
Qed.

Lemma scan_walk_paths (cb : option (callback S)) total chunk walk :
  forall st,
    subperm
      (catalogue_paths
         (files_by_directory (fold_left (scan_root fs cb total chunk) walk st)))
      (catalogue_paths (files_by_directory st) ++ walk_paths walk).
Proof.
  induction walk as [| [root names] walk IH]; intros st; simpl.
  - rewrite app_nil_r. apply subperm_refl.
  - eapply subperm_trans; [apply IH |].
    rewrite app_assoc.
    apply subperm_app; [apply scan_names_paths | apply subperm_refl].
Qed.

(** The catalogue holds no path that the walk does not list, and none
    more often than the walk lists it. *)
Lemma scan_directory_paths top (cb : option (callback S)) s :
  subperm (catalogue_paths (files_by_directory (scan_directory fs top cb s)))
          (walk_paths (fs_walk fs top)).
Proof.
  unfold scan_directory. destruct (_ =? 0); [apply subperm_nil |].
  apply (scan_walk_paths cb _ _ (fs_walk fs top)).
Qed.

(** C10.  In the result of a scan of a tree whose walk lists every
    path once, no group lists a path twice and no path is a member of
    two groups: the member lists of all groups, one after the other,
    hold no path twice. *)
Theorem each_path_in_at_most_one_group
        top (cb : option (callback S)) s groups :
  NoDup (walk_paths (fs_walk fs top)) ->
  fst (duplicate_file_finder fs top cb s) = Ok groups ->
  NoDup (member_paths groups)
  /\ (forall g, In g groups -> NoDup (paths g))
  /\ (forall i j g1 g2 p,
        nth_error groups i = Some g1 -> nth_error groups j = Some g2 ->
        In p (paths g1) -> In p (paths g2) -> i = j).
Proof.
  intros Hnd Hrun.
  assert (Hall : NoDup (member_paths groups)).
  { unfold duplicate_file_finder in Hrun. cbn [fst] in Hrun.
    injection Hrun as <-. apply find_duplicates_groups_disjoint.
    eapply subperm_NoDup; [apply scan_directory_paths | exact Hnd]. }
  split; [exact Hall | split].
  - apply NoDup_flat_map_elem. exact Hall.
  - apply NoDup_flat_map_index. exact Hall.
Qed.

End Disjoint.

(** ** Two copies in one directory *)

Section Pair.
Import FileInfoFacts.
Context {S : Type}.
Variable fs : FileSystem.

Lemma len_two {A : Type} (a b : A) : (1 <? len [a; b]) = true.
Proof. reflexivity. Qed.

(** Two records with the same normalized name and the same digest,
    alone in a directory, form one group, in listing order. *)
Lemma pair_grouped by_size (cb : option (callback S)) d f1 f2 :
  FileInfo.valid fs f1 -> FileInfo.valid fs f2 ->
  get_normalized_name (OsPath.name (FileInfo.path f1))
  = get_normalized_name (OsPath.name (FileInfo.path f2)) ->
  FileInfo.full_hash_of fs (FileInfo.path f1)
  = FileInfo.full_hash_of fs (FileInfo.path f2) ->
  find_duplicates fs by_size [(d, [f1; f2])] cb
  = [ {| paths := [FileInfo.path f1; FileInfo.path f2];
         size := FileInfo.size_of fs (FileInfo.path f1);
         directory := d |} ].
Proof.
  intros V1 V2 Hname Hhash.
  assert (Hnd : name_dict_of [f1; f2]
                = [(get_normalized_name (OsPath.name (FileInfo.path f1)), [f1; f2])]).
  { unfold name_dict_of, dict_collect. cbn [fold_left fst snd dict_append].
    rewrite <- Hname, String.eqb_refl. reflexivity. }
  assert (Hhd : hash_dict_of fs [f1; f2]
                = [(FileInfo.full_hash_of fs (FileInfo.path f1),
                    [FileInfo.after (FileInfo.full_hash fs f1);
                     FileInfo.after (FileInfo.full_hash fs f2)])]).
  { unfold hash_dict_of, dict_collect. cbn [fold_left fst snd dict_append].
    rewrite !full_hash_value by assumption.
    rewrite <- Hhash, String.eqb_refl. reflexivity. }
  unfold find_duplicates. cbn [flat_map]. rewrite app_nil_r.
  unfold groups_of_directory. cbn [fst snd]. rewrite Hnd.
  cbn [flat_map]. rewrite app_nil_r.
  unfold groups_of_name_bucket. cbn [snd]. rewrite len_two, Hhd.
  cbn [flat_map]. rewrite app_nil_r.
  unfold groups_of_hash_bucket. cbn [snd]. rewrite len_two.
  cbn [map first_size]. rewrite !full_hash_path.
  rewrite size_after_full_hash by assumption. reflexivity.
Qed.



End Pair.

(** ** Digest buckets *)

Lemma catalogue_is_valid fs top : catalogue_valid fs (catalogue fs top).
Proof.
  intros k vs v Hk Hv.
  exact (proj1 (scan_directory_entries fs top None tt k vs v Hk Hv)).
Qed.

Section Digests.
Import FileInfoFacts.
Context {S : Type}.
Variable fs : FileSystem.

(** All readable members of a group have the same MD5 digest. *)
Lemma group_members_share_digest by_size by_dir (cb : option (callback S))
      g p1 p2 c1 c2 :
  catalogue_valid fs by_dir ->
  In g (find_duplicates fs by_size by_dir cb) ->
  In p1 (paths g) -> In p2 (paths g) ->
  fs_open fs p1 = Some c1 -> fs_open fs p2 = Some c2 ->
  MD5.hexdigest c1 = MD5.hexdigest c2.
Proof.
  intros Hvalid Hg Hp1 Hp2 H1 H2.
  destruct (group_members fs by_size by_dir cb g Hg) as (files & key & h & Hd & Hm).
  destruct (Hm p1 Hp1) as (f1 & Hf1 & <- & _ & Hh1).
  destruct (Hm p2 Hp2) as (f2 & Hf2 & <- & _ & Hh2).
  rewrite full_hash_value in Hh1 by exact (Hvalid _ _ _ Hd Hf1).
  rewrite full_hash_value in Hh2 by exact (Hvalid _ _ _ Hd Hf2).
  unfold FileInfo.full_hash_of in Hh1, Hh2.
  rewrite (try_full_hash_readable _ _ _ H1) in Hh1.
  rewrite (try_full_hash_readable _ _ _ H2) in Hh2.
  congruence.
Qed.

(** C2, amended.  Two readable files whose full-content MD5 digests
    differ are never members of the same group, whether or not their
    names normalize to the same key. *)
Theorem different_digests_never_grouped
        by_size by_dir (cb : option (callback S)) p1 p2 c1 c2 :
  catalogue_valid fs by_dir ->
  fs_open fs p1 = Some c1 -> fs_open fs p2 = Some c2 ->
  MD5.hexdigest c1 <> MD5.hexdigest c2 ->
  ~ exists g, In g (find_duplicates fs by_size by_dir cb)
              /\ In p1 (paths g) /\ In p2 (paths g).
Proof.
  intros Hvalid H1 H2 Hdiff (g & Hg & Hp1 & Hp2).
  apply Hdiff.
  exact (group_members_share_digest by_size by_dir cb g p1 p2 c1 c2
           Hvalid Hg Hp1 Hp2 H1 H2).
Qed.

End Digests.

Lemma different_digests_witness :
  ~ exists g,
      In g (find_duplicates (S := unit) Scenario.different_content []
              (catalogue Scenario.different_content "/d") None)
      /\ In "/d/a.txt" (paths g) /\ In "/d/a (1).txt" (paths g).
Proof.
  apply (different_digests_never_grouped Scenario.different_content [] 
           (catalogue Scenario.different_content "/d") None
           "/d/a.txt" "/d/a (1).txt"
           (Scenario.bytes_of_string "X") (Scenario.bytes_of_string "Y")).
  - apply catalogue_is_valid.
  - reflexivity.
  - reflexivity.
  - vm_compute. discriminate.
Defined.

(** The two 128-byte messages differ and have one MD5 digest. *)
Example md5_collision :
  Scenario.collision_1 <> Scenario.collision_2
  /\ MD5.hexdigest Scenario.collision_1 = "79054025255fb1a26e4bc422aef54eb4"
  /\ MD5.hexdigest Scenario.collision_2 = "79054025255fb1a26e4bc422aef54eb4".
Proof.
  split; [vm_compute; discriminate | split; vm_compute; reflexivity].
Qed.

(** C2 as stated fails: the two files of [/d] differ, both are read
    without error, their names normalize to the same key, and the one
    group that [find_duplicates] returns has both as members, because
    MD5 gives them the same digest. *)
Lemma md5_collision_is_grouped :
  exists c1 c2 g,
    fs_open Scenario.colliding_pair "/d/a.bin" = Some c1
    /\ fs_open Scenario.colliding_pair "/d/a (1).bin" = Some c2
    /\ c1 <> c2
    /\ get_normalized_name "a.bin" = get_normalized_name "a (1).bin"
    /\ find_duplicates (S := unit) Scenario.colliding_pair []
         (catalogue Scenario.colliding_pair "/d") None = [g]
    /\ In "/d/a.bin" (paths g) /\ In "/d/a (1).bin" (paths g).
Proof.
  exists Scenario.collision_1, Scenario.collision_2,
    {| paths := ["/d/a.bin"; "/d/a (1).bin"]; size := 128; directory := "/d" |}.
  split; [reflexivity | split; [reflexivity | split]].
  - exact (proj1 md5_collision).
  - split; [vm_compute; reflexivity | split; [vm_compute; reflexivity |]].
    split; [left; reflexivity | right; left; reflexivity].
Qed.

(** ** The sentinel digest as a bucket key *)

(** Two files of one directory whose names normalize alike and that
    both fail to open are grouped, whatever their sizes. *)
Lemma unreadable_files_are_grouped {S : Type} fs by_size
      (cb : option (callback S)) d f1 f2 :
  FileInfo.valid fs f1 -> FileInfo.valid fs f2 ->
  get_normalized_name (OsPath.name (FileInfo.path f1))
  = get_normalized_name (OsPath.name (FileInfo.path f2)) ->
  fs_open fs (FileInfo.path f1) = None ->
  fs_open fs (FileInfo.path f2) = None ->
  find_duplicates fs by_size [(d, [f1; f2])] cb
  = [ {| paths := [FileInfo.path f1; FileInfo.path f2];
         size := FileInfo.size_of fs (FileInfo.path f1);
         directory := d |} ].
Proof.
  intros V1 V2 Hname H1 H2. apply pair_grouped; try assumption.
  unfold FileInfo.full_hash_of.
  now rewrite (FileInfoFacts.try_full_hash_unreadable _ _ H1),
              (FileInfoFacts.try_full_hash_unreadable _ _ H2).
Qed.

(** C3 fails on this input.  Neither file can be opened, so both get
    the sentinel [''] as digest and land in one bucket; the group
    records the size of its first member, 3, and its second member has
    size 5. *)
Theorem unreadable_files_of_different_size_are_grouped :
  fs_getsize Scenario.unreadable_pair "/d/a.txt" = Some 3
  /\ fs_getsize Scenario.unreadable_pair "/d/a (1).txt" = Some 5
  /\ FileInfo.full_hash_of Scenario.unreadable_pair "/d/a.txt" = EmptyString
  /\ FileInfo.full_hash_of Scenario.unreadable_pair "/d/a (1).txt" = EmptyString
  /\ groups_found Scenario.unreadable_pair "/d"
     = Ok [ {| paths := ["/d/a.txt"; "/d/a (1).txt"]; size := 3;
               directory := "/d" |} ].
Proof. repeat split. Qed.

Lemma each_path_in_at_most_one_group_witness :
  NoDup (member_paths
           [ {| paths := ["/d/x/a.txt"; "/d/x/a (1).txt"]; size := 1;
                directory := "/d/x" |};
             {| paths := ["/d/y/a.txt"; "/d/y/a (1).txt"]; size := 1;
                directory := "/d/y" |} ]).
Proof.
  refine (proj1 (each_path_in_at_most_one_group
                   Scenario.mirrored_directories "/d" (@None (callback unit)) tt
                   _ _ _)).
  - vm_compute. repeat constructor; simpl; intuition discriminate.
  - vm_compute. reflexivity.
Defined.

(** ** Groups stay within one directory *)

Section SameDirectory.
Context {S : Type}.
Variable fs : FileSystem.

(** The members of a group are records of the one bucket of the
    catalogue that is filed under the group's directory. *)
Lemma group_comes_from_one_bucket by_size by_dir (cb : option (callback S)) g :
  In g (find_duplicates fs by_size by_dir cb) ->
  exists files,
    In (directory g, files) by_dir
    /\ forall p, In p (paths g) -> exists f, In f files /\ FileInfo.path f = p.
Proof.
  intros Hg.
  destruct (group_members fs by_size by_dir cb g Hg) as (files & key & h & Hd & Hm).
  exists files. split; [exact Hd |].
  intros p Hp. destruct (Hm p Hp) as (f & Hf & Hpath & _). now exists f.
Qed.

(** C4.  In the result of a scan, every member of a group is a file
    that the walk lists directly in the group's directory; so two
    members of one group never reside in different directories,
    whatever their contents. *)
Theorem duplicates_stay_within_one_directory
        top (cb : option (callback S)) s groups g :
  fst (duplicate_file_finder fs top cb s) = Ok groups ->
  In g groups ->
  (forall p, In p (paths g) -> resides_in fs top (directory g) p)
  /\ (one_directory_per_path fs top ->
      forall p1 p2 d1 d2,
        In p1 (paths g) -> In p2 (paths g) ->
        resides_in fs top d1 p1 -> resides_in fs top d2 p2 -> d1 = d2).
Proof.
  intros Hrun Hg. unfold duplicate_file_finder in Hrun. simpl in Hrun.
  inversion Hrun as [Hgroups]. clear Hrun. rewrite <- Hgroups in Hg.
  destruct (group_comes_from_one_bucket _ _ _ g Hg) as (files & Hd & Hm).
  assert (Hres : forall p, In p (paths g) -> resides_in fs top (directory g) p).
  { intros p Hp. destruct (Hm p Hp) as (f & Hf & Hpath). rewrite <- Hpath.
    exact (proj2 (scan_directory_entries fs top _ _ _ _ f Hd Hf)). }
  split; [exact Hres |].
  intros Huniq p1 p2 d1 d2 Hp1 Hp2 Hd1 Hd2.
  rewrite (Huniq d1 (directory g) p1 Hd1 (Hres p1 Hp1)).
  rewrite (Huniq d2 (directory g) p2 Hd2 (Hres p2 Hp2)).
  reflexivity.
Qed.

End SameDirectory.

(** Four files with the same content, two in [/d/x] and two in [/d/y]:
    two groups of two, not one group of four. *)
Example mirrored_directories_groups :
  groups_found Scenario.mirrored_directories "/d"
  = Ok [ {| paths := ["/d/x/a.txt"; "/d/x/a (1).txt"]; size := 1;
            directory := "/d/x" |};
         {| paths := ["/d/y/a.txt"; "/d/y/a (1).txt"]; size := 1;
            directory := "/d/y" |} ].
Proof. vm_compute. reflexivity. Qed.

(** The regression test of the specification: the same content under
    the same name in two directories gives no group. *)
Example two_directories_no_group :
  groups_found Scenario.two_directories "/d" = Ok [].
Proof. vm_compute. reflexivity. Qed.

Lemma duplicates_stay_within_one_directory_witness :
  resides_in Scenario.mirrored_directories "/d" "/d/x" "/d/x/a.txt"
  /\ resides_in Scenario.mirrored_directories "/d" "/d/x" "/d/x/a (1).txt".
Proof.
  pose proof (proj1 (duplicates_stay_within_one_directory
                       Scenario.mirrored_directories "/d"
                       (@None (callback unit)) tt _
                       {| paths := ["/d/x/a.txt"; "/d/x/a (1).txt"]; size := 1;
                          directory := "/d/x" |}
                       mirrored_directories_groups (or_introl eq_refl)))
    as Hmembers.
  split; apply Hmembers; simpl; [left | right; left]; reflexivity.
Defined.

(** ** Rounding to binary64 is monotone *)

Module Binary64Facts.
Import Binary64.

Lemma round_half_even_between num den :
  0 < den -> num / den <= round_half_even num den <= num / den + 1.
Proof.
  intros Hden. unfold round_half_even.
  destruct (2 * (num mod den) <? den); [lia |].
  destruct (den <? 2 * (num mod den)); [lia |].
  destruct (Z.even (num / den)); lia.
Qed.

Lemma round_half_even_mono num1 num2 den :
  0 < den -> num1 <= num2 ->
  round_half_even num1 den <= round_half_even num2 den.
Proof.
  intros Hden Hle.
  pose proof (Z.div_le_mono num1 num2 den Hden Hle) as Hq.
  destruct (Z.eq_dec (num1 / den) (num2 / den)) as [E | NE].
  - assert (Hr : num1 mod den <= num2 mod den).
    { rewrite !Z.mod_eq by lia. rewrite E. lia. }
    unfold round_half_even. rewrite E.
    destruct (Z.ltb_spec (2 * (num1 mod den)) den);
      destruct (Z.ltb_spec (2 * (num2 mod den)) den);
      destruct (Z.ltb_spec den (2 * (num1 mod den)));
      destruct (Z.ltb_spec den (2 * (num2 mod den)));
      destruct (Z.even (num2 / den)); lia.
  - pose proof (round_half_even_between num1 den Hden).
    pose proof (round_half_even_between num2 den Hden). lia.
Qed.

Lemma round_half_even_lower lo num den :
  0 < den -> lo * den <= num -> lo <= round_half_even num den.
Proof.
  intros Hden Hlo.
  pose proof (round_half_even_between num den Hden).
  assert (lo <= num / den) by (apply Z.div_le_lower_bound; lia). lia.
Qed.

Lemma round_half_even_upper hi num den :
  0 < den -> num < hi * den -> round_half_even num den <= hi.
Proof.
  intros Hden Hhi.
  pose proof (round_half_even_between num den Hden).
  assert (num / den < hi) by (apply Z.div_lt_upper_bound; lia). lia.
Qed.

Lemma round_half_even_exact q den :
  0 < den -> round_half_even (q * den) den = q.
Proof.
  intros Hden. unfold round_half_even.
  rewrite Z.mod_mul, Z.div_mul by lia.
  destruct (Z.ltb_spec (2 * 0) den); [reflexivity | lia].
Qed.

Lemma pow2_pos n : 0 < 2 ^ n \/ n < 0.
Proof. destruct (Z.le_gt_cases 0 n); [left; now apply Z.pow_pos_nonneg | now right]. Qed.

(** With [1 <= num] the scaled quotient has at least 54 bits. *)
Lemma scaled_quotient_large num den :
  1 <= num -> 1 <= den -> 2 ^ 53 <= num * 2 ^ scale den / den.
Proof.
  intros Hnum Hden. unfold scale.
  pose proof (Z.log2_nonneg den) as Hl.
  destruct (Z.log2_spec den ltac:(lia)) as (_ & Hup).
  apply Z.div_le_lower_bound; [lia |].
  replace (Z.log2 den + 54) with (53 + Z.succ (Z.log2 den)) by lia.
  rewrite Z.pow_add_r by lia.
  assert (0 < 2 ^ 53) by reflexivity.
  assert (0 < 2 ^ Z.succ (Z.log2 den)) by (apply Z.pow_pos_nonneg; lia).
  nia.
Qed.

Section Round53.
Variables num den : Z.
Hypothesis Hnum : 1 <= num.
Hypothesis Hden : 1 <= den.

Let y := num * 2 ^ scale den.
Let E := Z.log2 (y / den).

Lemma exponent_large : 53 <= E.
Proof.
  unfold E, y.
  pose proof (scaled_quotient_large num den Hnum Hden) as H.
  apply Z.log2_le_mono in H. now rewrite Z.log2_pow2 in H by lia.
Qed.

Lemma quotient_in_binade : 2 ^ E * den <= y < 2 ^ (E + 1) * den.
Proof.
  pose proof (scaled_quotient_large num den Hnum Hden) as H. fold y in H.
  assert (Hpos : 0 < y / den) by (assert (0 < 2 ^ 53) by reflexivity; lia).
  destruct (Z.log2_spec (y / den) Hpos) as (Hlo & Hhi). fold E in Hlo, Hhi.
  replace (Z.succ E) with (E + 1) in Hhi by lia.
  pose proof (Z.mul_div_le y den ltac:(lia)).
  pose proof (Z.mul_succ_div_gt y den ltac:(lia)).
  split; nia.
Qed.

(** The rounded value lies in the closed binade of the quotient. *)
Lemma round53_in_binade : 2 ^ E <= round53 num den <= 2 ^ (E + 1).
Proof.
  pose proof exponent_large as HE.
  pose proof quotient_in_binade as (Hlo & Hhi).
  unfold round53. fold y. fold E.
  assert (Hsh : 0 < 2 ^ (E - 52)) by (apply Z.pow_pos_nonneg; lia).
  assert (H52 : 2 ^ E = 2 ^ 52 * 2 ^ (E - 52))
    by (rewrite <- Z.pow_add_r by lia; f_equal; lia).
  assert (H53 : 2 ^ (E + 1) = 2 ^ 53 * 2 ^ (E - 52))
    by (rewrite <- Z.pow_add_r by lia; f_equal; lia).
  assert (Hd : 0 < den * 2 ^ (E - 52)) by nia.
  assert (L : 2 ^ 52 <= round_half_even y (den * 2 ^ (E - 52))).
  { apply round_half_even_lower; [exact Hd |]. rewrite H52 in Hlo. nia. }
  assert (U : round_half_even y (den * 2 ^ (E - 52)) <= 2 ^ 53).
  { apply round_half_even_upper; [exact Hd |]. rewrite H53 in Hhi. nia. }
  rewrite H52, H53. split; nia.
Qed.

End Round53.

(** Rounding keeps the order of the numerators. *)
Lemma round53_mono num1 num2 den :
  1 <= num1 -> num1 <= num2 -> 1 <= den ->
  round53 num1 den <= round53 num2 den.
Proof.
  intros H1 H12 Hden.
  pose proof (round53_in_binade num1 den H1 Hden) as (_ & U1).
  pose proof (round53_in_binade num2 den ltac:(lia) Hden) as (L2 & _).
  pose proof (exponent_large num1 den H1 Hden) as HE1.
  assert (Hq : num1 * 2 ^ scale den / den <= num2 * 2 ^ scale den / den).
  { apply Z.div_le_mono; [lia |].
    apply Z.mul_le_mono_nonneg_r; [apply Z.pow_nonneg; lia | exact H12]. }
  pose proof (Z.log2_le_mono _ _ Hq) as HE.
  destruct (Z.eq_dec (Z.log2 (num1 * 2 ^ scale den / den))
                     (Z.log2 (num2 * 2 ^ scale den / den))) as [Eq | Ne].
  - unfold round53. rewrite <- Eq.
    set (sh := Z.log2 (num1 * 2 ^ scale den / den) - 52) in *.
    assert (Hsh : 0 < 2 ^ sh) by (apply Z.pow_pos_nonneg; unfold sh; lia).
    apply Z.mul_le_mono_nonneg_r; [lia |].
    apply round_half_even_mono; [nia |].
    apply Z.mul_le_mono_nonneg_r; [apply Z.pow_nonneg; lia | exact H12].
  - assert (Hpow : 2 ^ (Z.log2 (num1 * 2 ^ scale den / den) + 1)
                   <= 2 ^ Z.log2 (num2 * 2 ^ scale den / den))
      by (apply Z.pow_le_mono_r; lia).
    lia.
Qed.

Lemma round53_pos num den : 1 <= num -> 1 <= den -> 1 <= round53 num den.
Proof.
  intros Hnum Hden.
  pose proof (round53_in_binade num den Hnum Hden) as (L & _).
  pose proof (exponent_large num den Hnum Hden) as HE.
  assert (0 < 2 ^ Z.log2 (num * 2 ^ scale den / den))
    by (apply Z.pow_pos_nonneg; lia).
  lia.
Qed.

(** A quotient that needs no rounding: [q * 2^k / 2^k]-like values. *)
Lemma round53_representable m den :
  1 <= m -> m < 2 ^ 53 -> 1 <= den ->
  round53 (m * den) den = m * 2 ^ scale den.
Proof.
  intros Hm Hm53 Hden. unfold round53.
  assert (Hs : 0 <= scale den) by (unfold scale; pose proof (Z.log2_nonneg den); lia).
  assert (Hp : 0 < 2 ^ scale den) by (apply Z.pow_pos_nonneg; lia).
  replace (m * den * 2 ^ scale den) with (m * 2 ^ scale den * den) by ring.
  rewrite Z.div_mul by lia.
  rewrite Z.log2_mul_pow2 by lia.
  pose proof (Z.log2_nonneg m) as Hlm.
  assert (Hl53 : Z.log2 m < 53) by (apply Z.log2_lt_pow2; lia).
  set (sh := scale den + Z.log2 m - 52).
  assert (Hsh : 0 <= sh) by (unfold sh, scale; pose proof (Z.log2_nonneg den); lia).
  assert (Hsplit : 2 ^ scale den = 2 ^ (52 - Z.log2 m) * 2 ^ sh)
    by (rewrite <- Z.pow_add_r by lia; f_equal; unfold sh; lia).
  rewrite Hsplit.
  replace (m * (2 ^ (52 - Z.log2 m) * 2 ^ sh) * den)
    with (m * 2 ^ (52 - Z.log2 m) * (den * 2 ^ sh)) by ring.
  rewrite round_half_even_exact; [ring |].
  assert (0 < 2 ^ sh) by (apply Z.pow_pos_nonneg; lia). nia.
Qed.

End Binary64Facts.

(** ** The progress values of phase 1 *)

Section ProgressPercent.
Import Binary64 Binary64Facts.

Lemma progress_percent_mono k1 k2 total :
  1 <= k1 -> k1 <= k2 -> 1 <= total ->
  progress_percent k1 total <= progress_percent k2 total.
Proof.
  intros H1 H12 Ht. unfold progress_percent.
  assert (Hs : 0 <= scale total) by (unfold scale; pose proof (Z.log2_nonneg total); lia).
  assert (Hp : 1 <= 2 ^ scale total)
    by (assert (0 < 2 ^ scale total) by (apply Z.pow_pos_nonneg; lia); lia).
  apply Z.div_le_mono; [apply Z.pow_pos_nonneg; lia |].
  pose proof (round53_pos k1 total H1 Ht).
  pose proof (round53_mono k1 k2 total H1 H12 Ht).
  apply round53_mono; lia.
Qed.

Lemma progress_percent_nonneg k total :
  1 <= k -> 1 <= total -> 0 <= progress_percent k total.
Proof.
  intros Hk Ht. unfold progress_percent.
  assert (Hs : 0 <= scale total) by (unfold scale; pose proof (Z.log2_nonneg total); lia).
  assert (Hp : 1 <= 2 ^ scale total)
    by (assert (0 < 2 ^ scale total) by (apply Z.pow_pos_nonneg; lia); lia).
  pose proof (round53_pos k total Hk Ht).
  pose proof (round53_pos (round53 k total * 50) (2 ^ scale total) ltac:(lia) Hp).
  apply Z.div_pos; [lia | apply Z.pow_pos_nonneg; lia].
Qed.

(** All files processed: [int((n / n) * 50)] is 50. *)
Lemma progress_percent_all total : 1 <= total -> progress_percent total total = 50.
Proof.
  intros Ht. unfold progress_percent.
  assert (Hs : 0 <= scale total) by (unfold scale; pose proof (Z.log2_nonneg total); lia).
  assert (Hp : 1 <= 2 ^ scale total)
    by (assert (0 < 2 ^ scale total) by (apply Z.pow_pos_nonneg; lia); lia).
  replace (round53 total total) with (1 * 2 ^ scale total).
  2:{ symmetry. replace total with (1 * total) at 1 by lia.
      apply round53_representable; [lia | reflexivity | lia]. }
  replace (1 * 2 ^ scale total * 50) with (50 * 2 ^ scale total) by ring.
  rewrite round53_representable by (try reflexivity; lia).
  assert (Hsc : scale (2 ^ scale total) = scale total + 54).
  { unfold scale at 1. now rewrite Z.log2_pow2 by exact Hs. }
  rewrite Hsc. apply Z.div_mul. apply Z.pow_nonzero; lia.
Qed.

Lemma progress_percent_range k total :
  1 <= k -> k <= total -> 0 <= progress_percent k total <= 50.
Proof.
  intros Hk Hkt. split.
  - apply progress_percent_nonneg; lia.
  - rewrite <- (progress_percent_all total) by lia.
    apply progress_percent_mono; lia.
Qed.

End ProgressPercent.

Section Progress.
Variable fs : FileSystem.

(** A callback that does nothing but record. *)
Variable cb : callback (list Z).
Hypothesis cb_records : forall v s, fst (cb v s) = s ++ [v].

Lemma count_files_acc walk :
  forall a, fold_left (fun n entry => n + len (snd entry)) walk a
            = a + count_files walk.
Proof.
  unfold count_files.
  induction walk as [| e walk IH]; intros a; simpl; [lia |].
  rewrite (IH (a + _)), (IH (len (snd e))). lia.
Qed.

Lemma count_files_cons e walk :
  count_files (e :: walk) = len (snd e) + count_files walk.
Proof. unfold count_files at 1. simpl. now rewrite count_files_acc. Qed.

Lemma count_files_nonneg walk : 0 <= count_files walk.
Proof.
  induction walk as [| e walk IH]; [reflexivity |].
  rewrite count_files_cons. unfold len. lia.
Qed.

Lemma counts_app from n m :
  counts from (n + m) = counts from n ++ counts (from + Z.of_nat n) m.
Proof.
  revert from. induction n as [| n IH]; intros from.
  - simpl. now rewrite Z.add_0_r.
  - cbn [Nat.add counts app]. rewrite IH. do 3 f_equal. lia.
Qed.

Lemma scan_file_progress total chunk root (st : scan_state (list Z)) name :
  processed_files (scan_file fs (Some cb) total chunk root st name)
  = processed_files st + 1
  /\ cb_state (scan_file fs (Some cb) total chunk root st name)
     = cb_state st ++ tick total chunk (processed_files st + 1).
Proof.
  unfold scan_file, tick. cbn [processed_files cb_state].
  split; [reflexivity |].
  destruct (_ =? 0); [apply cb_records | now rewrite app_nil_r].
Qed.

Lemma scan_names_progress total chunk root names :
  forall st : scan_state (list Z),
    let st' := fold_left (scan_file fs (Some cb) total chunk root) names st in
    processed_files st' = processed_files st + len names
    /\ cb_state st'
       = cb_state st
         ++ flat_map (tick total chunk)
                     (counts (processed_files st) (List.length names)).
Proof.
  induction names as [| name names IH]; intros st; cbn zeta.
  - simpl. unfold len. simpl. split; [lia | now rewrite app_nil_r].
  - cbn [fold_left].
    destruct (IH (scan_file fs (Some cb) total chunk root st name)) as (Hp & Hs).
    destruct (scan_file_progress total chunk root st name) as (Hp1 & Hs1).
    rewrite Hp, Hs, Hp1, Hs1.
    split; [unfold len; cbn [List.length]; lia |].
    cbn [List.length counts flat_map]. now rewrite app_assoc.
Qed.

Lemma scan_walk_progress total chunk walk :
  forall st : scan_state (list Z),
    let st' := fold_left (scan_root fs (Some cb) total chunk) walk st in
    processed_files st' = processed_files st + count_files walk
    /\ cb_state st'
       = cb_state st
         ++ flat_map (tick total chunk)
                     (counts (processed_files st) (Z.to_nat (count_files walk))).
Proof.
  induction walk as [| [root names] walk IH]; intros st; cbn zeta.
  - simpl. split; [unfold count_files; simpl; lia | now rewrite app_nil_r].
  - cbn [fold_left]. unfold scan_root at 2 4. cbn [fst snd].
    destruct (scan_names_progress total chunk root names st) as (Hp1 & Hs1).
    destruct (IH (fold_left (scan_file fs (Some cb) total chunk root) names st))
      as (Hp & Hs).
    rewrite Hp, Hs, Hp1, Hs1, count_files_cons. cbn [snd].
    pose proof (count_files_nonneg walk).
    split; [lia |].
    rewrite <- app_assoc. f_equal.
    replace (Z.to_nat (len names + count_files walk))
      with (List.length names + Z.to_nat (count_files walk))%nat
      by (unfold len; lia).
    rewrite counts_app, flat_map_app. reflexivity.
Qed.

Lemma flat_map_tick total l :
  flat_map (tick total (Z.max 1 (total / 100))) l
  = map (fun k => progress_percent k total)
        (filter (fun k => k mod Z.max 1 (total / 100) =? 0) l).
Proof.
  induction l as [| k l IH]; simpl; [reflexivity |].
  unfold tick at 1. destruct (_ =? 0); simpl; now rewrite IH.
Qed.

(** What [scan_directory] reports: the ticks of phase 1, in order. *)
Lemma scan_directory_progress top s :
  cb_state (scan_directory fs top (Some cb) s)
  = s ++ phase1_ticks (count_files (fs_walk fs top)).
Proof.
  unfold scan_directory, phase1_ticks.
  destruct (Z.eqb_spec (count_files (fs_walk fs top)) 0) as [E | NE].
  - rewrite E. simpl. now rewrite app_nil_r.
  - match goal with
    | |- cb_state (fold_left ?f ?walk ?st) = _ =>
        destruct (scan_walk_progress (count_files (fs_walk fs top))
                    (Z.max 1 (count_files (fs_walk fs top) / 100)) walk st)
          as (_ & Hs)
    end.
    rewrite Hs. cbn [cb_state processed_files]. now rewrite flat_map_tick.
Qed.

End Progress.

Section ProgressOrder.

Lemma counts_range from n :
  Forall (fun k => from < k <= from + Z.of_nat n) (counts from n).
Proof.
  revert from. induction n as [| n IH]; intros from; simpl; constructor.
  - lia.
  - eapply Forall_impl; [| apply IH]. simpl. intros k Hk. lia.
Qed.

Lemma ticks_sorted total chunk n :
  forall from,
    0 <= from -> from + Z.of_nat n <= total ->
    StronglySorted Z.le
      (map (fun k => progress_percent k total)
           (filter (fun k => k mod chunk =? 0) (counts from n))).
Proof.
  induction n as [| n IH]; intros from Hfrom Hn; [constructor |].
  cbn [counts filter]. destruct (_ =? 0); [| apply IH; lia].
  cbn [map]. constructor; [apply IH; lia |].
  apply Forall_forall. intros v Hv.
  apply in_map_iff in Hv. destruct Hv as (k & <- & Hk).
  apply filter_In in Hk. destruct Hk as (Hk & _).
  pose proof (counts_range (from + 1) n) as Hr.
  rewrite Forall_forall in Hr. specialize (Hr k Hk).
  apply progress_percent_mono; lia.
Qed.

Lemma ticks_range total chunk n :
  forall from,
    0 <= from -> from + Z.of_nat n <= total ->
    Forall (fun v => 0 <= v <= 50)
      (map (fun k => progress_percent k total)
           (filter (fun k => k mod chunk =? 0) (counts from n))).
Proof.
  intros from Hfrom Hn. apply Forall_forall. intros v Hv.
  apply in_map_iff in Hv. destruct Hv as (k & <- & Hk).
  apply filter_In in Hk. destruct Hk as (Hk & _).
  pose proof (counts_range from n) as Hr.
  rewrite Forall_forall in Hr. specialize (Hr k Hk).
  apply progress_percent_range; lia.
Qed.

Lemma phase1_ticks_sorted total : StronglySorted Z.le (phase1_ticks total).
Proof.
  unfold phase1_ticks. destruct (Z.le_gt_cases 0 total).
  - apply ticks_sorted; lia.
  - replace (Z.to_nat total) with 0%nat by lia. constructor.
Qed.

Lemma phase1_ticks_range total :
  Forall (fun v => 0 <= v <= 50) (phase1_ticks total).
Proof.
  unfold phase1_ticks. destruct (Z.le_gt_cases 0 total).
  - apply ticks_range; lia.
  - replace (Z.to_nat total) with 0%nat by lia. constructor.
Qed.

Lemma sorted_snoc (l : list Z) (x : Z) :
  StronglySorted Z.le l -> Forall (fun v => v <= x) l ->
  StronglySorted Z.le (l ++ [x]).
Proof.
  induction 1 as [| a l Hs IH Ha]; intros Hx; simpl.
  - repeat constructor.
  - inversion Hx; subst. constructor; [now apply IH |].
    apply Forall_app. split; [exact Ha | now repeat constructor].
Qed.

End ProgressOrder.

Lemma safe_recorder_records v s :
  fst (safe_progress_callback (Some recorder) v s) = s ++ [v].
Proof. reflexivity. Qed.

(** The values of a whole run. *)
Lemma reported_progress_closed_form fs top :
  reported_progress fs top
  = 0 :: phase1_ticks (count_files (fs_walk fs top)) ++ [50].
Proof.
  unfold reported_progress, duplicate_file_finder. cbn [snd].
  rewrite safe_recorder_records.
  rewrite (scan_directory_progress fs _ safe_recorder_records).
  rewrite safe_recorder_records. reflexivity.
Qed.

(** The values of a whole run are 0, the values of phase 1 and 50,
    which is reported before grouping starts and is the last one:
    [find_duplicates] never calls the callback it is given.  The
    values never decrease and all lie between 0 and 50, so 100 is not
    among them for any tree. *)
Lemma progress_ends_at_50_before_grouping (fs : FileSystem) (top : string) :
  reported_progress fs top
  = 0 :: phase1_ticks (count_files (fs_walk fs top)) ++ [50]
  /\ StronglySorted Z.le (reported_progress fs top)
  /\ Forall (fun v => 0 <= v <= 50) (reported_progress fs top)
  /\ ~ In 100 (reported_progress fs top).
Proof.
  pose proof (phase1_ticks_sorted (count_files (fs_walk fs top))) as Hs.
  pose proof (phase1_ticks_range (count_files (fs_walk fs top))) as Hr.
  assert (Hrange : Forall (fun v => 0 <= v <= 50) (reported_progress fs top)).
  { rewrite reported_progress_closed_form.
    constructor; [lia |]. apply Forall_app. split; [exact Hr |].
    constructor; [lia | constructor]. }
  split; [apply reported_progress_closed_form | split; [| split]].
  - rewrite reported_progress_closed_form. constructor.
    + apply sorted_snoc; [exact Hs |].
      eapply Forall_impl; [| exact Hr]. simpl. intros v Hv. lia.
    + apply Forall_app. split.
      * eapply Forall_impl; [| exact Hr]. simpl. intros v Hv. lia.
      * constructor; [lia | constructor].
  - exact Hrange.
  - intros H100. rewrite Forall_forall in Hrange.
    specialize (Hrange 100 H100). lia.
Qed.

(** C7 fails on this input.  Grouping completes for the one directory
    of this tree and returns its group; the callback is handed to
    [find_duplicates], which never calls it, so the last value reported
    is the 50 of the halfway mark and no 100 follows. *)
Theorem completed_scan_reports_no_100 :
  groups_found Scenario.abx "/d"
  = Ok [ {| paths := ["/d/a.txt"; "/d/a (1).txt"]; size := 1;
            directory := "/d" |} ]
  /\ reported_progress Scenario.abx "/d" = [0; 16; 33; 50; 50]
  /\ ~ In 100 (reported_progress Scenario.abx "/d").
Proof.
  split; [vm_compute; reflexivity | split; [vm_compute; reflexivity |]].
  vm_compute. intuition discriminate.
Qed.

(** ** Cancellation *)

Section Cancellation.
Variable fs : FileSystem.

(** The result of [duplicate_file_finder] is the same for every
    callback: nothing a callback does, raising included, reaches the
    scan or the grouping. *)
Lemma finder_result_ignores_callback {S S' : Type} top
      (cb : option (callback S)) (cb' : option (callback S')) s s' :
  fst (duplicate_file_finder fs top cb s)
  = fst (duplicate_file_finder fs top cb' s').
Proof.
  unfold duplicate_file_finder. cbn [fst].
  destruct (scan_directory_same_catalogue fs top
              (Some (safe_progress_callback cb))
              (Some (safe_progress_callback cb'))
              (fst (safe_progress_callback cb 0 s))
              (fst (safe_progress_callback cb' 0 s')))
    as (H1 & H2 & _).
  rewrite H1, H2. reflexivity.
Qed.

End Cancellation.

Section StoppedBeforeStart.
Variable fs : FileSystem.

Let stopped : callback worker :=
  safe_progress_callback (Some (DuplicateFinderThread.progress_callback (Some 0%nat))).

Lemma stopped_emits_nothing v w : emitted (fst (stopped v w)) = emitted w.
Proof. reflexivity. Qed.

Lemma scan_stopped_emits_nothing top w :
  emitted (cb_state (scan_directory fs top (Some stopped) w)) = emitted w.
Proof.
  unfold scan_directory. destruct (_ =? 0); [reflexivity |].
  apply (fold_left_invariant _ (fun st => emitted (cb_state st) = emitted w));
    [reflexivity |].
  intros st [root names] _ Hst. unfold scan_root. cbn [fst snd].
  apply fold_left_invariant; [exact Hst |].
  intros st' name _ Hst'. unfold scan_file. cbn [cb_state].
  destruct (_ =? 0); [| exact Hst'].
  now rewrite stopped_emits_nothing.
Qed.

(** Whatever the tree, a run whose flag is down from the start still
    scans and groups, and ends without any signal: no progress, no
    result, no empty list. *)
Lemma run_stopped_before_start top :
  fs_exists fs top = true ->
  DuplicateFinderThread.run fs top (Some 0%nat) = []
  /\ fst (duplicate_file_finder fs top
            (Some (DuplicateFinderThread.progress_callback (Some 0%nat)))
            {| flag_reads := 0; emitted := [] |})
     = groups_found fs top.
Proof.
  intros Hex. split; [| apply finder_result_ignores_callback].
  unfold DuplicateFinderThread.run. rewrite Hex. cbn [negb].
  unfold duplicate_file_finder. fold stopped.
  unfold DuplicateFinderThread.is_running. cbn [Nat.ltb Nat.leb].
  cbn [emitted DuplicateFinderThread.read_flag].
  rewrite stopped_emits_nothing, scan_stopped_emits_nothing.
  reflexivity.
Qed.

End StoppedBeforeStart.

(** C6 fails on this input: [stop()] has been called before the worker
    reads the flag for the first time.  Each of the five callbacks
    raises [InterruptedError]; none of them stops anything, and the
    finder hashes the files and returns the complete group list; [run]
    then emits no signal at all. *)
Theorem cancellation_does_not_stop_the_scan :
  duplicate_file_finder Scenario.abx "/d"
    (Some (DuplicateFinderThread.progress_callback (Some 0%nat)))
    {| flag_reads := 0; emitted := [] |}
  = (Ok [ {| paths := ["/d/a.txt"; "/d/a (1).txt"]; size := 1;
             directory := "/d" |} ],
     {| flag_reads := 5; emitted := [] |})
  /\ DuplicateFinderThread.run Scenario.abx "/d" (Some 0%nat) = []
  /\ DuplicateFinderThread.run Scenario.abx "/d" None
     = [ progress_updated 0; progress_updated 16; progress_updated 33;
         progress_updated 50; progress_updated 50;
         duplicates_found
           [ {| paths := ["/d/a.txt"; "/d/a (1).txt"]; size := 1;
                directory := "/d" |} ] ].
Proof. repeat split; vm_compute; reflexivity. Qed.

Example md5_empty : MD5.hexdigest [] = "d41d8cd98f00b204e9800998ecf8427e".
Proof. vm_compute. reflexivity. Qed.

Example md5_abc : MD5.hexdigest (Scenario.bytes_of_string "abc") = "900150983cd24fb0d6963f7d28e17f72".
Proof. vm_compute. reflexivity. Qed.

Example md5_long :
  MD5.hexdigest (Scenario.bytes_of_string
    "12345678901234567890123456789012345678901234567890123456789012345678901234567890")
  = "57edf4a22be3c955ac49da2e2107b67a".
Proof. vm_compute. reflexivity. Qed.

Example norm1 : get_normalized_name "report.pdf" = "report.pdf". Proof. vm_compute. reflexivity. Qed.
Example norm2 : get_normalized_name "copy of report.pdf" = "report.pdf". Proof. vm_compute. reflexivity. Qed.
Example norm3 : get_normalized_name "report (1).pdf" = "report.pdf". Proof. vm_compute. reflexivity. Qed.
Example norm4 : get_normalized_name "Copy Of  Report(12) .PDF" = "report.pdf". Proof. vm_compute. reflexivity. Qed.
Example norm5 : get_normalized_name "a (1) (2).txt" = "a (1).txt". Proof. vm_compute. reflexivity. Qed.
Example norm6 : get_normalized_name ".bashrc" = ".bashrc". Proof. vm_compute. reflexivity. Qed.
Example norm7 : get_normalized_name "..a.b (3)" = "..a.b (3)". Proof. vm_compute. reflexivity. Qed.
Example norm8 : get_normalized_name "copy of.txt" = "copy of.txt". Proof. vm_compute. reflexivity. Qed.
Example norm9 : get_normalized_name "x().y" = "x().y". Proof. vm_compute. reflexivity. Qed.
Example norm10 : get_normalized_name "(1).txt" = ".txt". Proof. vm_compute. reflexivity. Qed.
Example name1 : OsPath.name (OsPath.join "/d" "a (1).txt") = "a (1).txt". Proof. vm_compute. reflexivity. Qed.
Example name2 : OsPath.name (OsPath.join "/d/" "a.txt") = "a.txt". Proof. vm_compute. reflexivity. Qed.
Example name3 : OsPath.join "/d/" "a.txt" = "/d/a.txt". Proof. vm_compute. reflexivity. Qed.

Example walk_abx : groups_found Scenario.abx "/d"
  = Ok [ {| paths := ["/d/a.txt"; "/d/a (1).txt"]; size := 1; directory := "/d" |} ].
Proof. vm_compute. reflexivity. Qed.

Example prog_abx : reported_progress Scenario.abx "/d" = [0; 16; 33; 50; 50].
Proof. vm_compute. reflexivity. Qed.

Example progress_model_agrees_with_hardware :
  forallb (fun kt => progress_percent (fst kt) (snd kt)
                     =? progress_percent_hw (fst kt) (snd kt))
          (pairs_up_to 64) = true.
Proof. vm_compute. reflexivity. Qed.

Example progress_29_of_50 : progress_percent 29 50 = 28.
Proof. vm_compute. reflexivity. Qed.

Example progress_model_agrees_large :
  forallb (fun kt => progress_percent (fst kt) (snd kt)
                     =? progress_percent_hw (fst kt) (snd kt))
          [(1, 3); (123456, 7654321); (999999, 1000000); (1, 4503599627370495);
           (4503599627370494, 4503599627370495); (333333333, 1000000007);
           (57, 100); (58, 100); (7, 1000); (2147483647, 4294967296)] = true.
Proof. vm_compute. reflexivity. Qed.

Example walk_copy_of_report :
  groups_found Scenario.copy_of_report "/d"
  = Ok [ {| paths := ["/d/report.pdf"; "/d/copy of report.pdf"]; size := 8;
            directory := "/d" |} ].
Proof. vm_compute. reflexivity. Qed.

Example walk_numbered_report :
  groups_found Scenario.numbered_report "/d"
  = Ok [ {| paths := ["/d/report (1).pdf"; "/d/report.pdf"]; size := 8;
            directory := "/d" |} ].
Proof. vm_compute. reflexivity. Qed.

Example walk_different_content :
  groups_found Scenario.different_content "/d" = Ok [].
Proof. vm_compute. reflexivity. Qed.

(* ================================================================== *)
(* ================================================================== *)
(** * Further properties *)

(** ** A [defaultdict(list)] groups by key and keeps the order *)

Section DictBuckets.
Context {K V : Type}.
Variable eqb : K -> K -> bool.
Hypothesis eqb_spec : forall a b, eqb a b = true <-> a = b.

Lemma eqb_refl_true a : eqb a a = true.
Proof. now apply eqb_spec. Qed.

Lemma eqb_false_neq a b : eqb a b = false -> a <> b.
Proof. intros H E. apply eqb_spec in E. congruence. Qed.

Lemma dict_values_append k k1 v (d : @dict K V) :
  dict_values eqb k (dict_append eqb k1 v d)
  = dict_values eqb k d ++ (if eqb k1 k then [v] else []).
Proof.
  induction d as [| [k' vs] d IH]; simpl.
  - destruct (eqb k k1) eqn:E1, (eqb k1 k) eqn:E2; try reflexivity.
    + apply eqb_spec in E1. subst. now rewrite eqb_refl_true in E2.
    + apply eqb_spec in E2. subst. now rewrite eqb_refl_true in E1.
  - destruct (eqb k1 k') eqn:E1; simpl.
    + apply eqb_spec in E1. subst k'.
      destruct (eqb k k1) eqn:E2.
      * apply eqb_spec in E2. subst. now rewrite eqb_refl_true.
      * destruct (eqb k1 k) eqn:E3; [| now rewrite app_nil_r].
        apply eqb_spec in E3. subst. now rewrite eqb_refl_true in E2.
    + destruct (eqb k k') eqn:E2; [| exact IH].
      apply eqb_spec in E2. subst k'. rewrite E1. now rewrite app_nil_r.
Qed.

Lemma dict_values_collect {A : Type} (kv : A -> K * V) k (xs : list A) :
  forall d,
    dict_values eqb k (dict_collect eqb kv xs d)
    = dict_values eqb k d ++ filed_under eqb kv k xs.
Proof.
  unfold filed_under.
  induction xs as [| x xs IH]; intros d; simpl.
  - now rewrite app_nil_r.
  - rewrite IH, dict_values_append, <- app_assoc.
    destruct (eqb (fst (kv x)) k); reflexivity.
Qed.

Lemma dict_append_keys k v (d : @dict K V) x :
  In x (map fst (dict_append eqb k v d)) -> x = k \/ In x (map fst d).
Proof.
  induction d as [| [k' vs] d IH]; simpl.
  - intros [<- | []]. now left.
  - destruct (eqb k k'); simpl.
    + intros [<- | H]; right; [now left | now right].
    + intros [<- | H]; [right; now left |].
      destruct (IH H) as [-> | H']; [now left | right; now right].
Qed.

Lemma dict_append_well_formed k v (d : @dict K V) :
  well_formed d -> well_formed (dict_append eqb k v d).
Proof.
  intros (Hnd & Hne). induction d as [| [k' vs] d IH]; simpl.
  - split; repeat constructor; [intros [] | discriminate].
  - simpl in Hnd. pose proof Hnd as Hnd0.
    apply NoDup_cons_iff in Hnd as (Hnot & Hnd').
    apply Forall_cons_iff in Hne as (Hv & Hne').
    destruct (eqb k k') eqn:E; simpl.
    + split; [exact Hnd0 |]. constructor; [| exact Hne'].
      simpl. intros H. now apply app_eq_nil in H as (_ & H).
    + destruct (IH Hnd' Hne') as (IH1 & IH2).
      split; [| constructor; assumption].
      constructor; [| exact IH1].
      cbn [fst]. intros Hin. apply dict_append_keys in Hin. destruct Hin as [-> | Hin].
      * now rewrite eqb_refl_true in E.
      * now apply Hnot.
Qed.

Lemma dict_collect_well_formed {A : Type} (kv : A -> K * V) (xs : list A) :
  forall d, well_formed d -> well_formed (dict_collect eqb kv xs d).
Proof.
  induction xs as [| x xs IH]; intros d Hd; simpl; [exact Hd |].
  apply IH. now apply dict_append_well_formed.
Qed.

Lemma well_formed_entry (d : @dict K V) k vs :
  well_formed d -> (In (k, vs) d <-> vs = dict_values eqb k d /\ vs <> []).
Proof.
  intros (Hnd & Hne). induction d as [| [k' vs'] d IH]; simpl.
  - split; [intros [] | intros (-> & H); now apply H].
  - simpl in Hnd. apply NoDup_cons_iff in Hnd as (Hnot & Hnd').
    apply Forall_cons_iff in Hne as (Hv & Hne').
    specialize (IH Hnd' Hne'). simpl in Hv.
    destruct (eqb k k') eqn:E.
    + apply eqb_spec in E. subst k'. split.
      * intros [H | H]; [inversion H; subst; now split |].
        exfalso. apply Hnot. apply in_map_iff. now exists (k, vs).
      * intros (-> & _). now left.
    + split.
      * intros [H | H]; [inversion H; subst; now rewrite eqb_refl_true in E |].
        now apply IH.
      * intros H. right. now apply IH.
Qed.

(** The entries of a dictionary built by appending: under each key
    that occurs, the values of the elements with that key, in their
    order; no other entry. *)
Lemma dict_collect_entry {A : Type} (kv : A -> K * V) (xs : list A) k vs :
  In (k, vs) (dict_collect eqb kv xs [])
  <-> vs = filed_under eqb kv k xs /\ vs <> [].
Proof.
  rewrite well_formed_entry.
  - now rewrite dict_values_collect.
  - apply dict_collect_well_formed. split; constructor.
Qed.

End DictBuckets.

(** ** What [find_duplicates] returns, exactly *)

Section GroupsExactly.
Import FileInfoFacts.
Context {S : Type}.
Variable fs : FileSystem.

Lemma filter_filter_andb {A : Type} (p q : A -> bool) (l : list A) :
  filter q (filter p l) = filter (fun x => p x && q x) l.
Proof.
  induction l as [| x l IH]; simpl; [reflexivity |].
  destruct (p x); simpl; [destruct (q x) |]; now rewrite IH.
Qed.

Lemma name_dict_entry files key similar :
  In (key, similar) (name_dict_of files)
  <-> similar = filter (fun f => String.eqb (name_key f) key) files
      /\ similar <> [].
Proof.
  unfold name_dict_of. rewrite (dict_collect_entry String.eqb String.eqb_eq).
  unfold filed_under. cbn [fst snd]. now rewrite map_id.
Qed.

Lemma hash_dict_entry similar h duplicates :
  In (h, duplicates) (hash_dict_of fs similar)
  <-> duplicates
      = map (fun f => FileInfo.after (FileInfo.full_hash fs f))
            (filter (fun f => String.eqb (FileInfo.value (FileInfo.full_hash fs f)) h)
                    similar)
      /\ duplicates <> [].
Proof.
  unfold hash_dict_of. rewrite (dict_collect_entry String.eqb String.eqb_eq).
  unfold filed_under. cbn [fst snd]. reflexivity.
Qed.

Lemma map_after_path (l : list FileInfo.t) :
  map FileInfo.path (map (fun f => FileInfo.after (FileInfo.full_hash fs f)) l)
  = map FileInfo.path l.
Proof. rewrite map_map. apply map_ext. intros f. apply full_hash_path. Qed.

Lemma len_map {A B : Type} (f : A -> B) (l : list A) : len (map f l) = len l.
Proof. unfold len. now rewrite length_map. Qed.

Lemma len_filter_le {A : Type} (p : A -> bool) (l : list A) :
  len (filter p l) <= len l.
Proof. unfold len. pose proof (filter_length_le p l). lia. Qed.

(** The groups of one directory listing. *)
Lemma in_groups_of_directory d files g :
  In g (groups_of_directory fs (d, files))
  <-> exists key h,
        g = group_of fs d (bucket_members fs key h files)
        /\ 2 <= len (bucket_members fs key h files).
Proof.
  unfold groups_of_directory. cbn [fst snd]. rewrite in_flat_map. split.
  - intros ([key similar] & Hkey & Hg).
    apply name_dict_entry in Hkey. destruct Hkey as (-> & _).
    unfold groups_of_name_bucket in Hg. cbn [snd] in Hg.
    destruct (1 <? len _); [| destruct Hg].
    apply in_flat_map in Hg. destruct Hg as ([h duplicates] & Hh & Hg).
    apply hash_dict_entry in Hh. destruct Hh as (-> & _).
    unfold groups_of_hash_bucket in Hg. cbn [snd] in Hg.
    destruct (Z.ltb_spec 1 (len (map (fun f => FileInfo.after (FileInfo.full_hash fs f))
                (filter (fun f => String.eqb (FileInfo.value (FileInfo.full_hash fs f)) h)
                   (filter (fun f => String.eqb (name_key f) key) files)))))
      as [Hlen | Hlen]; [| destruct Hg].
    destruct Hg as [<- | []].
    rewrite filter_filter_andb in *. fold (bucket_members fs key h files) in *.
    exists key, h. rewrite len_map in Hlen. split; [| lia].
    unfold group_of. now rewrite map_after_path.
  - intros (key & h & -> & Hlen).
    unfold bucket_members in *. rewrite <- filter_filter_andb in *.
    set (similar := filter (fun f => String.eqb (name_key f) key) files) in *.
    set (members := filter _ similar) in *.
    assert (Hsim : 2 <= len similar)
      by (pose proof (len_filter_le
                        (fun f => String.eqb (FileInfo.value (FileInfo.full_hash fs f)) h)
                        similar); fold members in H; lia).
    exists (key, similar). split.
    + apply name_dict_entry. split; [reflexivity |].
      intros E. rewrite E in Hsim. unfold len in Hsim. simpl in Hsim. lia.
    + unfold groups_of_name_bucket. cbn [snd].
      destruct (Z.ltb_spec 1 (len similar)); [| lia].
      apply in_flat_map.
      exists (h, map (fun f => FileInfo.after (FileInfo.full_hash fs f)) members).
      split.
      * apply hash_dict_entry. split; [reflexivity |].
        intros E. apply map_eq_nil in E. rewrite E in Hlen.
        unfold len in Hlen. simpl in Hlen. lia.
      * unfold groups_of_hash_bucket. cbn [snd]. rewrite len_map.
        destruct (Z.ltb_spec 1 (len members)); [| lia].
        left. unfold group_of. now rewrite map_after_path.
Qed.

Lemma in_find_duplicates_iff
      by_size by_dir (cb : option (callback S)) (g : DuplicateGroup) :
  In g (find_duplicates fs by_size by_dir cb)
  <-> exists d files key h,
        In (d, files) by_dir
        /\ g = group_of fs d (bucket_members fs key h files)
        /\ 2 <= len (bucket_members fs key h files).
Proof.
  unfold find_duplicates. rewrite in_flat_map. split.
  - intros ([d files] & Hd & Hg). apply in_groups_of_directory in Hg.
    destruct Hg as (key & h & Hg & Hlen). now exists d, files, key, h.
  - intros (d & files & key & h & Hd & Hg & Hlen).
    exists (d, files). split; [exact Hd |].
    apply in_groups_of_directory. now exists key, h.
Qed.

(** X1.  [find_duplicates] returns exactly these groups: for a directory
    [d] of the catalogue, a name key and a digest, all files of [d]
    with that key and digest, in listing order, when they are at least
    two. *)
Theorem find_duplicates_exactly
        by_size by_dir (cb : option (callback S)) (g : DuplicateGroup) :
  In g (find_duplicates fs by_size by_dir cb)
  <-> exists d files key h,
        In (d, files) by_dir
        /\ g = group_of fs d (bucket_members fs key h files)
        /\ 2 <= len (bucket_members fs key h files).
Proof. apply in_find_duplicates_iff. Qed.

(** X2.  Every group has at least two members. *)
Theorem groups_have_two_members
        by_size by_dir (cb : option (callback S)) (g : DuplicateGroup) :
  In g (find_duplicates fs by_size by_dir cb) -> 2 <= len (paths g).
Proof.
  intros Hg. apply in_find_duplicates_iff in Hg.
  destruct Hg as (d & files & key & h & _ & -> & Hlen).
  unfold group_of. cbn [paths]. now rewrite len_map.
Qed.

End GroupsExactly.

Lemma groups_have_two_members_witness :
  2 <= len (paths {| paths := ["/d/a.txt"; "/d/a (1).txt"]; size := 1;
                     directory := "/d" |}).
Proof.
  apply (groups_have_two_members Scenario.abx [] (catalogue Scenario.abx "/d")
                                 (@None (callback unit))).
  vm_compute. left. reflexivity.
Defined.

Section GroupsComplete.
Import FileInfoFacts.
Context {S : Type}.
Variable fs : FileSystem.

Lemma filter_two {A : Type} (p : A -> bool) (l1 l2 l3 : list A) (a b : A) :
  p a = true -> p b = true ->
  filter p (l1 ++ a :: l2 ++ b :: l3)
  = filter p l1 ++ a :: filter p l2 ++ b :: filter p l3.
Proof.
  intros Ha Hb. rewrite filter_app. simpl. rewrite Ha.
  rewrite filter_app. simpl. now rewrite Hb.
Qed.

(** Two files of one directory listing with the same name key and the
    same [full_hash] value are members of one group. *)
Lemma same_key_same_digest_grouped
      by_size by_dir (cb : option (callback S)) d files l1 l2 l3 f1 f2 :
  In (d, files) by_dir ->
  files = l1 ++ f1 :: l2 ++ f2 :: l3 ->
  name_key f1 = name_key f2 ->
  FileInfo.value (FileInfo.full_hash fs f1)
  = FileInfo.value (FileInfo.full_hash fs f2) ->
  exists g,
    In g (find_duplicates fs by_size by_dir cb)
    /\ directory g = d
    /\ In (FileInfo.path f1) (paths g) /\ In (FileInfo.path f2) (paths g).
Proof.
  intros Hd Hfiles Hkey Hdig.
  set (key := name_key f1). set (h := FileInfo.value (FileInfo.full_hash fs f1)).
  assert (Hm : bucket_members fs key h files
               = bucket_members fs key h l1
                 ++ f1 :: bucket_members fs key h l2
                 ++ f2 :: bucket_members fs key h l3).
  { unfold bucket_members. rewrite Hfiles. apply filter_two.
    - unfold key, h. now rewrite !String.eqb_refl.
    - unfold key, h. rewrite Hkey, Hdig. now rewrite !String.eqb_refl. }
  exists (group_of fs d (bucket_members fs key h files)).
  split; [| split; [reflexivity |]].
  - apply in_find_duplicates_iff. exists d, files, key, h.
    split; [exact Hd | split; [reflexivity |]].
    rewrite Hm. unfold len. rewrite length_app. cbn [List.length].
    rewrite length_app. cbn [List.length]. lia.
  - unfold group_of. cbn [paths]. rewrite Hm.
    split; apply in_map; apply in_or_app; right.
    + now left.
    + right. apply in_or_app. right. now left.
Qed.

(** Two records of one bucket of the catalogue whose names normalize
    alike and whose files are read with the same content are members
    of one group, whatever else the bucket holds. *)
Lemma identical_records_are_grouped
        by_size by_dir (cb : option (callback S)) d l1 l2 l3 f1 f2 content :
  In (d, l1 ++ f1 :: l2 ++ f2 :: l3) by_dir ->
  FileInfo.valid fs f1 -> FileInfo.valid fs f2 ->
  name_key f1 = name_key f2 ->
  fs_open fs (FileInfo.path f1) = Some content ->
  fs_open fs (FileInfo.path f2) = Some content ->
  exists g,
    In g (find_duplicates fs by_size by_dir cb)
    /\ directory g = d
    /\ In (FileInfo.path f1) (paths g) /\ In (FileInfo.path f2) (paths g).
Proof.
  intros Hd V1 V2 Hkey H1 H2.
  apply same_key_same_digest_grouped with (files := l1 ++ f1 :: l2 ++ f2 :: l3)
                                          (l1 := l1) (l2 := l2) (l3 := l3);
    try assumption; try reflexivity.
  rewrite !full_hash_value by assumption. unfold FileInfo.full_hash_of.
  now rewrite (try_full_hash_readable _ _ _ H1), (try_full_hash_readable _ _ _ H2).
Qed.

(** X4.  The members of a group share the name key and the [full_hash]
    value, and the size the group records is the size of its first
    member. *)
Theorem group_invariant
        by_size by_dir (cb : option (callback S)) (g : DuplicateGroup) :
  catalogue_valid fs by_dir ->
  In g (find_duplicates fs by_size by_dir cb) ->
  (exists key h files,
      In (directory g, files) by_dir
      /\ forall p, In p (paths g) ->
           exists f, In f files /\ FileInfo.path f = p
                     /\ name_key f = key
                     /\ FileInfo.full_hash_of fs p = h)
  /\ size g = FileInfo.size_of fs (hd EmptyString (paths g)).
Proof.
  intros Hvalid Hg. apply in_find_duplicates_iff in Hg.
  destruct Hg as (d & files & key & h & Hd & -> & Hlen).
  unfold group_of. cbn [paths size directory]. split.
  - exists key, h, files. split; [exact Hd |].
    intros p Hp. apply in_map_iff in Hp. destruct Hp as (f & <- & Hf).
    apply filter_In in Hf. destruct Hf as (Hf & Hb).
    apply andb_true_iff in Hb. destruct Hb as (Hk & Hh).
    apply String.eqb_eq in Hk. apply String.eqb_eq in Hh.
    exists f. repeat split; try assumption.
    rewrite <- Hh. symmetry. apply full_hash_value. exact (Hvalid _ _ _ Hd Hf).
  - destruct (bucket_members fs key h files) as [| f rest] eqn:E.
    + unfold len in Hlen. simpl in Hlen. lia.
    + cbn [map first_size hd]. apply size_after_full_hash.
      assert (Hf : In f (bucket_members fs key h files)) by (rewrite E; now left).
      apply filter_In in Hf. exact (Hvalid _ _ _ Hd (proj1 Hf)).
Qed.

End GroupsComplete.

Lemma group_invariant_witness :
  size {| paths := ["/d/a.txt"; "/d/a (1).txt"]; size := 1; directory := "/d" |}
  = FileInfo.size_of Scenario.abx "/d/a.txt".
Proof.
  refine (proj2 (group_invariant
                   Scenario.abx [] (catalogue Scenario.abx "/d")
                   (@None (callback unit))
                   {| paths := ["/d/a.txt"; "/d/a (1).txt"]; size := 1;
                      directory := "/d" |} _ _)).
  - apply catalogue_is_valid.
  - vm_compute. left. reflexivity.
Defined.

(** ** What [scan_directory] catalogues, exactly *)

Section ScanExactly.
Import FileInfoFacts.
Variable fs : FileSystem.

Lemma dict_collect_app {A K V : Type} (eqb : K -> K -> bool) (kv : A -> K * V)
      (xs ys : list A) (d : @dict K V) :
  dict_collect eqb kv (xs ++ ys) d = dict_collect eqb kv ys (dict_collect eqb kv xs d).
Proof. unfold dict_collect. apply fold_left_app. Qed.

Lemma scan_file_indices {S : Type} (cb : option (callback S)) total chunk root name
      (st : scan_state S) entries :
  scan_indices_are fs st entries ->
  scan_indices_are fs (scan_file fs cb total chunk root st name)
                   (entries ++ scanned_file fs root name).
Proof.
  intros (Hd & Hs). unfold scan_indices_are, scan_file, scanned_file.
  cbn [files_by_directory files_by_size].
  rewrite !dict_collect_app, <- Hd, <- Hs.
  destruct (0 <? _); [| now split].
  unfold dict_collect, by_size_entry. cbn [fold_left fst snd].
  rewrite size_path. split; [reflexivity |].
  now rewrite (size_value fs _ (init_valid fs _)).
Qed.

Lemma scan_names_indices {S : Type} (cb : option (callback S)) total chunk root names :
  forall (st : scan_state S) entries,
    scan_indices_are fs st entries ->
    scan_indices_are fs (fold_left (scan_file fs cb total chunk root) names st)
                     (entries ++ flat_map (scanned_file fs root) names).
Proof.
  induction names as [| name names IH]; intros st entries Hst; simpl.
  - now rewrite app_nil_r.
  - rewrite app_assoc. apply IH. now apply scan_file_indices.
Qed.

Lemma scan_walk_indices {S : Type} (cb : option (callback S)) total chunk walk :
  forall (st : scan_state S) entries,
    scan_indices_are fs st entries ->
    scan_indices_are fs (fold_left (scan_root fs cb total chunk) walk st)
                     (entries ++ scanned_entries fs walk).
Proof.
  induction walk as [| [root names] walk IH]; intros st entries Hst; simpl.
  - now rewrite app_nil_r.
  - rewrite app_assoc. apply IH. now apply scan_names_indices.
Qed.

Lemma no_files_no_entries walk : count_files walk = 0 -> scanned_entries fs walk = [].
Proof.
  induction walk as [| [root names] walk IH]; intros H; [reflexivity |].
  rewrite count_files_cons in H. cbn [snd] in H.
  pose proof (count_files_nonneg walk).
  assert (names = []) as ->
    by (destruct names; [reflexivity | unfold len in H; cbn [List.length] in H; lia]).
  cbn [scanned_entries flat_map fst snd app]. apply IH.
  unfold len in H. cbn [List.length] in H. lia.
Qed.

(** Both indices are filled from the same records: the records of the
    listed files of positive size, in walk order. *)
Lemma scan_directory_indices {S : Type} top (cb : option (callback S)) s :
  scan_indices_are fs (scan_directory fs top cb s)
                   (scanned_entries fs (fs_walk fs top)).
Proof.
  unfold scan_directory.
  destruct (Z.eqb_spec (count_files (fs_walk fs top)) 0) as [E | NE].
  - rewrite (no_files_no_entries _ E). now split.
  - apply (scan_walk_indices cb _ _ (fs_walk fs top) _ []). now split.
Qed.

Lemma scanned_entries_paths walk :
  map (fun e => FileInfo.path (snd e)) (scanned_entries fs walk)
  = filter (fun p => 0 <? FileInfo.size_of fs p) (walk_paths walk).
Proof.
  unfold scanned_entries, walk_paths.
  induction walk as [| [root names] walk IH]; [reflexivity |].
  cbn [flat_map fst snd]. rewrite map_app, filter_app, IH. f_equal.
  clear IH. induction names as [| name names IH]; [reflexivity |].
  cbn [flat_map map filter]. rewrite map_app, IH. f_equal.
  unfold scanned_file.
  rewrite (size_value fs _ (init_valid fs _)). cbn [FileInfo.path FileInfo.init].
  destruct (0 <? _); [| reflexivity].
  cbn [map snd]. now rewrite size_path.
Qed.

Lemma scanned_entries_sized walk e :
  In e (scanned_entries fs walk) ->
  exists v, FileInfo._size (snd e) = Some v /\ 0 < v
            /\ fs_getsize fs (FileInfo.path (snd e)) = Some v
            /\ FileInfo._quick_hash (snd e) = None
            /\ FileInfo._full_hash (snd e) = None.
Proof.
  unfold scanned_entries. intros He.
  apply in_flat_map in He. destruct He as ([root names] & _ & He).
  apply in_flat_map in He. destruct He as (name & _ & He).
  unfold scanned_file, FileInfo.size, FileInfo.value, FileInfo.after in He.
  cbn [FileInfo._size FileInfo.init FileInfo.path fst snd] in He.
  destruct (fs_getsize fs (OsPath.join root name)) as [v |] eqn:G;
    cbn [fst snd] in He.
  - destruct (Z.ltb_spec 0 v); [| destruct He].
    destruct He as [<- | []]. exists v. cbn. now repeat split.
  - destruct He.
Qed.

(** X5.  A path is catalogued as often as the walk lists it when
    [getsize] gives it a positive size, and not at all otherwise; every
    record of the catalogue has that size cached and no digest yet. *)
Theorem scan_directory_catalogues_positive_sizes
        {S : Type} top (cb : option (callback S)) s :
  Permutation
    (catalogue_paths (files_by_directory (scan_directory fs top cb s)))
    (filter (fun p => 0 <? FileInfo.size_of fs p) (walk_paths (fs_walk fs top)))
  /\ entries_satisfy
       (fun _ f => exists v, FileInfo._size f = Some v /\ 0 < v
                             /\ fs_getsize fs (FileInfo.path f) = Some v
                             /\ FileInfo._quick_hash f = None
                             /\ FileInfo._full_hash f = None)
       (files_by_directory (scan_directory fs top cb s)).
Proof.
  destruct (scan_directory_indices top cb s) as (Hd & _). rewrite Hd. split.
  - unfold catalogue_paths. rewrite dict_collect_values. cbn [map List.concat app].
    rewrite map_map. now rewrite scanned_entries_paths.
  - apply dict_collect_satisfy;
      [exact string_eqb_true | intros k vs v [] |].
    intros e He. now apply scanned_entries_sized with (walk := fs_walk fs top).
Qed.

(** X6.  [files_by_size] holds the same records as [files_by_directory],
    each filed under its size. *)
Theorem scan_directory_indices_agree {S : Type} top (cb : option (callback S)) s :
  Permutation
    (List.concat (map snd (files_by_size (scan_directory fs top cb s))))
    (List.concat (map snd (files_by_directory (scan_directory fs top cb s))))
  /\ entries_satisfy
       (fun k f => FileInfo._size f = Some k /\ 0 < k)
       (files_by_size (scan_directory fs top cb s)).
Proof.
  destruct (scan_directory_indices top cb s) as (Hd & Hs). rewrite Hd, Hs. split.
  - rewrite !dict_collect_values. reflexivity.
  - apply dict_collect_satisfy;
      [intros a b H; now apply Z.eqb_eq | intros k vs v [] |].
    intros e He. unfold by_size_entry. cbn [fst snd].
    destruct (scanned_entries_sized _ e He) as (v & Hc & Hpos & Hg & _).
    unfold FileInfo.size_of. rewrite Hg. now split.
Qed.

End ScanExactly.

(** ** What [DuplicateFinderThread.run] emits, exactly *)

Section RunExactly.
Variable fs : FileSystem.

(** Two callbacks that keep a relation between their states keep it
    through [scan_directory]. *)
Lemma scan_directory_related {S S' : Type} (R : S -> S' -> Prop)
      (cb : callback S) (cb' : callback S') top s s' :
  (forall v a a', R a a' -> R (fst (cb v a)) (fst (cb' v a'))) ->
  R s s' ->
  R (cb_state (scan_directory fs top (Some cb) s))
    (cb_state (scan_directory fs top (Some cb') s')).
Proof.
  intros Hstep Hs. unfold scan_directory.
  destruct (_ =? 0); [exact Hs |].
  set (RR := fun (st : scan_state S) (st' : scan_state S') =>
               R (cb_state st) (cb_state st')
               /\ processed_files st = processed_files st').
  apply (fold_left_related _ _ RR); [now split |].
  intros st st' [root names] Hst. unfold scan_root. cbn [fst snd].
  apply fold_left_related; [exact Hst |].
  intros a a' name (HR & Hp). unfold RR, scan_file. cbn [cb_state processed_files].
  rewrite Hp. split; [| reflexivity].
  destruct (_ =? 0); [now apply Hstep | exact HR].
Qed.

Lemma worker_follows_step stop_after v w l :
  worker_follows stop_after w l ->
  worker_follows stop_after
    (fst (safe_progress_callback
            (Some (DuplicateFinderThread.progress_callback stop_after)) v w))
    (fst (safe_progress_callback (Some recorder) v l)).
Proof.
  intros (Hr & He). unfold worker_follows.
  cbn [safe_progress_callback fst recorder].
  unfold DuplicateFinderThread.progress_callback, DuplicateFinderThread.is_running.
  rewrite length_app. cbn [List.length].
  destruct stop_after as [k |]; cbn [visible_progress].
  - rewrite Hr. destruct (Nat.ltb_spec (List.length l) k) as [Hlt | Hge];
      cbn [fst flag_reads emitted DuplicateFinderThread.emit
             DuplicateFinderThread.read_flag].
    + split; [lia |]. rewrite He. cbn [visible_progress].
      rewrite firstn_app, !firstn_all2 by (cbn [List.length]; lia).
      now rewrite map_app.
    + split; [lia |]. rewrite He. cbn [visible_progress].
      rewrite firstn_app.
      replace (k - List.length l)%nat with 0%nat by lia.
      now rewrite firstn_0, app_nil_r.
  - cbn [fst flag_reads emitted DuplicateFinderThread.emit
           DuplicateFinderThread.read_flag].
    split; [lia |]. rewrite He. cbn [visible_progress]. now rewrite map_app.
Qed.

(** X7.  [run] emits an error and an empty result when the directory does
    not exist.  Otherwise it passes on the progress values reported
    before [stop()] landed, and then the groups, unless [stop()] has
    landed by then: a stopped run ends without a result signal. *)
Theorem run_emits (top : string) (stop_after : option nat) :
  DuplicateFinderThread.run fs top stop_after
  = if fs_exists fs top then
      map progress_updated
          (visible_progress stop_after (reported_progress fs top))
      ++ (if stopped_by_the_end stop_after (reported_progress fs top)
          then []
          else [duplicates_found (groups_of_result (groups_found fs top))])
    else
      [error_occurred ("Directory not found: " ++ top); duplicates_found []].
Proof.
  unfold DuplicateFinderThread.run.
  destruct (fs_exists fs top); cbn [negb]; [| reflexivity].
  set (cbw := Some (DuplicateFinderThread.progress_callback stop_after)).
  set (w0 := {| flag_reads := 0; emitted := [] |}).
  assert (Hfollow : worker_follows stop_after
                      (snd (duplicate_file_finder fs top cbw w0))
                      (reported_progress fs top)).
  { unfold reported_progress, duplicate_file_finder. cbn [snd].
    apply worker_follows_step.
    apply (scan_directory_related (worker_follows stop_after)).
    - intros v a a'. apply worker_follows_step.
    - apply worker_follows_step. split; [reflexivity |].
      destruct stop_after as [[| k] |]; reflexivity. }
  assert (Hgroups : fst (duplicate_file_finder fs top cbw w0) = groups_found fs top)
    by apply finder_result_ignores_callback.
  destruct (duplicate_file_finder fs top cbw w0) as [r w] eqn:Hrun.
  cbn [fst snd] in Hfollow, Hgroups. destruct Hfollow as (Hr & He).
  assert (Hok : exists groups, r = Ok groups)
    by (unfold duplicate_file_finder in Hrun; injection Hrun as <- _; eauto).
  destruct Hok as (groups & ->). rewrite <- Hgroups. cbn [groups_of_result].
  unfold DuplicateFinderThread.is_running, stopped_by_the_end.
  cbn [emitted DuplicateFinderThread.emit DuplicateFinderThread.read_flag].
  rewrite He, Hr.
  destruct stop_after as [k |]; [| reflexivity].
  destruct (Nat.ltb_spec (List.length (reported_progress fs top)) k),
           (Nat.leb_spec k (List.length (reported_progress fs top)));
    try lia; [reflexivity | now rewrite app_nil_r].
Qed.

(** X8.  A tree without files, or a directory that [os.walk] cannot list:
    no group, no error, and the progress values 0 and 50. *)
Theorem empty_tree_gives_no_group (top : string) :
  count_files (fs_walk fs top) = 0 ->
  groups_found fs top = Ok []
  /\ reported_progress fs top = [0; 50].
Proof.
  intros Hempty. split.
  - unfold groups_found, duplicate_file_finder, scan_directory.
    cbn [fst]. rewrite Hempty. reflexivity.
  - rewrite reported_progress_closed_form, Hempty. reflexivity.
Qed.

End RunExactly.

Lemma empty_tree_gives_no_group_witness :
  groups_found empty_directory "/d" = Ok []
  /\ reported_progress empty_directory "/d" = [0; 50].
Proof.
  apply (empty_tree_gives_no_group empty_directory "/d"). reflexivity.
Defined.

(** ** How often phase 1 reports *)

Section TickCount.

Lemma multiple_step from c :
  0 <= from -> 0 < c ->
  (from + 1) / c - from / c = if (from + 1) mod c =? 0 then 1 else 0.
Proof.
  intros Hf Hc.
  pose proof (Z.div_mod from c ltac:(lia)) as H1.
  pose proof (Z.div_mod (from + 1) c ltac:(lia)) as H2.
  pose proof (Z.mod_pos_bound from c Hc) as B1.
  pose proof (Z.mod_pos_bound (from + 1) c Hc) as B2.
  destruct (Z.eqb_spec ((from + 1) mod c) 0) as [E | NE]; nia.
Qed.

Lemma multiples_count c n :
  0 < c ->
  forall from,
    0 <= from ->
    len (filter (fun k => k mod c =? 0) (counts from n))
    = (from + Z.of_nat n) / c - from / c.
Proof.
  intros Hc. induction n as [| n IH]; intros from Hfrom.
  - cbn [counts filter]. unfold len. cbn [List.length].
    rewrite Z.add_0_r. lia.
  - cbn [counts filter].
    pose proof (multiple_step from c Hfrom Hc) as Hstep.
    specialize (IH (from + 1) ltac:(lia)).
    replace (from + Z.of_nat (Datatypes.S n)) with (from + 1 + Z.of_nat n) by lia.
    destruct ((from + 1) mod c =? 0).
    + unfold len in *. cbn [List.length]. lia.
    + lia.
Qed.

Lemma phase1_ticks_count (total : Z) :
  len (phase1_ticks total) = Z.max 0 total / Z.max 1 (total / 100)
  /\ len (phase1_ticks total) <= 199.
Proof.
  assert (Hlen : len (phase1_ticks total) = Z.max 0 total / Z.max 1 (total / 100)).
  { unfold phase1_ticks. rewrite len_map.
    rewrite multiples_count by lia.
    rewrite Z.div_0_l by lia. rewrite Z.sub_0_r, Z.add_0_l.
    f_equal. lia. }
  split; [exact Hlen |]. rewrite Hlen.
  destruct (Z.le_gt_cases total 0) as [Hneg | Hpos].
  - replace (Z.max 0 total) with 0 by lia. rewrite Z.div_0_l by lia. lia.
  - replace (Z.max 0 total) with total by lia.
    pose proof (Z.div_mod total 100 ltac:(lia)) as Hd.
    pose proof (Z.mod_pos_bound total 100 ltac:(lia)) as Hm.
    assert (Hq : 0 <= total / 100) by (apply Z.div_pos; lia).
    apply Z.lt_succ_r. apply Z.div_lt_upper_bound; [lia |].
    destruct (Z.max_spec 1 (total / 100)) as [(Hc & ->) | (Hc & ->)]; lia.
Qed.

End TickCount.

(** X9.  While it scans, [scan_directory] calls the progress callback
    [total // chunk_size] times, never more than 199 times: once per
    file below 100 files, about once per percent above. *)
Theorem scan_reports_at_most_199_values (fs : FileSystem) (top : string) :
  len (scan_progress fs top)
  = count_files (fs_walk fs top) / Z.max 1 (count_files (fs_walk fs top) / 100)
  /\ len (scan_progress fs top) <= 199.
Proof.
  unfold scan_progress.
  rewrite (scan_directory_progress fs recorder (fun v s => eq_refl)). cbn [app].
  destruct (phase1_ticks_count (count_files (fs_walk fs top))) as (Hlen & Hmax).
  pose proof (count_files_nonneg (fs_walk fs top)) as Hnonneg.
  rewrite Z.max_r in Hlen by exact Hnonneg. now split.
Qed.

(** ** The digests of a file that can be read *)

(** X10.  On a record with valid caches and a file that is read without
    error, the chunked loops feed the digest all bytes ([full_hash]) or
    the first [MAX_QUICK_READ_SIZE] bytes ([quick_hash]); both digests have 32
    characters and so differ from the failure sentinel. *)
Theorem digests_of_a_readable_file
        (fs : FileSystem) (f : FileInfo.t) (content : list byte) :
  FileInfo.valid fs f ->
  fs_open fs (FileInfo.path f) = Some content ->
  FileInfo.value (FileInfo.full_hash fs f) = MD5.hexdigest content
  /\ FileInfo.value (FileInfo.quick_hash fs f)
     = MD5.hexdigest (firstn (Z.to_nat FileInfo.MAX_QUICK_READ_SIZE) content)
  /\ String.length (FileInfo.value (FileInfo.full_hash fs f)) = 32%nat
  /\ String.length (FileInfo.value (FileInfo.quick_hash fs f)) = 32%nat.
Proof.
  intros Hvalid Hopen.
  rewrite FileInfoFacts.full_hash_value, FileInfoFacts.quick_hash_value by assumption.
  unfold FileInfo.full_hash_of, FileInfo.quick_hash_of.
  rewrite (FileInfoFacts.try_full_hash_readable _ _ _ Hopen),
          (FileInfoFacts.try_quick_hash_readable _ _ _ Hopen).
  repeat split; try apply FileInfoFacts.hexdigest_length.
Qed.

Lemma digests_of_a_readable_file_witness :
  FileInfo.value (FileInfo.full_hash Scenario.abx (FileInfo.init "/d/a.txt"))
  = MD5.hexdigest (Scenario.bytes_of_string "X")
  /\ FileInfo.value (FileInfo.quick_hash Scenario.abx (FileInfo.init "/d/a.txt"))
     = MD5.hexdigest (firstn (Z.to_nat FileInfo.MAX_QUICK_READ_SIZE)
                             (Scenario.bytes_of_string "X"))
  /\ String.length
       (FileInfo.value (FileInfo.full_hash Scenario.abx (FileInfo.init "/d/a.txt")))
     = 32%nat
  /\ String.length
       (FileInfo.value (FileInfo.quick_hash Scenario.abx (FileInfo.init "/d/a.txt")))
     = 32%nat.
Proof.
  refine (digests_of_a_readable_file
            Scenario.abx (FileInfo.init "/d/a.txt") (Scenario.bytes_of_string "X") _ _).
  - apply FileInfoFacts.init_valid.
  - reflexivity.
Defined.

(** ** The normalized name is in lower case *)

Section NormalizedLowerCase.

Lemma lower_char_not_upper c : Str.is_upper (Str.lower_char c) = false.
Proof.
  destruct c as [[] [] [] [] [] [] [] []]; reflexivity.
Qed.

Lemma lower_char_fixed c : Str.is_upper c = false -> Str.lower_char c = c.
Proof. intros H. unfold Str.lower_char. now rewrite H. Qed.

Lemma lower_no_upper s : chars_satisfy no_upper (Str.lower s).
Proof.
  unfold chars_satisfy. induction s as [| c s IH]; simpl; constructor.
  - apply lower_char_not_upper.
  - exact IH.
Qed.

Lemma lower_fixed s : chars_satisfy no_upper s -> Str.lower s = s.
Proof.
  unfold chars_satisfy. induction s as [| c s IH]; simpl; intros H; [reflexivity |].
  inversion H; subst. rewrite lower_char_fixed by assumption. now rewrite IH.
Qed.

Variable P : ascii -> Prop.

Lemma chars_append s1 s2 :
  chars_satisfy P s1 -> chars_satisfy P s2 -> chars_satisfy P (s1 ++ s2).
Proof.
  unfold chars_satisfy. induction s1 as [| c s1 IH]; simpl; intros H1 H2.
  - exact H2.
  - inversion H1; subst. constructor; auto.
Qed.

Lemma chars_of_list l :
  Forall P l -> chars_satisfy P (string_of_list_ascii l).
Proof.
  unfold chars_satisfy. now rewrite list_ascii_of_string_of_list_ascii.
Qed.

Lemma chars_reverse s : chars_satisfy P s -> chars_satisfy P (Str.reverse s).
Proof.
  intros H. unfold Str.reverse. apply chars_of_list.
  apply Forall_rev. exact H.
Qed.

Lemma chars_lstrip s : chars_satisfy P s -> chars_satisfy P (Str.lstrip s).
Proof.
  unfold chars_satisfy. induction s as [| c s IH]; simpl; intros H; [exact H |].
  destruct (Str.is_space c); [| exact H]. inversion H; subst. auto.
Qed.

Lemma chars_strip s : chars_satisfy P s -> chars_satisfy P (Str.strip s).
Proof.
  intros H. unfold Str.strip, Str.rstrip.
  apply chars_reverse, chars_lstrip, chars_reverse, chars_lstrip, H.
Qed.

Lemma chars_substring s : forall n m,
  chars_satisfy P s -> chars_satisfy P (substring n m s).
Proof.
  unfold chars_satisfy.
  induction s as [| c s IH]; intros n m H.
  - destruct n, m; exact H.
  - inversion H; subst. destruct n as [| n]; simpl.
    + destruct m as [| m]; simpl; [constructor |].
      constructor; [assumption | apply (IH 0%nat m); assumption].
    + apply IH. assumption.
Qed.

Lemma chars_sub_from p s : forall pos skip,
  chars_satisfy P s -> chars_satisfy P (Re.sub_from p EmptyString pos skip s).
Proof.
  unfold chars_satisfy.
  induction s as [| c s IH]; intros pos skip H.
  - destruct skip; simpl; [| constructor].
    destruct (Re.match_at p pos EmptyString); constructor.
  - inversion H; subst. destruct skip as [| skip]; simpl.
    + destruct (Re.match_at p pos (String c s)) as [e |].
      * destruct (pos <? e)%nat; simpl.
        -- apply IH. assumption.
        -- constructor; [assumption | apply IH; assumption].
      * simpl. constructor; [assumption | apply IH; assumption].
    + apply IH. assumption.
Qed.

Lemma chars_splitext s :
  chars_satisfy P s ->
  chars_satisfy P (fst (OsPath.splitext s)) /\ chars_satisfy P (snd (OsPath.splitext s)).
Proof.
  intros H. unfold OsPath.splitext.
  destruct (_ && _); cbn [fst snd].
  - split; apply chars_substring; exact H.
  - split; [exact H | constructor].
Qed.

Lemma chars_get_normalized_name s :
  chars_satisfy P (Str.lower s) -> chars_satisfy P (get_normalized_name s).
Proof.
  intros H. unfold get_normalized_name.
  destruct (chars_splitext _ H) as (Hb & He).
  destruct (OsPath.splitext (Str.lower s)) as [basename ext]. cbn [fst snd] in *.
  apply chars_append; [| exact He].
  apply chars_strip. unfold Re.sub. apply chars_sub_from, chars_sub_from, Hb.
Qed.

End NormalizedLowerCase.

Lemma lower_char_ascii c :
  (Str.code c < 128)%nat -> (Str.code (Str.lower_char c) < 128)%nat.
Proof.
  destruct c as [[] [] [] [] [] [] [] []]; vm_compute; lia.
Qed.

Lemma lower_ascii_only s : ascii_only s -> ascii_only (Str.lower s).
Proof.
  unfold ascii_only, chars_satisfy.
  induction s as [| c s IH]; simpl; intros H; [constructor |].
  inversion H; subst. constructor; [now apply lower_char_ascii | now apply IH].
Qed.

(** X11.  For a file name of ASCII characters: the normalized name has no
    upper-case letter and is a string of ASCII characters, and names
    that differ in letter case only have the same normalized name. *)
Theorem normalized_name_ignores_case (filename : string) :
  ascii_only filename ->
  chars_satisfy no_upper (get_normalized_name filename)
  /\ ascii_only (get_normalized_name filename)
  /\ get_normalized_name (Str.lower filename) = get_normalized_name filename
  /\ Str.lower (get_normalized_name filename) = get_normalized_name filename.
Proof.
  intros Hascii.
  assert (H : chars_satisfy no_upper
                            (get_normalized_name filename))
    by (apply chars_get_normalized_name, lower_no_upper).
  split; [exact H | split; [| split]].
  - apply chars_get_normalized_name. now apply lower_ascii_only.
  - unfold get_normalized_name.
    now rewrite (lower_fixed (Str.lower filename) (lower_no_upper filename)).
  - now apply lower_fixed.
Qed.

(** Closed names, and closed lists of names, of ASCII characters. *)
Ltac ascii_name :=
  unfold ascii_only, chars_satisfy; cbn [list_ascii_of_string];
  repeat (constructor; [vm_compute; lia |]); constructor.

Ltac ascii_names := repeat (constructor; [ascii_name |]); constructor.

Lemma normalized_name_ignores_case_witness :
  get_normalized_name (Str.lower "Copy of Report (1).PDF")
  = get_normalized_name "Copy of Report (1).PDF".
Proof.
  refine (proj1 (proj2 (proj2 (normalized_name_ignores_case
                                 "Copy of Report (1).PDF" _)))).
  ascii_name.
Defined.

(** ** [organize_downloads]: rules, folders and names *)

Section OrganizeRules.

Lemma is_in_iff x l : is_in x l = true <-> In x l.
Proof.
  unfold is_in. rewrite existsb_exists. split.
  - intros (y & Hy & E). apply String.eqb_eq in E. now subst.
  - intros H. exists x. split; [exact H | apply String.eqb_refl].
Qed.

Lemma is_in_false x l : is_in x l = false <-> ~ In x l.
Proof.
  rewrite <- is_in_iff. destruct (is_in x l); split; congruence.
Qed.

Lemma matching_folder_some suffix mappings folder :
  matching_folder suffix mappings = Some folder ->
  exists extensions, In (folder, extensions) mappings /\ In suffix extensions.
Proof.
  induction mappings as [| [f exts] rest IH]; simpl; [discriminate |].
  destruct (is_in suffix exts) eqn:E.
  - intros [= <-]. exists exts. split; [now left | now apply is_in_iff].
  - intros H. destruct (IH H) as (extensions & Hin & Hs).
    exists extensions. split; [now right | exact Hs].
Qed.

Lemma matching_folder_none suffix mappings :
  matching_folder suffix mappings = None ->
  forall folder extensions,
    In (folder, extensions) mappings -> ~ In suffix extensions.
Proof.
  induction mappings as [| [f exts] rest IH]; simpl; [intros _ ? ? [] |].
  destruct (is_in suffix exts) eqn:E; [discriminate |].
  intros H folder extensions [[= <- <-] | Hin].
  - now apply is_in_false.
  - now apply IH with folder.
Qed.

Lemma parsed_rule_assigns rule folder ext :
  In (folder, ext) (parsed_rule rule) <-> rule_assigns rule ext folder.
Proof.
  unfold parsed_rule, rule_assigns. split.
  - destruct (Str.split ":" rule) as [| e [| f [| ? ?]]]; simpl; intros H;
      try contradiction.
    destruct H as [[= <- <-] | []]. now exists e, f.
  - intros (e & f & -> & <- & <-). now left.
Qed.

Lemma custom_rule_mappings_collect rules : forall d,
  fold_left add_custom_rule rules d
  = dict_collect String.eqb (fun e => e) (flat_map parsed_rule rules) d.
Proof.
  induction rules as [| rule rules IH]; intros d; [reflexivity |].
  cbn [fold_left flat_map]. unfold dict_collect in *.
  rewrite fold_left_app, IH. f_equal.
  unfold add_custom_rule, parsed_rule.
  destruct (Str.split ":" rule) as [| e [| f [| ? ?]]]; reflexivity.
Qed.

(** An entry of the mappings made of the rules holds the extensions
    the rules name for its folder. *)
Lemma custom_rule_mappings_entry rules folder extensions ext :
  In (folder, extensions) (custom_rule_mappings rules) ->
  (In ext extensions
   <-> exists rule, In rule rules /\ rule_assigns rule ext folder).
Proof.
  unfold custom_rule_mappings. rewrite custom_rule_mappings_collect.
  rewrite (dict_collect_entry String.eqb String.eqb_eq). intros (-> & _).
  unfold filed_under. rewrite in_map_iff. split.
  - intros ([f e] & <- & Hin). apply filter_In in Hin.
    destruct Hin as (Hin & E). cbn [fst snd] in *.
    apply String.eqb_eq in E. subst f.
    apply in_flat_map in Hin. destruct Hin as (rule & Hrule & Hin).
    exists rule. split; [exact Hrule | now apply parsed_rule_assigns].
  - intros (rule & Hrule & Hassign). exists (folder, ext).
    split; [reflexivity |]. apply filter_In. split.
    + apply in_flat_map. exists rule. split; [exact Hrule |].
      now apply parsed_rule_assigns.
    + apply String.eqb_refl.
Qed.

Lemma custom_rule_mappings_key rules rule ext folder :
  In rule rules -> rule_assigns rule ext folder ->
  exists extensions,
    In (folder, extensions) (custom_rule_mappings rules) /\ In ext extensions.
Proof.
  intros Hrule Hassign.
  exists (filed_under String.eqb (fun e => e) folder (flat_map parsed_rule rules)).
  assert (Hin : In ext (filed_under String.eqb (fun e : string * string => e) folder
                                    (flat_map parsed_rule rules))).
  { unfold filed_under. apply in_map_iff. exists (folder, ext).
    split; [reflexivity |]. apply filter_In. split.
    - apply in_flat_map. exists rule. split; [exact Hrule |].
      now apply parsed_rule_assigns.
    - apply String.eqb_refl. }
  split; [| exact Hin].
  unfold custom_rule_mappings. rewrite custom_rule_mappings_collect.
  apply (dict_collect_entry String.eqb String.eqb_eq). split; [reflexivity |].
  intros E. rewrite E in Hin. destruct Hin.
Qed.

End OrganizeRules.

(** X12.  With custom rules, for a file name and rules of ASCII characters:
    the folder a file is sent to is one that a rule of the form
    [extension:folder] names for the suffix of the file in lower case,
    when there is such a rule, and [Others] when there is none; rules
    of another form count for nothing. *)
Theorem custom_rules_choose_the_folder
        (saved : folder_mappings_t) (rules : list string) (item : string) :
  rules <> [] ->
  ascii_only item -> Forall ascii_only rules ->
  ((exists rule folder,
       In rule rules
       /\ rule_assigns rule (Str.lower (PurePath.suffix item)) folder) ->
   exists rule,
     In rule rules
     /\ rule_assigns rule (Str.lower (PurePath.suffix item))
                     (target_folder_name (mappings_in_use saved rules) item))
  /\ ((~ exists rule folder,
          In rule rules
          /\ rule_assigns rule (Str.lower (PurePath.suffix item)) folder) ->
      target_folder_name (mappings_in_use saved rules) item = "Others").
Proof.
  intros Hrules _ _.
  assert (Hm : mappings_in_use saved rules = custom_rule_mappings rules)
    by (destruct rules; [congruence | reflexivity]).
  rewrite Hm. clear Hm.
  set (s := Str.lower (PurePath.suffix item)).
  assert (Hsome : forall folder,
             matching_folder s (custom_rule_mappings rules) = Some folder ->
             exists rule, In rule rules /\ rule_assigns rule s folder).
  { intros folder H. apply matching_folder_some in H.
    destruct H as (extensions & Hin & Hs).
    now apply (custom_rule_mappings_entry rules folder extensions s Hin). }
  assert (Hnone : matching_folder s (custom_rule_mappings rules) = None ->
                  ~ exists rule folder, In rule rules /\ rule_assigns rule s folder).
  { intros H (rule & folder & Hrule & Hassign).
    destruct (custom_rule_mappings_key rules rule s folder Hrule Hassign)
      as (extensions & Hin & Hs).
    exact (matching_folder_none _ _ H _ _ Hin Hs). }
  unfold target_folder_name. fold s.
  destruct (matching_folder s (custom_rule_mappings rules)) as [folder |] eqn:E.
  - split; [intros _; now apply Hsome |].
    intros Hno. exfalso. apply Hno.
    destruct (Hsome folder eq_refl) as (rule & Hrule & Hassign).
    now exists rule, folder.
  - split; [| reflexivity].
    intros Hyes. exfalso. exact (Hnone eq_refl Hyes).
Qed.

Lemma custom_rules_choose_the_folder_witness :
  ((exists rule folder,
       In rule [".A : X"; "bad"; ".b:Y"; ".b:X"]
       /\ rule_assigns rule (Str.lower (PurePath.suffix "f.B")) folder) ->
   exists rule,
     In rule [".A : X"; "bad"; ".b:Y"; ".b:X"]
     /\ rule_assigns rule (Str.lower (PurePath.suffix "f.B"))
                     (target_folder_name
                        (mappings_in_use [] [".A : X"; "bad"; ".b:Y"; ".b:X"]) "f.B"))
  /\ ((~ exists rule folder,
          In rule [".A : X"; "bad"; ".b:Y"; ".b:X"]
          /\ rule_assigns rule (Str.lower (PurePath.suffix "f.B")) folder) ->
      target_folder_name (mappings_in_use [] [".A : X"; "bad"; ".b:Y"; ".b:X"]) "f.B"
      = "Others").
Proof.
  apply (custom_rules_choose_the_folder [] [".A : X"; "bad"; ".b:Y"; ".b:X"] "f.B").
  - discriminate.
  - ascii_name.
  - ascii_names.
Defined.

(** ** The name a moved file gets *)

Section TargetName.

Lemma length_append (a b : string) :
  String.length (a ++ b) = (String.length a + String.length b)%nat.
Proof. induction a as [| c a IH]; simpl; [reflexivity | now rewrite IH]. Qed.

Lemma append_cancel_l (s a b : string) : (s ++ a = s ++ b)%string -> a = b.
Proof. induction s as [| c s IH]; simpl; [auto | intros [= H]; auto]. Qed.

Lemma append_cancel_r (s : string) : forall a b : string,
  (a ++ s = b ++ s)%string -> a = b.
Proof.
  induction a as [| c a IH]; intros [| c' b] H; simpl in H.
  - reflexivity.
  - apply (f_equal String.length) in H. simpl in H. rewrite length_append in H. lia.
  - apply (f_equal String.length) in H. simpl in H. rewrite length_append in H. lia.
  - injection H as -> H. f_equal. now apply IH.
Qed.

Lemma str_of_int_inj a b : str_of_int a = str_of_int b -> a = b.
Proof.
  unfold str_of_int. intros H.
  assert (E : Some (Z.to_int a) = Some (Z.to_int b))
    by (rewrite <- !NilEmpty.isi; now rewrite H).
  injection E as E. apply (f_equal Z.of_int) in E.
  now rewrite !DecimalZ.of_to in E.
Qed.

Lemma numbered_name_inj item a b :
  numbered_name item a = numbered_name item b -> a = b.
Proof.
  unfold numbered_name. intros H.
  apply append_cancel_l in H. apply (append_cancel_l "_") in H.
  apply append_cancel_r in H. now apply str_of_int_inj.
Qed.

Lemma free_numbered_name_some taken item : forall fuel counter target,
  free_numbered_name fuel taken item counter = Some target ->
  exists k,
    counter <= k < counter + Z.of_nat fuel
    /\ target = numbered_name item k
    /\ ~ In target taken
    /\ forall j, counter <= j < k -> In (numbered_name item j) taken.
Proof.
  induction fuel as [| fuel IH]; intros counter target; simpl; [discriminate |].
  destruct (is_in (numbered_name item counter) taken) eqn:E.
  - intros H. destruct (IH _ _ H) as (k & Hk & -> & Hfree & Hbelow).
    exists k. repeat split; try lia; try assumption.
    intros j Hj. destruct (Z.eq_dec j counter) as [-> | Hne].
    + now apply is_in_iff.
    + apply Hbelow. lia.
  - intros [= <-]. exists counter. repeat split; try lia.
    now apply is_in_false.
Qed.

Lemma free_numbered_name_none taken item : forall fuel counter,
  free_numbered_name fuel taken item counter = None ->
  forall j, counter <= j < counter + Z.of_nat fuel ->
            In (numbered_name item j) taken.
Proof.
  induction fuel as [| fuel IH]; intros counter H j Hj; [lia |].
  simpl in H. destruct (is_in (numbered_name item counter) taken) eqn:E; [| discriminate].
  destruct (Z.eq_dec j counter) as [-> | Hne].
  - now apply is_in_iff.
  - apply (IH _ H). lia.
Qed.

Lemma counts_in from n k : In k (counts from n) <-> from < k <= from + Z.of_nat n.
Proof.
  revert from. induction n as [| n IH]; intros from; simpl counts.
  - simpl. lia.
  - cbn [In]. rewrite IH. lia.
Qed.

Lemma counts_NoDup from n : NoDup (counts from n).
Proof.
  revert from. induction n as [| n IH]; intros from; simpl; constructor.
  - rewrite counts_in. lia.
  - apply IH.
Qed.

(** The names numbered [1 .. n + 1] cannot all be among [n] names. *)
Lemma free_numbered_name_total taken item :
  free_numbered_name (Datatypes.S (List.length taken)) taken item 1 <> None.
Proof.
  intros H.
  pose proof (free_numbered_name_none _ _ _ _ H) as Hall.
  set (n := Datatypes.S (List.length taken)) in *.
  assert (Hincl : incl (map (numbered_name item) (counts 0 n)) taken).
  { intros x Hx. apply in_map_iff in Hx. destruct Hx as (k & <- & Hk).
    apply counts_in in Hk. apply Hall. lia. }
  assert (Hnd : NoDup (map (numbered_name item) (counts 0 n))).
  { apply NoDup_map_NoDup_ForallPairs; [| apply counts_NoDup].
    intros a b _ _. apply numbered_name_inj. }
  pose proof (NoDup_incl_length Hnd Hincl) as Hlen.
  rewrite length_map in Hlen.
  assert (Hc : forall from m, List.length (counts from m) = m).
  { intros from m. revert from. induction m; intros; simpl; [reflexivity | now f_equal]. }
  rewrite Hc in Hlen. unfold n in Hlen. lia.
Qed.

Lemma free_name_spec taken item :
  exists name,
    free_name taken item = Some name
    /\ ~ In name taken
    /\ exists k, 1 <= k <= len taken + 1
                 /\ name = numbered_name item k
                 /\ forall j, 1 <= j < k -> In (numbered_name item j) taken.
Proof.
  unfold free_name.
  destruct (free_numbered_name (Datatypes.S (List.length taken)) taken item 1)
    as [name |] eqn:F; [| now apply free_numbered_name_total in F].
  exists name. destruct (free_numbered_name_some _ _ _ _ _ F)
    as (k & Hk & -> & Hfree & Hbelow).
  split; [reflexivity |]. split; [exact Hfree |].
  exists k. unfold len. repeat split; try lia; assumption.
Qed.

(** Where the candidate names of [item] lie. *)
Lemma target_path_spec t target_folder item :
  target_path t target_folder item <> OutOfFuel
  /\ (target_path t target_folder item = LeavesFolder
      <-> In item (entries_of t target_folder)
          /\ PurePath.stem item = "." /\ parent_of target_folder = elsewhere)
  /\ forall p name,
       target_path t target_folder item = Finished (p, name) ->
       ~ In name (entries_of t p)
       /\ (~ In item (entries_of t target_folder) ->
           p = target_folder /\ name = item)
       /\ (In item (entries_of t target_folder) ->
           p = (if String.eqb (PurePath.stem item) "."
                then parent_of target_folder else target_folder)
           /\ exists k, 1 <= k <= len (entries_of t p) + 1
                        /\ name = numbered_name item k
                        /\ forall j, 1 <= j < k ->
                                     In (numbered_name item j) (entries_of t p)).
Proof.
  unfold target_path.
  destruct (is_in item (entries_of t target_folder)) eqn:E.
  - apply is_in_iff in E.
    set (q := if String.eqb (PurePath.stem item) "." then parent_of target_folder
              else target_folder).
    assert (Hq : q = elsewhere
                 -> PurePath.stem item = "." /\ parent_of target_folder = elsewhere).
    { unfold q. destruct (String.eqb_spec (PurePath.stem item) ".") as [Hs | Hs].
      - intros H. now split.
      - intros ->. simpl in E. destruct E. }
    assert (Hq' : PurePath.stem item = "." -> parent_of target_folder = elsewhere
                  -> q = elsewhere).
    { unfold q. intros -> H. now rewrite String.eqb_refl. }
    destruct (free_name_spec (entries_of t q) item) as (name & F & Hfree & Hk).
    destruct q eqn:Eq.
    + rewrite F. split; [discriminate |]. split.
      * split; [discriminate |]. intros (_ & Hs & Hp). specialize (Hq' Hs Hp).
        discriminate.
      * intros p name' [= <- <-]. split; [exact Hfree |].
        split; [intros H; contradiction | intros _; now split].
    + rewrite F. split; [discriminate |]. split.
      * split; [discriminate |]. intros (_ & Hs & Hp). specialize (Hq' Hs Hp).
        discriminate.
      * intros p name' [= <- <-]. split; [exact Hfree |].
        split; [intros H; contradiction | intros _; now split].
    + split; [discriminate |]. split.
      * split; [intros _ | reflexivity]. destruct (Hq eq_refl). now split.
      * intros p name' [=].
  - apply is_in_false in E. split; [discriminate |]. split.
    + split; [discriminate | intros (H & _); contradiction].
    + intros p name [= <- <-]. split; [exact E |].
      split; [intros _; now split | intros H; contradiction].
Qed.

End TargetName.

(** X13.  The path a file is moved to does not exist: the naming loop comes
    to an end, within one turn more than there are entries where the
    candidates lie.  The path is the name of the file in the target
    folder when that is free.  Otherwise it is the numbered name with
    the least number from 1 that is free where the candidates lie,
    which is the target folder, or its parent when the stem of the
    file is a dot; the run leaves the folder exactly when that parent
    is not the folder. *)
Theorem moved_file_gets_a_free_name
        (t : folder_tree) (target_folder : place) (item : string) :
  target_path t target_folder item <> OutOfFuel
  /\ (target_path t target_folder item = LeavesFolder
      <-> In item (entries_of t target_folder)
          /\ PurePath.stem item = "." /\ parent_of target_folder = elsewhere)
  /\ forall p name,
       target_path t target_folder item = Finished (p, name) ->
       ~ In name (entries_of t p)
       /\ (~ In item (entries_of t target_folder) ->
           p = target_folder /\ name = item)
       /\ (In item (entries_of t target_folder) ->
           p = (if String.eqb (PurePath.stem item) "."
                then parent_of target_folder else target_folder)
           /\ exists k, 1 <= k <= len (entries_of t p) + 1
                        /\ name = numbered_name item k
                        /\ forall j, 1 <= j < k ->
                                     In (numbered_name item j) (entries_of t p)).
Proof. apply target_path_spec. Qed.

(** ** [organize_downloads]: the whole run *)

Section OrganizeRun.
Variable os : os_answers.
Variable folder_mappings : folder_mappings_t.

Lemma remove_name_in name l x :
  In x (remove_name name l) <-> In x l /\ x <> name.
Proof.
  unfold remove_name. rewrite filter_In, negb_true_iff.
  split; intros (H & E); (split; [exact H |]).
  - intros ->. now rewrite String.eqb_refl in E.
  - now apply String.eqb_neq.
Qed.

Lemma remove_name_absent name l : ~ In name l -> remove_name name l = l.
Proof.
  induction l as [| x l IH]; simpl; [reflexivity |]. intros H.
  destruct (String.eqb_spec x name) as [-> | Hne]; simpl.
  - exfalso. apply H. now left.
  - f_equal. apply IH. intros Hin. apply H. now right.
Qed.

Lemma remove_name_len name l :
  NoDup l -> In name l -> len (remove_name name l) = len l - 1.
Proof.
  unfold len. induction l as [| x l IH]; [intros _ [] |].
  intros Hnd Hin. apply NoDup_cons_iff in Hnd as (Hx & Hnd).
  unfold remove_name. cbn [filter]. fold (remove_name name l).
  destruct (String.eqb_spec x name) as [-> | Hne]; cbn [negb List.length].
  - rewrite (remove_name_absent _ _ Hx). lia.
  - destruct Hin as [-> | Hin]; [contradiction |].
    specialize (IH Hnd Hin). lia.
Qed.

Lemma remove_name_NoDup name l : NoDup l -> NoDup (remove_name name l).
Proof. apply NoDup_filter. Qed.

Lemma dict_append_keys_in (k : string) (v : string) (d : @dict string string) x :
  In x (map fst (dict_append String.eqb k v d)) <-> x = k \/ In x (map fst d).
Proof.
  induction d as [| [k' vs] d IH]; simpl.
  - split; [intros [<- | []]; now left | intros [-> | []]; now left].
  - destruct (String.eqb_spec k k') as [-> | Hne]; simpl.
    + split; [tauto | intros [-> | H]; tauto].
    + rewrite IH. split; [tauto | tauto].
Qed.

Lemma dict_append_keys_NoDup (k v : string) (d : @dict string string) :
  NoDup (map fst d) -> NoDup (map fst (dict_append String.eqb k v d)).
Proof.
  induction d as [| [k' vs] d IH]; simpl; intros Hnd.
  - repeat constructor. intros [].
  - apply NoDup_cons_iff in Hnd as (Hk & Hnd).
    destruct (String.eqb_spec k k') as [-> | Hne]; simpl.
    + now constructor.
    + constructor; [| now apply IH].
      rewrite dict_append_keys_in. intros [-> | H]; [now apply Hne | contradiction].
Qed.

Lemma dict_append_entries_NoDup (k v : string) (d : @dict string string) :
  Forall (fun e => NoDup (snd e)) d ->
  ~ In v (dict_values String.eqb k d) ->
  Forall (fun e => NoDup (snd e)) (dict_append String.eqb k v d).
Proof.
  induction d as [| [k' vs] d IH]; simpl; intros Hall Hv.
  - repeat constructor. intros [].
  - apply Forall_cons_iff in Hall as (Hvs & Hall). cbn [snd] in Hvs.
    destruct (String.eqb k k'); constructor; cbn [snd]; auto.
    apply NoDup_app; [exact Hvs | repeat constructor; intros [] |].
    intros x Hx [<- | []]. contradiction.
Qed.

Lemma dict_append_entries_count (k v : string) (d : @dict string string) :
  entries_count (dict_append String.eqb k v d) = entries_count d + 1.
Proof.
  unfold entries_count, len.
  induction d as [| [k' vs] d IH]; simpl; [reflexivity |].
  destruct (String.eqb k k'); simpl.
  - rewrite length_app. simpl. lia.
  - rewrite IH. lia.
Qed.

Lemma kept_refl t : kept t t.
Proof. unfold kept. repeat split; auto. intros x Hx. exact Hx. Qed.

Lemma kept_trans t t1 t2 : kept t t1 -> kept t1 t2 -> kept t t2.
Proof.
  intros (A1 & A2 & A3) (B1 & B2 & B3). unfold kept. repeat split.
  - lia.
  - intros d name H. auto.
  - intros x Hx. auto.
Qed.

Lemma tidy_top_entries t : tidy t -> NoDup (top_entries t).
Proof.
  intros (Hf & Hk & _ & Hd). unfold top_entries.
  apply NoDup_app; [exact Hf | exact Hk | exact Hd].
Qed.

Lemma dict_values_new_dir (d : @dict string string) name k :
  dict_values String.eqb k (d ++ [(name, [])]) = dict_values String.eqb k d.
Proof.
  induction d as [| [k' vs] d IH]; simpl.
  - now destruct (String.eqb k name).
  - now destruct (String.eqb k k').
Qed.

Lemma entries_count_new_dir (d : @dict string string) name :
  entries_count (d ++ [(name, [])]) = entries_count d.
Proof.
  unfold entries_count, sum_Z. rewrite map_app, fold_right_app. reflexivity.
Qed.

(** [mkdir] keeps the files and the entries. *)
Lemma mkdir_spec t target_folder t1 :
  tidy t -> mkdir os t target_folder = Some t1 ->
  tidy t1 /\ top_files t1 = top_files t /\ kept t t1
  /\ (forall d, dict_values String.eqb d (top_dirs t1)
                = dict_values String.eqb d (top_dirs t))
  /\ forall d, target_folder = subdirectory d -> In d (map fst (top_dirs t1)).
Proof.
  intros Htidy. pose proof Htidy as (Hf & Hk & He & Hd).
  destruct target_folder as [| name |]; cbn [mkdir].
  - intros [= <-]. repeat split; try assumption; try apply kept_refl; discriminate.
  - destruct (is_dir t name) eqn:Edir.
    + intros [= <-]. repeat split; try assumption; try apply kept_refl.
      intros d [= <-]. now apply is_in_iff.
    + destruct (is_in name (top_files t)) eqn:Efile; [discriminate |].
      destruct (mkdir_succeeds os name); [| discriminate].
      intros [= <-]. cbn [top_files top_dirs].
      apply is_in_false in Edir. apply is_in_false in Efile.
      split; [| split; [reflexivity | split; [| split]]].
      * unfold tidy. cbn [top_files top_dirs]. rewrite map_app. cbn [map fst].
        repeat split.
        -- exact Hf.
        -- apply NoDup_app; [exact Hk | repeat constructor; intros [] |].
           intros x Hx [<- | []]. contradiction.
        -- apply Forall_app. split; [exact He |]. repeat constructor.
        -- intros x Hx Hin. apply in_app_or in Hin.
           destruct Hin as [Hin | [<- | []]]; [exact (Hd _ Hx Hin) | contradiction].
      * unfold kept. cbn [top_files top_dirs]. rewrite entries_count_new_dir.
        repeat split.
        -- intros d x Hx. now rewrite dict_values_new_dir.
        -- intros x Hx. rewrite map_app. apply in_or_app. now left.
      * intros d. apply dict_values_new_dir.
      * intros d [= <-]. rewrite map_app. apply in_or_app. right. now left.
  - intros [= <-]. repeat split; try assumption; try apply kept_refl; discriminate.
Qed.

Lemma mkdir_fails t target_folder :
  mkdir os t target_folder = None ->
  exists d, target_folder = subdirectory d
            /\ ~ In d (map fst (top_dirs t))
            /\ (In d (top_files t) \/ mkdir_succeeds os d = false).
Proof.
  destruct target_folder as [| name |]; cbn [mkdir]; try discriminate.
  destruct (is_dir t name) eqn:Edir; [discriminate |].
  apply is_in_false in Edir. intros H. exists name.
  split; [reflexivity | split; [exact Edir |]].
  destruct (is_in name (top_files t)) eqn:Efile; [left; now apply is_in_iff |].
  destruct (mkdir_succeeds os name); [discriminate | now right].
Qed.

(** A move to a path that does not exist keeps the tree tidy. *)
Lemma move_spec t item p name :
  tidy t -> In item (top_files t) -> p <> elsewhere ->
  (forall d, p = subdirectory d -> In d (map fst (top_dirs t))) ->
  ~ In name (entries_of t p) ->
  tidy (move t item p name) /\ kept t (move t item p name).
Proof.
  intros Htidy Hitem Hp Hkey Hfree. pose proof Htidy as (Hf & Hk & He & Hd).
  destruct p as [| d |]; [| | congruence]; cbn [move entries_of] in *.
  - assert (Hnf : ~ In name (top_files t))
      by (intros H; apply Hfree; unfold top_entries; apply in_or_app; now left).
    assert (Hnk : ~ In name (map fst (top_dirs t)))
      by (intros H; apply Hfree; unfold top_entries; apply in_or_app; now right).
    split.
    + unfold tidy. cbn [top_files top_dirs]. repeat split; try assumption.
      * apply NoDup_app; [now apply remove_name_NoDup | repeat constructor; intros [] |].
        intros x Hx [<- | []]. apply remove_name_in in Hx. tauto.
      * intros x Hx Hin. apply in_app_or in Hx.
        destruct Hx as [Hx | [<- | []]]; [| contradiction].
        apply remove_name_in in Hx. exact (Hd _ (proj1 Hx) Hin).
    + unfold kept. cbn [top_files top_dirs]. repeat split; auto.
      * unfold len. rewrite length_app. cbn [List.length].
        pose proof (remove_name_len _ _ Hf Hitem) as Hl. unfold len in Hl. lia.
      * intros x Hx. exact Hx.
  - split.
    + unfold tidy. cbn [top_files top_dirs]. repeat split.
      * now apply remove_name_NoDup.
      * now apply dict_append_keys_NoDup.
      * now apply dict_append_entries_NoDup.
      * intros x Hx Hin. apply remove_name_in in Hx.
        apply dict_append_keys_in in Hin. destruct Hin as [-> | Hin].
        -- exact (Hd _ (proj1 Hx) (Hkey d eq_refl)).
        -- exact (Hd _ (proj1 Hx) Hin).
    + unfold kept. cbn [top_files top_dirs].
      rewrite dict_append_entries_count, (remove_name_len _ _ Hf Hitem).
      repeat split; try lia.
      * intros f x Hx.
        rewrite (dict_values_append String.eqb String.eqb_eq). apply in_or_app. now left.
      * intros x Hx. apply dict_append_keys_in. now right.
Qed.

Lemma target_path_place t target_folder item p name :
  target_folder <> elsewhere ->
  target_path t target_folder item = Finished (p, name) ->
  p = the_folder \/ p = target_folder.
Proof.
  intros Hinside. unfold target_path.
  destruct (is_in item (entries_of t target_folder));
    [| intros [= <- <-]; now right].
  destruct (String.eqb (PurePath.stem item) "."), target_folder as [| d |];
    cbn [parent_of]; try congruence;
    match goal with
    | |- context [free_name ?l ?i] => destruct (free_name l i)
    end; intros [= <- <-]; auto.
Qed.

(** One turn of the loop, whatever the target folder. *)
Lemma organize_item_keeps t n item :
  tidy t ->
  organize_item os folder_mappings (t, n) item <> OutOfFuel
  /\ (stays_inside folder_mappings item ->
      exists st', organize_item os folder_mappings (t, n) item = Finished st')
  /\ forall t' n',
       organize_item os folder_mappings (t, n) item = Finished (t', n') ->
       tidy t' /\ kept t t' /\ n <= n' <= n + 1.
Proof.
  intros Htidy. unfold organize_item, stays_inside.
  destruct (is_in item (top_files t)) eqn:Efile; cbn [negb].
  2:{ split; [discriminate |]. split; [intros _; now eexists |].
      intros t' n' [= <- <-]. split; [exact Htidy |]. split; [apply kept_refl | lia]. }
  apply is_in_iff in Efile.
  set (target_folder := target_folder_of (target_folder_name folder_mappings item)).
  assert (Hmain :
    target_folder <> elsewhere ->
    match mkdir os t target_folder with
    | Some t1 =>
        match target_path t1 target_folder item with
        | Finished (p, name) =>
            if move_succeeds os item
            then Finished (move t1 item p name, n + 1)
            else Finished (t1, n)
        | LeavesFolder => LeavesFolder
        | OutOfFuel => OutOfFuel
        end
    | None => Finished (t, n)
    end <> OutOfFuel
    /\ ((target_folder = the_folder -> PurePath.stem item <> ".") ->
        exists st',
          match mkdir os t target_folder with
          | Some t1 =>
              match target_path t1 target_folder item with
              | Finished (p, name) =>
                  if move_succeeds os item
                  then Finished (move t1 item p name, n + 1)
                  else Finished (t1, n)
              | LeavesFolder => LeavesFolder
              | OutOfFuel => OutOfFuel
              end
          | None => Finished (t, n)
          end = Finished st')
    /\ forall t' n',
         match mkdir os t target_folder with
         | Some t1 =>
             match target_path t1 target_folder item with
             | Finished (p, name) =>
                 if move_succeeds os item
                 then Finished (move t1 item p name, n + 1)
                 else Finished (t1, n)
             | LeavesFolder => LeavesFolder
             | OutOfFuel => OutOfFuel
             end
         | None => Finished (t, n)
         end = Finished (t', n') ->
         tidy t' /\ kept t t' /\ n <= n' <= n + 1).
  { intros Hinside.
    destruct (mkdir os t target_folder) as [t1 |] eqn:Emk.
    2:{ split; [discriminate |]. split; [intros _; now eexists |].
        intros t' n' [= <- <-]. split; [exact Htidy |].
        split; [apply kept_refl | lia]. }
    destruct (mkdir_spec _ _ _ Htidy Emk) as (Htidy1 & Hfiles1 & Hkept1 & Hvals1 & Hkey1).
    destruct (target_path_spec t1 target_folder item) as (Hfuel & Hleave & Hfin).
    destruct (target_path t1 target_folder item) as [[p name] | |] eqn:Etp;
      [| | congruence].
    - destruct (Hfin p name eq_refl) as (Hfree & Hown & Hnum).
      assert (Hp : p <> elsewhere /\
                   forall d, p = subdirectory d -> In d (map fst (top_dirs t1))).
      { destruct (target_path_place _ _ _ _ _ Hinside Etp) as [-> | ->].
        - split; discriminate.
        - split; [exact Hinside | exact Hkey1]. }
      destruct Hp as (Hp & Hkeyp).
      assert (Hitem1 : In item (top_files t1)) by (rewrite Hfiles1; exact Efile).
      destruct (move_spec t1 item p name Htidy1 Hitem1 Hp Hkeyp Hfree) as (Htidy2 & Hkept2).
      split; [destruct (move_succeeds os item); discriminate |].
      split; [intros _; destruct (move_succeeds os item); now eexists |].
      intros t' n'. destruct (move_succeeds os item); intros [= <- <-].
      + split; [exact Htidy2 |]. split; [exact (kept_trans _ _ _ Hkept1 Hkept2) | lia].
      + split; [exact Htidy1 |]. split; [exact Hkept1 | lia].
    - split; [discriminate |]. split; [| intros t' n' [=]].
      intros Hstem. exfalso.
      destruct (proj1 Hleave eq_refl) as (_ & Hs & Hpar).
      destruct target_folder as [| d0 |]; cbn [parent_of] in Hpar;
        [exact (Hstem eq_refl Hs) | discriminate | congruence]. }
  destruct target_folder as [| d |] eqn:Etf.
  - destruct (Hmain ltac:(discriminate)) as (H1 & H2 & H3).
    split; [exact H1 |]. split; [| exact H3].
    intros Hstem. apply H2. intros _. exact Hstem.
  - destruct (Hmain ltac:(discriminate)) as (H1 & H2 & H3).
    split; [exact H1 |]. split; [| exact H3].
    intros _. apply H2. discriminate.
  - split; [discriminate |]. split; [intros [] | intros t' n' [=]].
Qed.

Lemma organize_items_keeps items : forall t n,
  tidy t ->
  organize_items os folder_mappings (t, n) items <> OutOfFuel
  /\ (Forall (stays_inside folder_mappings) items ->
      exists st', organize_items os folder_mappings (t, n) items = Finished st')
  /\ forall t' n',
       organize_items os folder_mappings (t, n) items = Finished (t', n') ->
       tidy t' /\ kept t t' /\ n <= n' <= n + len items.
Proof.
  induction items as [| item rest IH]; intros t n Htidy.
  - split; [discriminate |]. split; [intros _; now eexists |].
    intros t' n' [= <- <-]. split; [exact Htidy |].
    split; [apply kept_refl | unfold len; simpl; lia].
  - destruct (organize_item_keeps t n item Htidy) as (Hfuel & Htotal & Hfin).
    cbn [organize_items].
    destruct (organize_item os folder_mappings (t, n) item) as [[t1 n1] | |] eqn:E;
      [| | congruence].
    + destruct (Hfin t1 n1 eq_refl) as (Htidy1 & Hkept1 & Hn1).
      destruct (IH t1 n1 Htidy1) as (Hfuel' & Htotal' & Hfin').
      split; [exact Hfuel' |]. split.
      * intros Hall. apply Forall_cons_iff in Hall. apply Htotal'. tauto.
      * intros t' n' Hrun. destruct (Hfin' t' n' Hrun) as (Htidy' & Hkept' & Hn').
        split; [exact Htidy' |]. split; [exact (kept_trans _ _ _ Hkept1 Hkept') |].
        unfold len in *. cbn [List.length]. lia.
    + split; [discriminate |]. split; [| intros t' n' [=]].
      intros Hall. apply Forall_cons_iff in Hall.
      destruct (Htotal (proj1 Hall)) as (st' & [=]).
Qed.

(** *** Files that go to subdirectories *)

Lemma sorted_refl t : sorted_into_subdirectories folder_mappings t t.
Proof.
  unfold sorted_into_subdirectories. split; [intros x Hx; exact Hx |].
  split; [apply kept_refl |]. intros item Hin Hout. contradiction.
Qed.

Lemma sorted_trans t t1 t2 :
  sorted_into_subdirectories folder_mappings t t1 ->
  sorted_into_subdirectories folder_mappings t1 t2 ->
  sorted_into_subdirectories folder_mappings t t2.
Proof.
  intros (A1 & A2 & A3) (B1 & B2 & B3).
  split; [intros x Hx; auto |]. split; [exact (kept_trans _ _ _ A2 B2) |].
  intros item Hin Hout.
  destruct A2 as (_ & Astay & _). destruct B2 as (_ & Bstay & _).
  destruct (in_dec string_dec item (top_files t1)) as [Hmid | Hmid].
  - destruct (B3 item Hmid Hout) as (target & Ht & Hn & Hnew).
    exists target. repeat split; auto.
  - destruct (A3 item Hin Hmid) as (target & Ht & Hn & Hnew).
    exists target. repeat split; auto.
Qed.

Lemma held_back_earlier t t1 item :
  sorted_into_subdirectories folder_mappings t t1 ->
  held_back os folder_mappings t1 item -> held_back os folder_mappings t item.
Proof.
  intros (Hincl & (_ & _ & Hdirs) & _) [(Hf & Hd) | [(Hd & Hm) | Hm]].
  - left. split; auto.
  - right. left. split; auto.
  - right. right. exact Hm.
Qed.

(** One turn of the loop on a file that goes to a subdirectory. *)
Lemma organize_item_places t n item t' n' :
  tidy t -> goes_to_a_subdirectory folder_mappings item ->
  organize_item os folder_mappings (t, n) item = Finished (t', n') ->
  sorted_into_subdirectories folder_mappings t t'
  /\ n' - n = len (top_files t) - len (top_files t')
  /\ (In item (top_files t') -> held_back os folder_mappings t item).
Proof.
  intros Htidy (Htarget & Hstem) Hrun.
  destruct (organize_item_keeps t n item Htidy) as (_ & _ & Hfin).
  destruct (Hfin t' n' Hrun) as (Htidy' & Hkept & _).
  unfold organize_item in Hrun.
  destruct (is_in item (top_files t)) eqn:Efile; cbn [negb] in Hrun.
  2:{ injection Hrun as <- <-. split; [apply sorted_refl |]. split; [lia |].
      intros H. apply is_in_false in Efile. contradiction. }
  apply is_in_iff in Efile. rewrite Htarget in Hrun.
  set (d := subdirectory_of folder_mappings item) in *.
  destruct (mkdir os t (subdirectory d)) as [t1 |] eqn:Emk.
  2:{ injection Hrun as <- <-. split; [apply sorted_refl |]. split; [lia |].
      intros _. destruct (mkdir_fails _ _ Emk) as (d' & [= <-] & Hnk & Hwhy).
      destruct Hwhy as [Hf | Hm]; [left; now split | right; left; now split]. }
  destruct (mkdir_spec _ _ _ Htidy Emk) as (Htidy1 & Hfiles1 & Hkept1 & Hvals1 & Hkey1).
  destruct (target_path_spec t1 (subdirectory d) item) as (_ & _ & Hspec).
  destruct (target_path t1 (subdirectory d) item) as [[p name] | |] eqn:Etp;
    [| discriminate | discriminate].
  destruct (Hspec p name eq_refl) as (Hfree & Hown & Hnum).
  assert (Hp : p = subdirectory d /\ named_after name item).
  { destruct (in_dec string_dec item (entries_of t1 (subdirectory d))) as [Hin | Hout].
    - destruct (Hnum Hin) as (Hpeq & k & Hk & -> & _).
      destruct (String.eqb_spec (PurePath.stem item) "."); [contradiction |].
      split; [exact Hpeq |]. right. exists k. split; [lia | reflexivity].
    - destruct (Hown Hout) as (-> & ->). split; [reflexivity | now left]. }
  destruct Hp as (-> & Hnamed). cbn [entries_of] in Hfree.
  destruct (move_succeeds os item) eqn:Emove; injection Hrun as <- <-.
  - cbn [move top_files top_dirs] in *. rewrite Hfiles1 in Hkept |- *.
    split; [| split].
    + split; [intros x Hx; apply remove_name_in in Hx; tauto |].
      split; [exact Hkept |].
      intros x Hx Hout.
      assert (x = item) as ->.
      { destruct (string_dec x item) as [E | Hne]; [exact E |].
        exfalso. apply Hout. apply remove_name_in. now split. }
      unfold placed. cbn [top_dirs]. exists name. fold d.
      split; [| split; [exact Hnamed |]].
      * rewrite (dict_values_append String.eqb String.eqb_eq), String.eqb_refl.
        apply in_or_app. right. now left.
      * now rewrite <- Hvals1.
    + pose proof Htidy as (Hf & _).
      rewrite (remove_name_len _ _ Hf Efile). lia.
    + intros H. apply remove_name_in in H. destruct H as (_ & H). now contradiction H.
  - split; [| split].
    + split; [rewrite Hfiles1; intros x Hx; exact Hx |].
      split; [exact Hkept |].
      intros x Hx Hout. rewrite Hfiles1 in Hout. contradiction.
    + rewrite Hfiles1. lia.
    + intros _. right. right. exact Emove.
Qed.

Lemma organize_items_places items : forall t n t' n',
  tidy t -> Forall (goes_to_a_subdirectory folder_mappings) items ->
  organize_items os folder_mappings (t, n) items = Finished (t', n') ->
  sorted_into_subdirectories folder_mappings t t'
  /\ n' - n = len (top_files t) - len (top_files t')
  /\ forall item, In item items -> In item (top_files t') ->
                  held_back os folder_mappings t item.
Proof.
  induction items as [| item rest IH]; intros t n t' n' Htidy Hall Hrun.
  - injection Hrun as <- <-. split; [apply sorted_refl |]. split; [lia | intros ? []].
  - apply Forall_cons_iff in Hall. destruct Hall as (Hitem & Hrest).
    cbn [organize_items] in Hrun.
    destruct (organize_item os folder_mappings (t, n) item) as [[t1 n1] | |] eqn:E;
      try discriminate.
    destruct (organize_item_keeps t n item Htidy) as (_ & _ & Hfin).
    destruct (Hfin t1 n1 E) as (Htidy1 & _ & _).
    destruct (organize_item_places t n item t1 n1 Htidy Hitem E) as (Hs1 & Hn1 & Hb1).
    destruct (IH t1 n1 t' n' Htidy1 Hrest Hrun) as (Hs2 & Hn2 & Hb2).
    split; [exact (sorted_trans _ _ _ Hs1 Hs2) |]. split; [lia |].
    intros x [<- | Hx] Hleft.
    + apply Hb1. destruct Hs2 as (Hincl & _). auto.
    + exact (held_back_earlier _ _ _ Hs1 (Hb2 x Hx Hleft)).
Qed.

End OrganizeRun.


(** Closed lists of distinct names. *)
Ltac distinct_names :=
  repeat (constructor; [simpl; intuition discriminate |]); constructor.

Lemma downloads_tidy : tidy downloads.
Proof.
  unfold tidy, downloads. cbn [top_files top_dirs map fst].
  split; [distinct_names | split; [distinct_names | split]].
  - constructor; [cbn [snd]; distinct_names |].
    constructor; [cbn [snd]; distinct_names | constructor].
  - intros name H1 H2. simpl in H1, H2. intuition (subst; discriminate).
Qed.


(** X15.  Where a listed file ends when names and rules are of ASCII
    characters, the target folder of every listed name is a
    subdirectory and no stem is a dot.  The run finishes; no
    file comes to the folder, and the count of the final log line is
    the number of files that left it.  The file is in its
    subdirectory, under its own name or a numbered one that was free
    there; or it is where it was, and then [mkdir] raised (a file of
    the folder has the name of the subdirectory, or the operating
    system refused) or the move raised. *)
Theorem organize_downloads_places_each_file
        (os : os_answers) (saved : folder_mappings_t) (custom_rules : list string)
        (t : folder_tree) (items : list string) (item : string) :
  tidy t ->
  Forall ascii_only items -> Forall ascii_only custom_rules ->
  Forall (goes_to_a_subdirectory (mappings_in_use saved custom_rules)) items ->
  In item (top_files t) -> In item items ->
  exists t' n,
    organize_downloads os saved custom_rules t items = Finished (t', n)
    /\ n = len (top_files t) - len (top_files t')
    /\ incl (top_files t') (top_files t)
    /\ ((In item (top_files t')
         /\ held_back os (mappings_in_use saved custom_rules) t item)
        \/ (~ In item (top_files t')
            /\ placed (mappings_in_use saved custom_rules) t t' item)).
Proof.
  intros Htidy _ _ Hall Hfile Hlisted. unfold organize_downloads.
  set (m := mappings_in_use saved custom_rules) in *.
  destruct (organize_items_keeps os m items t 0 Htidy) as (_ & Htotal & _).
  destruct Htotal as ([t' n] & E).
  { eapply Forall_impl; [| exact Hall]. intros x (Hx & _).
    unfold stays_inside. now rewrite Hx. }
  exists t', n. split; [exact E |].
  destruct (organize_items_places os m items t 0 t' n Htidy Hall E)
    as ((Hincl & _ & Hplaced) & Hn & Hheld).
  split; [lia |]. split; [exact Hincl |].
  destruct (in_dec string_dec item (top_files t')) as [Hleft | Hgone].
  - left. split; [exact Hleft | now apply Hheld].
  - right. split; [exact Hgone | now apply Hplaced].
Qed.

Lemma downloads_go_to_subdirectories :
  Forall (goes_to_a_subdirectory (mappings_in_use saved_mappings []))
         downloads_listing.
Proof.
  unfold downloads_listing.
  repeat (constructor; [split; [vm_compute; reflexivity | vm_compute; discriminate] |]).
  constructor.
Qed.

Lemma organize_downloads_places_each_file_witness :
  exists t' n,
    organize_downloads
      {| mkdir_succeeds := fun _ => true; move_succeeds := fun _ => true |}
      saved_mappings [] downloads downloads_listing
    = Finished (t', n)
    /\ n = len (top_files downloads) - len (top_files t')
    /\ incl (top_files t') (top_files downloads)
    /\ ((In "a.png" (top_files t')
         /\ held_back
              {| mkdir_succeeds := fun _ => true; move_succeeds := fun _ => true |}
              (mappings_in_use saved_mappings []) downloads "a.png")
        \/ (~ In "a.png" (top_files t')
            /\ placed (mappings_in_use saved_mappings []) downloads t' "a.png")).
Proof.
  apply (organize_downloads_places_each_file
           {| mkdir_succeeds := fun _ => true; move_succeeds := fun _ => true |}
           saved_mappings [] downloads downloads_listing "a.png").
  - apply downloads_tidy.
  - unfold downloads_listing. ascii_names.
  - constructor.
  - apply downloads_go_to_subdirectories.
  - left. reflexivity.
  - left. reflexivity.
Defined.

(** ** The dialog of the extension mappings *)

Section MappingDialog.
Import ExtensionMappingDialog.

Lemma dict_append_new_key (k v : string) (d : @dict string string) :
  ~ In k (map fst d) -> dict_append String.eqb k v d = d ++ [(k, [v])].
Proof.
  induction d as [| [k' vs] d IH]; simpl; intros H; [reflexivity |].
  destruct (String.eqb_spec k k') as [-> | Hne].
  - exfalso. apply H. now left.
  - f_equal. apply IH. intros Hin. apply H. now right.
Qed.

Lemma dict_append_last_key (k v : string) (d : @dict string string) vs :
  ~ In k (map fst d) ->
  dict_append String.eqb k v (d ++ [(k, vs)]) = d ++ [(k, vs ++ [v])].
Proof.
  induction d as [| [k' vs'] d IH]; simpl; intros H.
  - now rewrite String.eqb_refl.
  - destruct (String.eqb_spec k k') as [-> | Hne].
    + exfalso. apply H. now left.
    + f_equal. apply IH. intros Hin. apply H. now right.
Qed.

Lemma collect_rows_of_folder folder (d : @dict string string) :
  ~ In folder (map fst d) ->
  forall extensions done,
    dict_collect String.eqb (fun row : string * string => (snd row, fst row))
                 (map (fun ext => (ext, folder)) extensions)
                 (d ++ [(folder, done)])
    = d ++ [(folder, done ++ extensions)].
Proof.
  intros Hnew. induction extensions as [| ext extensions IH]; intros done.
  - simpl. now rewrite app_nil_r.
  - unfold dict_collect in *. cbn [map fold_left fst snd].
    rewrite dict_append_last_key by exact Hnew.
    rewrite IH. now rewrite <- app_assoc.
Qed.

Lemma collect_rows_of_new_folder folder (d : @dict string string) extensions :
  ~ In folder (map fst d) ->
  dict_collect String.eqb (fun row : string * string => (snd row, fst row))
               (map (fun ext => (ext, folder)) extensions) d
  = d ++ (if len extensions =? 0 then [] else [(folder, extensions)]).
Proof.
  intros Hnew. destruct extensions as [| ext extensions].
  - simpl. now rewrite app_nil_r.
  - unfold len. cbn [List.length]. rewrite Nat2Z.inj_succ.
    destruct (Z.eqb_spec (Z.succ (Z.of_nat (List.length extensions))) 0) as [E | _];
      [lia |].
    change (dict_collect String.eqb (fun row : string * string => (snd row, fst row))
              (map (fun ext0 => (ext0, folder)) (ext :: extensions)) d)
      with (dict_collect String.eqb (fun row : string * string => (snd row, fst row))
              (map (fun ext0 => (ext0, folder)) extensions)
              (dict_append String.eqb folder ext d)).
    rewrite dict_append_new_key by exact Hnew.
    now rewrite collect_rows_of_folder.
Qed.

Lemma collect_loaded_rows (mappings : folder_mappings_t) : forall d,
  NoDup (map fst mappings) ->
  (forall folder, In folder (map fst mappings) -> ~ In folder (map fst d)) ->
  dict_collect String.eqb (fun row : string * string => (snd row, fst row))
               (load_mappings mappings) d
  = d ++ filter (fun e => negb (len (snd e) =? 0)) mappings.
Proof.
  induction mappings as [| [folder extensions] rest IH]; intros d Hnd Hnew.
  - simpl. now rewrite app_nil_r.
  - cbn [map fst] in Hnd. apply NoDup_cons_iff in Hnd as (Hfolder & Hnd).
    unfold load_mappings. cbn [flat_map fst snd]. fold (load_mappings rest).
    rewrite dict_collect_app.
    assert (Hd : ~ In folder (map fst d)) by (apply Hnew; now left).
    rewrite collect_rows_of_new_folder by exact Hd.
    cbn [filter snd].
    destruct (len extensions =? 0); cbn [negb].
    + rewrite app_nil_r. apply IH; [exact Hnd |].
      intros f Hf. apply Hnew. now right.
    + rewrite IH.
      * now rewrite <- app_assoc.
      * exact Hnd.
      * intros f Hf. rewrite map_app. cbn [map fst]. intros Hin.
        apply in_app_or in Hin. destruct Hin as [Hin | [<- | []]].
        -- revert Hin. apply Hnew. now right.
        -- contradiction.
Qed.

End MappingDialog.

(** X16.  A dialog that is opened on mappings and closed unchanged gives
    the mappings back, in their order, without the folders that have no
    extension. *)
Theorem dialog_returns_the_loaded_mappings (mappings : folder_mappings_t) :
  NoDup (map fst mappings) ->
  ExtensionMappingDialog.get_mappings (ExtensionMappingDialog.load_mappings mappings)
  = filter (fun e => negb (len (snd e) =? 0)) mappings.
Proof.
  intros Hnd. unfold ExtensionMappingDialog.get_mappings.
  rewrite collect_loaded_rows; [reflexivity | exact Hnd | intros _ _ []].
Qed.

Lemma dialog_returns_the_loaded_mappings_witness :
  ExtensionMappingDialog.get_mappings
    (ExtensionMappingDialog.load_mappings (("Empty", []) :: saved_mappings))
  = filter (fun e => negb (len (snd e) =? 0)) (("Empty", []) :: saved_mappings).
Proof.
  apply (dialog_returns_the_loaded_mappings (("Empty", []) :: saved_mappings)).
  unfold saved_mappings. cbn [map fst]. distinct_names.
Defined.

Section DeadMapping.
Import ExtensionMappingDialog.

Lemma is_in_app x l1 l2 : is_in x (l1 ++ l2) = is_in x l1 || is_in x l2.
Proof. unfold is_in. apply existsb_app. Qed.

Lemma matching_folder_append suffix folder ext (mappings : folder_mappings_t) :
  suffix <> ext ->
  matching_folder suffix (dict_append String.eqb folder ext mappings)
  = matching_folder suffix mappings.
Proof.
  intros Hne.
  assert (Hext : is_in suffix [ext] = false)
    by (apply is_in_false; intros [E | []]; now apply Hne).
  induction mappings as [| [f exts] rest IH]; cbn [dict_append matching_folder].
  - now rewrite Hext.
  - destruct (String.eqb folder f); cbn [matching_folder].
    + now rewrite is_in_app, Hext, orb_false_r.
    + now rewrite IH.
Qed.

Lemma lower_append a b : Str.lower (a ++ b) = (Str.lower a ++ Str.lower b)%string.
Proof. induction a as [| c a IH]; simpl; [reflexivity | now rewrite IH]. Qed.

Lemma lower_lower s : Str.lower (Str.lower s) = Str.lower s.
Proof. apply lower_fixed, lower_no_upper. Qed.

End DeadMapping.

(** X17.  A mapping that is added in the dialog with an upper-case letter in
    its extension changes the folder of no file: the dialog stores the
    extension as it is written, and [organize_downloads] looks for the
    suffix in lower case. *)
Theorem upper_case_mapping_has_no_effect
        (ext_input folder_input : string) (rows : ExtensionMappingDialog.table)
        (item : string) :
  Str.lower (Str.strip ext_input) <> Str.strip ext_input ->
  target_folder_name
    (ExtensionMappingDialog.get_mappings
       (ExtensionMappingDialog.add_mapping ext_input folder_input rows)) item
  = target_folder_name (ExtensionMappingDialog.get_mappings rows) item.
Proof.
  intros Hupper. unfold ExtensionMappingDialog.add_mapping.
  destruct (negb (String.eqb (Str.strip ext_input) EmptyString)
            && negb (String.eqb (Str.strip folder_input) EmptyString));
    [| reflexivity].
  unfold ExtensionMappingDialog.get_mappings. rewrite dict_collect_app.
  unfold dict_collect at 1. cbn [fold_left fst snd].
  unfold target_folder_name. rewrite matching_folder_append; [reflexivity |].
  intros E.
  assert (Hfixed : forall ext, Str.lower (PurePath.suffix item) = ext -> Str.lower ext = ext)
    by (intros ext <-; apply lower_lower).
  apply Hfixed in E.
  destruct (Str.startswith "." (Str.strip ext_input)); [now apply Hupper |].
  rewrite lower_append in E. apply append_cancel_l in E. now apply Hupper.
Qed.

Lemma upper_case_mapping_has_no_effect_witness :
  target_folder_name
    (ExtensionMappingDialog.get_mappings
       (ExtensionMappingDialog.add_mapping
          "ZIP" "Archives" (ExtensionMappingDialog.load_mappings saved_mappings)))
    "a.zip"
  = target_folder_name
      (ExtensionMappingDialog.get_mappings
         (ExtensionMappingDialog.load_mappings saved_mappings))
      "a.zip".
Proof.
  apply (upper_case_mapping_has_no_effect
           "ZIP" "Archives" (ExtensionMappingDialog.load_mappings saved_mappings) "a.zip").
  vm_compute. discriminate.
Defined.

(** ** The clipboard history *)

Section ClipboardHistory.
Import ClipboardManager.

Lemma rowid_below_next (h : history) r : In r h -> rowid r < next_rowid h.
Proof.
  unfold next_rowid. induction h as [| r' h IH]; simpl; [intros [] |].
  intros [-> | Hin]; [lia |]. specialize (IH Hin). lia.
Qed.

Lemma next_rowid_positive (h : history) : 0 < next_rowid h.
Proof.
  unfold next_rowid. induction h as [| r' h IH]; simpl; lia.
Qed.

Lemma hash_known (h : history) clip_hash :
  existsb (fun r => String.eqb (hash r) clip_hash) h = true
  <-> In clip_hash (map hash h).
Proof.
  rewrite existsb_exists, in_map_iff. split.
  - intros (r & Hr & E). apply String.eqb_eq in E. now exists r.
  - intros (r & E & Hr). exists r. split; [exact Hr | now apply String.eqb_eq].
Qed.

(** One entry of the queue. *)
Lemma process_entry_spec (h : history) now clip clip_hash :
  sound_history h ->
  sound_history (process_entry h (now, (clip, clip_hash)))
  /\ In clip_hash (map hash (process_entry h (now, (clip, clip_hash))))
  /\ exists new,
       process_entry h (now, (clip, clip_hash)) = h ++ new
       /\ Forall (fun r => timestamp r = now /\ content r = clip
                           /\ hash r = clip_hash /\ favorite r = 0
                           /\ rowid r = next_rowid h) new.
Proof.
  intros (Hhash & Hid & Hpos & Hfav). unfold process_entry.
  destruct (existsb (fun r => String.eqb (hash r) clip_hash) h) eqn:E.
  - split; [repeat split; assumption |]. split; [now apply hash_known |].
    exists []. split; [now rewrite app_nil_r | constructor].
  - assert (Hnew : ~ In clip_hash (map hash h))
      by (rewrite <- hash_known; congruence).
    split; [| split].
    + unfold sound_history. rewrite !map_app. cbn [map hash rowid].
      repeat split.
      * apply NoDup_app; [exact Hhash | repeat constructor; intros [] |].
        intros x Hx [<- | []]. contradiction.
      * apply NoDup_app; [exact Hid | repeat constructor; intros [] |].
        intros x Hx [<- | []]. apply in_map_iff in Hx.
        destruct Hx as (r & Er & Hr). apply rowid_below_next in Hr. lia.
      * apply Forall_app. split; [exact Hpos |]. repeat constructor.
        cbn [rowid]. apply next_rowid_positive.
      * apply Forall_app. split; [exact Hfav |]. repeat constructor.
    + rewrite map_app. apply in_or_app. right. now left.
    + eexists. split; [reflexivity |]. repeat constructor.
Qed.

Lemma process_queue_spec entries : forall h,
  sound_history h ->
  sound_history (process_queue h entries)
  /\ (forall now clip clip_hash,
         In (now, (clip, clip_hash)) entries ->
         In clip_hash (map hash (process_queue h entries)))
  /\ exists new,
       process_queue h entries = h ++ new
       /\ Forall (fun r => In (timestamp r, (content r, hash r)) entries
                           /\ favorite r = 0) new.
Proof.
  induction entries as [| [now [clip clip_hash]] entries IH]; intros h Hh.
  - split; [exact Hh |]. split; [intros ? ? ? [] |].
    exists []. split; [now rewrite app_nil_r | constructor].
  - destruct (process_entry_spec h now clip clip_hash Hh) as (H1 & Hin1 & new1 & E1 & Hnew1).
    destruct (IH _ H1) as (H2 & Hin2 & new2 & E2 & Hnew2).
    unfold process_queue in *. cbn [fold_left].
    split; [exact H2 |]. split.
    + intros now' clip' hash' [[= <- <- <-] | Hin].
      * rewrite E2, map_app. apply in_or_app. now left.
      * now apply Hin2 with now' clip'.
    + exists (new1 ++ new2). split; [rewrite E2, E1; now rewrite app_assoc |].
      apply Forall_app. split.
      * eapply Forall_impl; [| exact Hnew1]. cbn beta.
        intros r (-> & -> & -> & F & _). split; [now left | exact F].
      * eapply Forall_impl; [| exact Hnew2]. cbn beta.
        intros r (Hr & F). split; [now right | exact F].
Qed.

(** The rowids of a history that starts empty are 1, 2, ... *)
Lemma process_queue_rowids entries : forall h,
  map rowid h = counts 0 (List.length h) ->
  map rowid (process_queue h entries)
  = counts 0 (List.length (process_queue h entries)).
Proof.
  assert (Hcounts : forall n from, counts from (n + 1) = counts from n ++ [from + Z.of_nat n + 1]).
  { induction n as [| n IHn]; intros from; simpl.
    - f_equal. lia.
    - rewrite IHn. simpl. do 3 f_equal. lia. }
  assert (Hmax : forall n from, 0 <= from ->
             fold_right Z.max 0 (counts from n) = if (n =? 0)%nat then 0 else from + Z.of_nat n).
  { induction n as [| n IHn]; intros from Hfrom; [reflexivity |].
    cbn [counts fold_right]. rewrite IHn by lia.
    destruct n; cbn [Nat.eqb]; lia. }
  induction entries as [| [now [clip clip_hash]] entries IH]; intros h Hh;
    [exact Hh |].
  unfold process_queue in *. cbn [fold_left]. apply IH.
  unfold process_entry.
  destruct (existsb (fun r => String.eqb (hash r) clip_hash) h); [exact Hh |].
  rewrite map_app, length_app. cbn [map rowid List.length].
  rewrite Hcounts, Hh. f_equal. f_equal.
  unfold next_rowid. rewrite Hh, Hmax by lia.
  destruct (List.length h); cbn [Nat.eqb]; lia.
Qed.

(** The loop of [monitor_clipboard]. *)
Lemma monitor_fold pastes : forall last_clip queue,
  (last_clip = EmptyString \/ In (last_clip, clip_digest last_clip) queue) ->
  exists added,
    snd (fold_left monitor_step pastes (last_clip, queue)) = queue ++ added
    /\ Forall (fun e => In (fst e) pastes /\ recordable (fst e)
                        /\ snd e = clip_digest (fst e)) added
    /\ forall clip, In clip pastes -> recordable clip ->
                    In (clip, clip_digest clip) (queue ++ added).
Proof.
  induction pastes as [| clip pastes IH]; intros last_clip queue Hlast.
  - exists []. split; [simpl; now rewrite app_nil_r |]. split; [constructor |].
    intros ? [].
  - cbn [fold_left]. unfold monitor_step at 2.
    destruct (String.eqb_spec clip EmptyString) as [Hempty | Hempty]; cbn [negb andb].
    { destruct (IH last_clip queue Hlast) as (added & E & Hadded & Hall).
      exists added. split; [exact E |]. split.
      - eapply Forall_impl; [| exact Hadded]. cbn beta.
        intros e (H1 & H2). split; [now right | exact H2].
      - intros c [<- | Hc] Hrec; [destruct Hrec; contradiction | now apply Hall]. }
    destruct (String.eqb_spec clip last_clip) as [Hsame | Hchanged]; cbn [negb andb].
    { destruct (IH last_clip queue Hlast) as (added & E & Hadded & Hall).
      exists added. split; [exact E |]. split.
      - eapply Forall_impl; [| exact Hadded]. cbn beta.
        intros e (H1 & H2). split; [now right | exact H2].
      - intros c [<- | Hc] Hrec; [| now apply Hall].
        subst last_clip. destruct Hlast as [-> | Hin]; [contradiction |].
        apply in_or_app. now left. }
    destruct (String.prefix "*****" clip) eqn:Hmasked; cbn [negb].
    { destruct (IH last_clip queue Hlast) as (added & E & Hadded & Hall).
      exists added. split; [exact E |]. split.
      - eapply Forall_impl; [| exact Hadded]. cbn beta.
        intros e (H1 & H2). split; [now right | exact H2].
      - intros c [<- | Hc] Hrec; [destruct Hrec; congruence | now apply Hall]. }
    fold (clip_digest clip).
    destruct (IH clip (queue ++ [(clip, clip_digest clip)])) as (added & E & Hadded & Hall).
    { right. apply in_or_app. right. now left. }
    exists ((clip, clip_digest clip) :: added).
    split; [rewrite E; now rewrite <- app_assoc |]. split.
    + constructor.
      * cbn [fst snd]. split; [now left |]. split; [now split | reflexivity].
      * eapply Forall_impl; [| exact Hadded]. cbn beta.
        intros e (H1 & H2). split; [now right | exact H2].
    + intros c [<- | Hc] Hrec.
      * apply in_or_app. right. now left.
      * specialize (Hall c Hc Hrec). rewrite <- app_assoc in Hall. exact Hall.
Qed.

Lemma monitor_clipboard_spec pastes :
  Forall (fun e => In (fst e) pastes /\ recordable (fst e)
                   /\ snd e = clip_digest (fst e))
         (monitor_clipboard pastes)
  /\ forall clip, In clip pastes -> recordable clip ->
                  In (clip, clip_digest clip) (monitor_clipboard pastes).
Proof.
  unfold monitor_clipboard.
  destruct (monitor_fold pastes EmptyString [] (or_introl eq_refl))
    as (added & -> & Hadded & Hall).
  now split.
Qed.

Lemma sound_history_empty : sound_history [].
Proof. repeat split; constructor. Qed.

Lemma in_combine_stamped {A B : Type} (stamps : list A) (queue : list B) e :
  (List.length queue <= List.length stamps)%nat ->
  In e queue -> exists now, In (now, e) (combine stamps queue).
Proof.
  revert stamps. induction queue as [| x queue IH]; intros stamps Hlen; [intros [] |].
  destruct stamps as [| now stamps]; [simpl in Hlen; lia |].
  simpl in Hlen. intros [-> | Hin].
  - exists now. now left.
  - destruct (IH stamps ltac:(lia) Hin) as (now' & H). exists now'. now right.
Qed.

End ClipboardHistory.

(** X18.  The history that the two loops build from an empty table while the
    clipboard shows [pastes]; [stamps] are the times at which entries
    are taken from the queue.  The rowids are 1, 2, ...; no two rows
    have the same digest or the same content; every row holds a clip
    that was shown, is not empty and does not start with five stars,
    with the digest of that clip and [favorite] 0. *)
Theorem history_holds_each_clip_once (pastes stamps : list string) :
  map ClipboardManager.rowid
      (ClipboardManager.process_queue
         [] (combine stamps (ClipboardManager.monitor_clipboard pastes)))
  = counts 0 (List.length
                (ClipboardManager.process_queue
                   [] (combine stamps (ClipboardManager.monitor_clipboard pastes))))
  /\ NoDup (map ClipboardManager.hash
                (ClipboardManager.process_queue
                   [] (combine stamps (ClipboardManager.monitor_clipboard pastes))))
  /\ NoDup (map ClipboardManager.content
                (ClipboardManager.process_queue
                   [] (combine stamps (ClipboardManager.monitor_clipboard pastes))))
  /\ Forall (fun r => In (ClipboardManager.content r) pastes
                      /\ recordable (ClipboardManager.content r)
                      /\ ClipboardManager.hash r
                         = clip_digest (ClipboardManager.content r)
                      /\ ClipboardManager.favorite r = 0)
            (ClipboardManager.process_queue
               [] (combine stamps (ClipboardManager.monitor_clipboard pastes))).
Proof.
  set (entries := combine stamps (ClipboardManager.monitor_clipboard pastes)).
  destruct (process_queue_spec entries [] sound_history_empty)
    as ((Hhash & _) & _ & new & E & Hnew).
  destruct (monitor_clipboard_spec pastes) as (Hqueue & _).
  assert (Hrows : Forall (fun r => In (ClipboardManager.content r) pastes
                      /\ recordable (ClipboardManager.content r)
                      /\ ClipboardManager.hash r
                         = clip_digest (ClipboardManager.content r)
                      /\ ClipboardManager.favorite r = 0)
                         (ClipboardManager.process_queue [] entries)).
  { rewrite E. cbn [app]. eapply Forall_impl; [| exact Hnew]. cbn beta.
    intros r (Hin & Hfav). unfold entries in Hin. apply in_combine_r in Hin.
    rewrite Forall_forall in Hqueue. specialize (Hqueue _ Hin). cbn [fst snd] in Hqueue.
    tauto. }
  split; [now apply process_queue_rowids |]. split; [exact Hhash |].
  split; [| exact Hrows].
  apply (NoDup_map_inv clip_digest). rewrite map_map.
  erewrite map_ext_in; [exact Hhash |].
  intros r Hr. rewrite Forall_forall in Hrows. symmetry. now apply Hrows.
Qed.

(** X19.  Once the queue is worked off, the history has a row with the
    digest of every clip that was shown, is not empty and does not
    start with five stars. *)
Theorem history_knows_every_clip (pastes stamps : list string) (clip : string) :
  (List.length (ClipboardManager.monitor_clipboard pastes) <= List.length stamps)%nat ->
  In clip pastes -> recordable clip ->
  In (clip_digest clip)
     (map ClipboardManager.hash
          (ClipboardManager.process_queue
             [] (combine stamps (ClipboardManager.monitor_clipboard pastes)))).
Proof.
  intros Hlen Hin Hrec.
  destruct (monitor_clipboard_spec pastes) as (_ & Hall).
  destruct (in_combine_stamped stamps _ _ Hlen (Hall clip Hin Hrec)) as (now & Hentry).
  destruct (process_queue_spec (combine stamps (ClipboardManager.monitor_clipboard pastes))
                               [] sound_history_empty) as (_ & Hknown & _).
  now apply Hknown with now clip.
Qed.

Lemma history_knows_every_clip_witness :
  In (clip_digest "x")
     (map ClipboardManager.hash
          (ClipboardManager.process_queue
             [] (combine ["t1"; "t2"]
                         (ClipboardManager.monitor_clipboard ["abc"; "abc"; "x"])))).
Proof.
  apply (history_knows_every_clip ["abc"; "abc"; "x"] ["t1"; "t2"] "x").
  - vm_compute. lia.
  - right. right. left. reflexivity.
  - split; [discriminate | reflexivity].
Defined.

(** ** Favorites *)

Section Favorites.
Import ClipboardManager.

Lemma toggled_twice r :
  favorite r = 0 \/ favorite r = 1 -> toggled (toggled r) = r.
Proof.
  destruct r as [i t c f h]. unfold toggled. cbn [rowid timestamp content favorite hash].
  intros [-> | ->]; reflexivity.
Qed.

(** The table after [save_favorite_snippet], found or not. *)
Lemma save_favorite_snippet_table snippet_id (h : history) :
  fst (save_favorite_snippet snippet_id h)
  = map (fun r => if rowid r =? snippet_id then toggled r else r) h.
Proof.
  unfold save_favorite_snippet.
  destruct (existsb (fun r => rowid r =? snippet_id) h) eqn:E; [reflexivity |].
  cbn [fst]. rewrite <- (map_id h) at 1. apply map_ext_in. intros r Hr.
  destruct (rowid r =? snippet_id) eqn:F; [| reflexivity].
  assert (existsb (fun r => rowid r =? snippet_id) h = true)
    by (apply existsb_exists; now exists r).
  congruence.
Qed.

Lemma save_favorite_snippet_result snippet_id (h : history) :
  snd (save_favorite_snippet snippet_id h) = true <-> In snippet_id (map rowid h).
Proof.
  unfold save_favorite_snippet.
  destruct (existsb (fun r => rowid r =? snippet_id) h) eqn:E; cbn [snd].
  - apply existsb_exists in E. destruct E as (r & Hr & F). apply Z.eqb_eq in F.
    split.
    + intros _. apply in_map_iff. now exists r.
    + intros _. apply Z.ltb_lt.
      assert (Hin : In r (filter (fun r => rowid r =? snippet_id) h))
        by (apply filter_In; split; [exact Hr | now apply Z.eqb_eq]).
      unfold len. destruct (filter (fun r => rowid r =? snippet_id) h);
        [destruct Hin | cbn [List.length]; lia].
  - split; [discriminate |]. intros Hin. apply in_map_iff in Hin.
    destruct Hin as (r & F & Hr).
    assert (existsb (fun r => rowid r =? snippet_id) h = true)
      by (apply existsb_exists; exists r; split; [exact Hr | now apply Z.eqb_eq]).
    congruence.
Qed.

Lemma toggled_keeps r :
  rowid (toggled r) = rowid r /\ timestamp (toggled r) = timestamp r
  /\ content (toggled r) = content r /\ hash (toggled r) = hash r.
Proof. now destruct r. Qed.

Lemma int_of_str_of_int n : int_of_str (str_of_int n) = Some n.
Proof.
  unfold int_of_str, str_of_int. rewrite NilEmpty.isi. cbn [option_map].
  now rewrite DecimalZ.of_to.
Qed.

Lemma favorite_text_toggled r :
  favorite_text (favorite (toggled r))
  = if negb (String.eqb (favorite_text (favorite r)) "Yes") then "Yes" else "No".
Proof.
  unfold toggled, favorite_text. cbn [favorite].
  destruct (favorite r =? 0); reflexivity.
Qed.

End Favorites.

(** X20.  [save_favorite_snippet] answers [True] exactly when a row has the
    id; it changes nothing but [favorite] of the rows with that id,
    which it flips between 0 and 1; the history stays sound; and a
    second call gives the first table back. *)
Theorem favorite_is_toggled (snippet_id : Z) (h : ClipboardManager.history) :
  sound_history h ->
  sound_history (fst (ClipboardManager.save_favorite_snippet snippet_id h))
  /\ (snd (ClipboardManager.save_favorite_snippet snippet_id h) = true
      <-> In snippet_id (map ClipboardManager.rowid h))
  /\ fst (ClipboardManager.save_favorite_snippet snippet_id h)
     = map (fun r => if ClipboardManager.rowid r =? snippet_id
                     then ClipboardManager.toggled r else r) h
  /\ fst (ClipboardManager.save_favorite_snippet
            snippet_id (fst (ClipboardManager.save_favorite_snippet snippet_id h)))
     = h.
Proof.
  intros (Hhash & Hid & Hpos & Hfav).
  split; [| split; [apply save_favorite_snippet_result |
                    split; [apply save_favorite_snippet_table |]]].
  - rewrite save_favorite_snippet_table. unfold sound_history.
    rewrite !map_map.
    assert (E1 : map (fun r => ClipboardManager.hash
                        (if ClipboardManager.rowid r =? snippet_id
                         then ClipboardManager.toggled r else r)) h
                 = map ClipboardManager.hash h)
      by (apply map_ext; intros r; now destruct (_ =? _)).
    assert (E2 : map (fun r => ClipboardManager.rowid
                        (if ClipboardManager.rowid r =? snippet_id
                         then ClipboardManager.toggled r else r)) h
                 = map ClipboardManager.rowid h)
      by (apply map_ext; intros r; now destruct (_ =? _)).
    rewrite E1, E2. repeat split; try assumption.
    + apply Forall_map. eapply Forall_impl; [| exact Hpos]. cbn beta.
      intros r Hr. now destruct (_ =? _).
    + apply Forall_map. eapply Forall_impl; [| exact Hfav]. cbn beta.
      intros r Hr. destruct (_ =? _); [| exact Hr].
      unfold ClipboardManager.toggled. cbn [ClipboardManager.favorite].
      destruct (ClipboardManager.favorite r =? 0); [now right | now left].
  - rewrite !save_favorite_snippet_table, map_map.
    rewrite <- (map_id h) at 2. apply map_ext_in. intros r Hr.
    rewrite Forall_forall in Hfav.
    destruct (ClipboardManager.rowid r =? snippet_id) eqn:E; [| now rewrite E].
    destruct (toggled_keeps r) as (-> & _). rewrite E.
    apply toggled_twice. now apply Hfav.
Qed.

Lemma two_clips_sound : sound_history two_clips.
Proof.
  unfold sound_history. vm_compute.
  repeat split; try distinct_names; repeat constructor.
Qed.

Lemma favorite_is_toggled_witness :
  fst (ClipboardManager.save_favorite_snippet
         2 (fst (ClipboardManager.save_favorite_snippet 2 two_clips)))
  = two_clips.
Proof.
  refine (proj2 (proj2 (proj2 (favorite_is_toggled 2 two_clips _)))).
  apply two_clips_sound.
Defined.

(** X21.  After [toggle_favorite] on the list row of a clip, the row shows
    what the table holds for that clip. *)
Theorem toggle_favorite_shows_the_table
        (h : ClipboardManager.history) (r : ClipboardManager.row) :
  In r h ->
  toggle_favorite (cells_of r) h
  = Some (cells_of (ClipboardManager.toggled r),
          fst (ClipboardManager.save_favorite_snippet (ClipboardManager.rowid r) h))
  /\ In (ClipboardManager.toggled r)
        (fst (ClipboardManager.save_favorite_snippet (ClipboardManager.rowid r) h)).
Proof.
  intros Hr. split.
  - unfold toggle_favorite. cbn [cells_of id_cell content_cell favorite_cell].
    rewrite int_of_str_of_int.
    destruct (ClipboardManager.save_favorite_snippet (ClipboardManager.rowid r) h)
      as [h' success] eqn:E.
    assert (Hs : success = true).
    { change success with (snd (h', success)). rewrite <- E.
      apply save_favorite_snippet_result. now apply in_map. }
    rewrite Hs. cbn [fst]. do 2 f_equal. unfold cells_of.
    destruct (toggled_keeps r) as (-> & _ & -> & _).
    now rewrite favorite_text_toggled.
  - rewrite save_favorite_snippet_table. apply in_map_iff. exists r.
    split; [| exact Hr]. now rewrite Z.eqb_refl.
Qed.

Lemma toggle_favorite_shows_the_table_witness :
  toggle_favorite
    (cells_of {| ClipboardManager.rowid := 2; ClipboardManager.timestamp := "t2";
                 ClipboardManager.content := "x"; ClipboardManager.favorite := 0;
                 ClipboardManager.hash := "9dd4e461268c8034f5c8564e155c67a6" |})
    two_clips
  = Some (cells_of
            (ClipboardManager.toggled
               {| ClipboardManager.rowid := 2; ClipboardManager.timestamp := "t2";
                  ClipboardManager.content := "x"; ClipboardManager.favorite := 0;
                  ClipboardManager.hash := "9dd4e461268c8034f5c8564e155c67a6" |}),
          fst (ClipboardManager.save_favorite_snippet 2 two_clips)).
Proof.
  refine (proj1 (toggle_favorite_shows_the_table
                   two_clips
                   {| ClipboardManager.rowid := 2; ClipboardManager.timestamp := "t2";
                      ClipboardManager.content := "x"; ClipboardManager.favorite := 0;
                      ClipboardManager.hash := "9dd4e461268c8034f5c8564e155c67a6" |}
                   _)).
  vm_compute. right. left. reflexivity.
Defined.

(** ** What the list shows of a clip *)

Section DisplayContent.

Lemma code_points_nonneg s : 0 <= code_points s.
Proof.
  induction s as [| c s IH]; simpl; [lia |].
  destruct (is_continuation c); lia.
Qed.

Lemma code_points_append (a b : string) :
  code_points (a ++ b) = code_points a + code_points b.
Proof. induction a as [| c a IH]; simpl; [reflexivity | rewrite IH; lia]. Qed.

(** [s[:n]] has [min(n, len(s))] characters. *)
Lemma code_points_take s : forall n,
  code_points (take_code_points n s) = Z.min (Z.of_nat n) (code_points s).
Proof.
  induction s as [| c s IH]; intros n; cbn [take_code_points code_points].
  - lia.
  - pose proof (code_points_nonneg s) as Hs.
    destruct (is_continuation c) eqn:E.
    + cbn [code_points]. rewrite E, IH. lia.
    + destruct n as [| n].
      * cbn [code_points]. lia.
      * cbn [code_points]. rewrite E, IH. lia.
Qed.

Lemma display_content_long content :
  100 < code_points content -> code_points (display_content content) = 100.
Proof.
  intros H. unfold display_content.
  destruct (Z.ltb_spec 100 (code_points content)); [| lia].
  rewrite code_points_append, code_points_take.
  change (code_points "...") with 3. lia.
Qed.

End DisplayContent.

(** X22.  The text [copy_selected_clip] puts on the clipboard has at most
    100 characters, and it is the clip exactly when the clip has at
    most 100 characters: of a longer one it is the first 97 characters
    and three dots.  Characters are counted as Python counts them, one
    for each code point of the clip. *)
Theorem long_clips_are_copied_cut (r : ClipboardManager.row) :
  code_points (copy_selected_clip (cells_of r)) <= 100
  /\ (copy_selected_clip (cells_of r) = ClipboardManager.content r
      <-> code_points (ClipboardManager.content r) <= 100)
  /\ (100 < code_points (ClipboardManager.content r) ->
      copy_selected_clip (cells_of r)
      = (take_code_points 97 (ClipboardManager.content r) ++ "...")%string).
Proof.
  unfold copy_selected_clip, cells_of. cbn [content_cell].
  destruct (Z.le_gt_cases (code_points (ClipboardManager.content r)) 100)
    as [Hshort | Hlong].
  - unfold display_content.
    destruct (Z.ltb_spec 100 (code_points (ClipboardManager.content r))); [lia |].
    split; [exact Hshort | split; [tauto | lia]].
  - pose proof (display_content_long _ Hlong) as E. split; [lia |]. split.
    + split; [| lia]. intros Heq. rewrite Heq in E. lia.
    + intros _. unfold display_content.
      destruct (Z.ltb_spec 100 (code_points (ClipboardManager.content r)));
        [reflexivity | lia].
Qed.

(** ** The files that [delete_selected_duplicates] removes *)

Section SplitJoin.
Import PosixPath.

Lemma len_append (a b : string) : Str.len (a ++ b) = Str.len a + Str.len b.
Proof. unfold Str.len. rewrite length_append. lia. Qed.

Lemma append_assoc (a b c : string) :
  (a ++ (b ++ c) = (a ++ b) ++ c)%string.
Proof. induction a as [| x a IH]; simpl; [reflexivity | now rewrite IH]. Qed.

Lemma substring_prefix (a b : string) :
  substring 0 (String.length a) (a ++ b) = a.
Proof.
  induction a as [| c a IH]; simpl.
  - now destruct b.
  - now rewrite IH.
Qed.

Lemma substring_suffix (a b : string) :
  substring (String.length a) (String.length b) (a ++ b) = b.
Proof.
  induction a as [| c a IH]; simpl; [| exact IH].
  induction b as [| c b IHb]; simpl; [reflexivity | now rewrite IHb].
Qed.

Lemma slice_prefix (a b : string) : Str.slice (a ++ b) 0 (Str.len a) = a.
Proof.
  unfold Str.slice, Str.len. rewrite Z.sub_0_r, Nat2Z.id.
  change (Z.to_nat 0) with 0%nat. apply substring_prefix.
Qed.

Lemma slice_suffix (a b : string) :
  Str.slice (a ++ b) (Str.len a) (Str.len (a ++ b)) = b.
Proof.
  unfold Str.slice. rewrite len_append.
  replace (Str.len a + Str.len b - Str.len a) with (Str.len b) by lia.
  unfold Str.len. rewrite !Nat2Z.id. apply substring_suffix.
Qed.

Lemma rfind_from_app c (a : string) : forall s i found,
  Str.rfind_from c (a ++ s) i found
  = Str.rfind_from c s (i + Str.len a) (Str.rfind_from c a i found).
Proof.
  induction a as [| c' a IH]; intros s i found.
  - simpl. unfold Str.len. simpl. now rewrite Z.add_0_r.
  - cbn [append Str.rfind_from]. rewrite IH. f_equal.
    unfold Str.len. cbn [String.length]. lia.
Qed.

Lemma rfind_from_plain (name : string) : forall i found,
  plain_name name -> Str.rfind_from OsPath.sep name i found = found.
Proof.
  unfold plain_name.
  induction name as [| c name IH]; intros i found H; [reflexivity |].
  cbn [Str.existsb] in H. apply orb_false_iff in H. destruct H as (Hc & Hrest).
  cbn [Str.rfind_from]. rewrite Hc. now apply IH.
Qed.

Lemma rfind_last_sep (a name : string) :
  plain_name name -> Str.rfind OsPath.sep (a ++ String OsPath.sep name) = Str.len a.
Proof.
  intros H. unfold Str.rfind. rewrite rfind_from_app.
  cbn [Str.rfind_from]. rewrite Ascii.eqb_refl. rewrite rfind_from_plain by exact H.
  lia.
Qed.

Lemma rfind_plain (name : string) :
  plain_name name -> Str.rfind OsPath.sep name = -1.
Proof. intros H. unfold Str.rfind. now apply rfind_from_plain. Qed.

Lemma plain_name_start (name : string) :
  plain_name name -> Str.startswith OsPath.sep name = false.
Proof.
  unfold plain_name. destruct name as [| c name]; [reflexivity |].
  cbn [Str.existsb Str.startswith]. intros H. apply orb_false_iff in H. tauto.
Qed.

Lemma list_of_append (a b : string) :
  list_ascii_of_string (a ++ b) = list_ascii_of_string a ++ list_ascii_of_string b.
Proof. induction a as [| c a IH]; simpl; [reflexivity | now rewrite IH]. Qed.

Lemma string_of_app (l1 l2 : list ascii) :
  string_of_list_ascii (l1 ++ l2)
  = (string_of_list_ascii l1 ++ string_of_list_ascii l2)%string.
Proof. induction l1 as [| c l1 IH]; simpl; [reflexivity | now rewrite IH]. Qed.

Lemma reverse_append (a b : string) :
  Str.reverse (a ++ b) = (Str.reverse b ++ Str.reverse a)%string.
Proof.
  unfold Str.reverse. now rewrite list_of_append, rev_app_distr, string_of_app.
Qed.

Lemma reverse_involutive (s : string) : Str.reverse (Str.reverse s) = s.
Proof.
  unfold Str.reverse.
  now rewrite list_ascii_of_string_of_list_ascii, rev_involutive,
              string_of_list_ascii_of_string.
Qed.

(** A string that is not empty ends in a character. *)
Lemma last_char (s : string) :
  s <> EmptyString ->
  exists r c, s = (r ++ String c EmptyString)%string
              /\ forall x, Str.endswith x s = Ascii.eqb x c.
Proof.
  induction s as [| a s IH]; [congruence |]. intros _.
  destruct s as [| b s].
  - exists EmptyString, a. split; [reflexivity | intros x; reflexivity].
  - destruct IH as (r & c & E & Hend); [discriminate |].
    exists (String a r), c. split; [simpl; now rewrite E |].
    intros x. unfold Str.endswith.
    change (String a (String b s)) with (String a EmptyString ++ String b s)%string.
    rewrite reverse_append, E, reverse_append.
    reflexivity.
Qed.

Lemma existsb_append p (a b : string) :
  Str.existsb p (a ++ b) = Str.existsb p a || Str.existsb p b.
Proof.
  induction a as [| c a IH]; simpl; [reflexivity |].
  now rewrite IH, orb_assoc.
Qed.

(** [split] undoes [join] of a plain root and a plain name. *)
Lemma split_join (root name : string) :
  plain_root root -> plain_name name ->
  OsPath.join (dirname (OsPath.join root name)) (basename (OsPath.join root name))
  = OsPath.join root name.
Proof.
  intros Hroot Hname. pose proof (plain_name_start name Hname) as Hstart.
  destruct (String.eqb_spec root EmptyString) as [-> | Hne].
  { (* no directory part *)
    assert (E : OsPath.join EmptyString name = name).
    { unfold OsPath.join. now rewrite Hstart. }
    rewrite E. unfold dirname, basename, split. rewrite (rfind_plain name Hname).
    change (-1 + 1) with 0. cbn [fst snd].
    assert (H0 : Str.slice name 0 0 = EmptyString)
      by (unfold Str.slice; cbn; now destruct name).
    rewrite H0. cbn [String.eqb negb andb].
    pose proof (slice_suffix EmptyString name) as Hs. cbn [append] in Hs.
    change (Str.len EmptyString) with 0 in Hs. rewrite Hs. exact E. }
  destruct (last_char root Hne) as (r & c & Er & Hend).
  destruct (Ascii.eqb OsPath.sep c) eqn:Ec.
  - (* the root ends in a separator: it is all separators *)
    apply Ascii.eqb_eq in Ec. subst c.
    destruct Hroot as [E | [Hall | Hnot]];
      [contradiction | | rewrite Hend, Ascii.eqb_refl in Hnot; discriminate].
    assert (E : OsPath.join root name = (root ++ name)%string).
    { unfold OsPath.join. rewrite Hstart, Hend, Ascii.eqb_refl.
      now rewrite orb_true_r. }
    rewrite E. unfold dirname, basename, split. cbn [fst snd].
    assert (Hfind : Str.rfind OsPath.sep (root ++ name) + 1 = Str.len root).
    { rewrite Er, <- append_assoc. cbn [append].
      rewrite rfind_last_sep by exact Hname. rewrite len_append.
      unfold Str.len. cbn [String.length]. lia. }
    rewrite Hfind, slice_prefix, slice_suffix, Hall.
    cbn [negb]. rewrite andb_false_r. exact E.
  - (* the root ends in another character *)
    assert (E : OsPath.join root name = (root ++ String OsPath.sep name)%string).
    { unfold OsPath.join. rewrite Hstart, Hend, Ec.
      destruct (String.eqb_spec root EmptyString); [contradiction | reflexivity]. }
    rewrite E. unfold dirname, basename, split. cbn [fst snd].
    rewrite rfind_last_sep by exact Hname.
    assert (Ehead : Str.slice (root ++ String OsPath.sep name) 0 (Str.len root + 1)
                    = (root ++ String OsPath.sep EmptyString)%string).
    { change (String OsPath.sep name)
        with (String OsPath.sep EmptyString ++ name)%string.
      rewrite append_assoc.
      replace (Str.len root + 1) with (Str.len (root ++ String OsPath.sep EmptyString))
        by (rewrite len_append; reflexivity).
      apply slice_prefix. }
    assert (Etail : Str.slice (root ++ String OsPath.sep name) (Str.len root + 1)
                              (Str.len (root ++ String OsPath.sep name))
                    = name).
    { change (String OsPath.sep name)
        with (String OsPath.sep EmptyString ++ name)%string.
      rewrite append_assoc.
      replace (Str.len root + 1) with (Str.len (root ++ String OsPath.sep EmptyString))
        by (rewrite len_append; reflexivity).
      apply slice_suffix. }
    rewrite Ehead, Etail.
    assert (Hne' : String.eqb (root ++ String OsPath.sep EmptyString) EmptyString = false).
    { apply String.eqb_neq. intros H. apply (f_equal String.length) in H.
      rewrite length_append in H. simpl in H. lia. }
    assert (Hall : all_sep (root ++ String OsPath.sep EmptyString) = false).
    { unfold all_sep. apply negb_false_iff.
      rewrite Er, !existsb_append. cbn [Str.existsb].
      rewrite Ascii.eqb_sym, Ec. cbn [negb]. now rewrite !orb_true_r. }
    rewrite Hne', Hall. cbn [negb andb].
    assert (Hstrip : rstrip_char OsPath.sep (root ++ String OsPath.sep EmptyString) = root).
    { unfold rstrip_char. rewrite reverse_append.
      change (Str.reverse (String OsPath.sep EmptyString))
        with (String OsPath.sep EmptyString).
      cbn [append lstrip_char]. rewrite Ascii.eqb_refl.
      rewrite Er, reverse_append.
      change (Str.reverse (String c EmptyString)) with (String c EmptyString).
      cbn [append lstrip_char]. rewrite Ec.
      change (String c (Str.reverse r))
        with (String c EmptyString ++ Str.reverse r)%string.
      change (String c EmptyString) with (Str.reverse (String c EmptyString)) at 1.
      rewrite <- reverse_append. apply reverse_involutive. }
    rewrite Hstrip. exact E.
Qed.

End SplitJoin.

Section DeletedFiles.
Context {S : Type}.
Variable fs : FileSystem.

Lemma plain_walk_resides top root p :
  plain_walk (fs_walk fs top) -> resides_in fs top root p ->
  OsPath.join (PosixPath.dirname p) (PosixPath.basename p) = p.
Proof.
  intros Hwalk (names & name & Hentry & Hname & ->).
  unfold plain_walk in Hwalk. rewrite Forall_forall in Hwalk.
  destruct (Hwalk _ Hentry) as (Hroot & Hnames). cbn [fst snd] in *.
  rewrite Forall_forall in Hnames. apply split_join; auto.
Qed.

Lemma group_paths_reside top (cb : option (callback S)) s groups g p :
  fst (duplicate_file_finder fs top cb s) = Ok groups ->
  In g groups -> In p (paths g) -> resides_in fs top (directory g) p.
Proof.
  intros Hrun Hg Hp. unfold duplicate_file_finder in Hrun. simpl in Hrun.
  inversion Hrun as [Hgroups]. clear Hrun. rewrite <- Hgroups in Hg.
  destruct (group_comes_from_one_bucket _ _ _ _ g Hg) as (files & Hd & Hm).
  destruct (Hm p Hp) as (f & Hf & Hpath). rewrite <- Hpath.
  exact (proj2 (scan_directory_entries fs top _ _ _ _ f Hd Hf)).
Qed.

End DeletedFiles.

Section Selection.
Variable header_checked : DuplicateGroup -> bool.
Variable checked : string -> bool.

Lemma files_to_delete_file_rows (l : list string) rest :
  (forall p, In p l ->
             OsPath.join (PosixPath.dirname p) (PosixPath.basename p) = p) ->
  files_to_delete
    (map (fun file_path =>
            file_row (checked file_path)
                     (PosixPath.basename file_path) (PosixPath.dirname file_path)) l
     ++ separator_row :: rest)
  = option_map (app (filter checked l)) (files_to_delete rest).
Proof.
  induction l as [| p l IH]; intros Hjoin; cbn [map app files_to_delete filter].
  - now destruct (files_to_delete rest).
  - rewrite IH by (intros q Hq; apply Hjoin; now right).
    rewrite (Hjoin p (or_introl eq_refl)).
    destruct (checked p); destruct (files_to_delete rest); reflexivity.
Qed.

Lemma files_to_delete_group g rest :
  (forall p, In p (paths g) ->
             OsPath.join (PosixPath.dirname p) (PosixPath.basename p) = p) ->
  files_to_delete (rows_of_group (header_checked g) checked g ++ rest)
  = if header_checked g then None
    else option_map (app (filter checked (paths g))) (files_to_delete rest).
Proof.
  intros Hjoin. unfold rows_of_group. cbn [app files_to_delete].
  rewrite <- app_assoc. cbn [app].
  destruct (header_checked g); [reflexivity |].
  now apply files_to_delete_file_rows.
Qed.

Lemma files_to_delete_table groups :
  (forall g p, In g groups -> In p (paths g) ->
               OsPath.join (PosixPath.dirname p) (PosixPath.basename p) = p) ->
  ((forall g, In g groups -> header_checked g = false) ->
   files_to_delete (duplicates_table header_checked checked groups)
   = Some (filter checked (member_paths groups)))
  /\ ((exists g, In g groups /\ header_checked g = true) ->
      files_to_delete (duplicates_table header_checked checked groups) = None).
Proof.
  unfold duplicates_table, member_paths.
  induction groups as [| g groups IH]; intros Hjoin.
  - split; [reflexivity | intros (g & [] & _)].
  - destruct IH as (IH1 & IH2); [intros g' p Hg'; apply Hjoin; now right |].
    cbn [flat_map]. rewrite files_to_delete_group
      by (intros p Hp; apply (Hjoin g); [now left | exact Hp]).
    split.
    + intros Hnone. rewrite (Hnone g (or_introl eq_refl)).
      rewrite IH1 by (intros g' Hg'; apply Hnone; now right).
      cbn [option_map]. now rewrite filter_app.
    + intros (g' & [<- | Hg'] & Hc).
      * now rewrite Hc.
      * destruct (header_checked g); [reflexivity |].
        rewrite IH2 by (now exists g'). reflexivity.
Qed.

End Selection.

(** X23.  What [delete_selected_duplicates] removes after a scan whose walk
    lists names without separator under directories that do not end
    in one.  With no header box checked, the files to delete are the
    paths of the checked file rows: the path joined from the location
    and the file name of a row is the path the row was made of.  With
    the header box of a group checked, as after "select all", the loop
    raises on the header row and nothing is removed. *)
Theorem deleted_files_are_the_listed_files
        (fs : FileSystem) (top : string) (groups : list DuplicateGroup)
        (header_checked : DuplicateGroup -> bool) (checked : string -> bool) :
  plain_walk (fs_walk fs top) ->
  groups_found fs top = Ok groups ->
  ((forall g, In g groups -> header_checked g = false) ->
   files_to_delete (duplicates_table header_checked checked groups)
   = Some (filter checked (member_paths groups)))
  /\ ((exists g, In g groups /\ header_checked g = true) ->
      files_to_delete (duplicates_table header_checked checked groups) = None
      /\ forall reply_yes,
           delete_selected_duplicates
             (duplicates_table header_checked checked groups) reply_yes = []).
Proof.
  intros Hwalk Hrun.
  destruct (files_to_delete_table header_checked checked groups) as (H1 & H2).
  { intros g p Hg Hp.
    apply (plain_walk_resides fs top (directory g)); [exact Hwalk |].
    exact (group_paths_reside fs top None tt groups g p Hrun Hg Hp). }
  split; [exact H1 |].
  intros Hsome. specialize (H2 Hsome). split; [exact H2 |].
  intros reply_yes. unfold delete_selected_duplicates. now rewrite H2.
Qed.

Lemma abx_walk_is_plain : plain_walk (fs_walk Scenario.abx "/d").
Proof.
  vm_compute.
  constructor; [split; [right; right; reflexivity | repeat constructor] | constructor].
Qed.

Lemma deleted_files_are_the_listed_files_witness :
  files_to_delete
    (duplicates_table
       (fun _ => true) (fun _ => true)
       [ {| paths := ["/d/a.txt"; "/d/a (1).txt"]; size := 1; directory := "/d" |} ])
  = None.
Proof.
  refine (proj1 (proj2 (deleted_files_are_the_listed_files
                          Scenario.abx "/d" _ (fun _ => true) (fun _ => true) _ _)
                       _)).
  - apply abx_walk_is_plain.
  - vm_compute. reflexivity.
  - eexists. split; [left; reflexivity | reflexivity].
Defined.

(** ** Two copies in one directory, from the walk to the groups *)

Section FromTheWalk.
Import FileInfoFacts.
Variable fs : FileSystem.







Lemma scanned_record_valid p : FileInfo.valid fs (scanned_record fs p).
Proof. apply size_valid, init_valid. Qed.

Lemma scanned_record_path p : FileInfo.path (scanned_record fs p) = p.
Proof. unfold scanned_record. now rewrite size_path. Qed.

Lemma scanned_file_positive root name v :
  fs_getsize fs (OsPath.join root name) = Some v -> 0 < v ->
  scanned_file fs root name = [(root, scanned_record fs (OsPath.join root name))].
Proof.
  intros Hsize Hpos. unfold scanned_file.
  rewrite (size_value fs _ (init_valid fs _)). cbn [FileInfo.path FileInfo.init].
  unfold FileInfo.size_of. rewrite Hsize.
  destruct (Z.ltb_spec 0 v); [reflexivity | lia].
Qed.

Lemma flat_map_two {A B : Type} (f : A -> list B) l1 l2 l3 a b :
  flat_map f (l1 ++ a :: l2 ++ b :: l3)
  = flat_map f l1 ++ f a ++ flat_map f l2 ++ f b ++ flat_map f l3.
Proof.
  rewrite flat_map_app. cbn [flat_map]. rewrite flat_map_app. cbn [flat_map].
  reflexivity.
Qed.

Lemma filed_under_app (d : string) (l l' : list (string * FileInfo.t)) :
  filed_under String.eqb (fun e => e) d (l ++ l')
  = filed_under String.eqb (fun e => e) d l
    ++ filed_under String.eqb (fun e => e) d l'.
Proof. unfold filed_under. now rewrite filter_app, map_app. Qed.

Lemma filed_under_one (d : string) (r : FileInfo.t) :
  filed_under String.eqb (fun e => e) d [(d, r)] = [r].
Proof. unfold filed_under. cbn [filter fst snd]. now rewrite String.eqb_refl. Qed.

(** The bucket of a directory in which the walk lists two files of
    positive size holds the records of both, in listing order. *)
Lemma scanned_bucket {S : Type} top (cb : option (callback S)) s
      d l1 l2 l3 n1 n2 v1 v2 :
  In (d, l1 ++ n1 :: l2 ++ n2 :: l3) (fs_walk fs top) ->
  fs_getsize fs (OsPath.join d n1) = Some v1 -> 0 < v1 ->
  fs_getsize fs (OsPath.join d n2) = Some v2 -> 0 < v2 ->
  exists a b c,
    In (d, a ++ scanned_record fs (OsPath.join d n1)
              :: b ++ scanned_record fs (OsPath.join d n2) :: c)
       (files_by_directory (scan_directory fs top cb s)).
Proof.
  intros Hwalk H1 P1 H2 P2.
  destruct (scan_directory_indices fs top cb s) as (Hd & _). rewrite Hd.
  apply in_split in Hwalk. destruct Hwalk as (w1 & w2 & ->).
  set (FU := filed_under String.eqb (fun e : string * FileInfo.t => e) d).
  exists (FU (scanned_entries fs w1) ++ FU (flat_map (scanned_file fs d) l1)),
         (FU (flat_map (scanned_file fs d) l2)),
         (FU (flat_map (scanned_file fs d) l3) ++ FU (scanned_entries fs w2)).
  apply (dict_collect_entry String.eqb String.eqb_eq).
  assert (E : filed_under String.eqb (fun e : string * FileInfo.t => e) d
                (scanned_entries fs (w1 ++ (d, l1 ++ n1 :: l2 ++ n2 :: l3) :: w2))
              = (FU (scanned_entries fs w1) ++ FU (flat_map (scanned_file fs d) l1))
                ++ scanned_record fs (OsPath.join d n1)
                :: FU (flat_map (scanned_file fs d) l2)
                ++ scanned_record fs (OsPath.join d n2)
                :: FU (flat_map (scanned_file fs d) l3) ++ FU (scanned_entries fs w2)).
  { unfold scanned_entries at 1. rewrite flat_map_app. cbn [flat_map fst snd].
    rewrite flat_map_two.
    rewrite (scanned_file_positive _ _ _ H1 P1), (scanned_file_positive _ _ _ H2 P2).
    fold (scanned_entries fs w1). fold (scanned_entries fs w2).
    fold FU. unfold FU. rewrite !filed_under_app, !filed_under_one.
    rewrite <- !app_assoc. reflexivity. }
  split; [symmetry; exact E |].
  intros E'. apply (f_equal (@List.length _)) in E'.
  rewrite !length_app in E'. cbn [List.length] in E'.
  rewrite !length_app in E'. cbn [List.length] in E'. lia.
Qed.

End FromTheWalk.

(** X3.  Two files that the walk lists in one directory, both of positive
    size, whose names normalize alike and that are read with the same
    content, are members of one group of that directory in the result
    of the scan, whatever else the directory and the tree hold. *)
Theorem identical_files_of_a_directory_are_grouped
        {S : Type} (fs : FileSystem) (top : string) (cb : option (callback S)) (s : S)
        (d : string) (l1 l2 l3 : list string) (n1 n2 : string)
        (content : list byte) (v1 v2 : Z) :
  In (d, l1 ++ n1 :: l2 ++ n2 :: l3) (fs_walk fs top) ->
  fs_getsize fs (OsPath.join d n1) = Some v1 -> 0 < v1 ->
  fs_getsize fs (OsPath.join d n2) = Some v2 -> 0 < v2 ->
  get_normalized_name (OsPath.name (OsPath.join d n1))
  = get_normalized_name (OsPath.name (OsPath.join d n2)) ->
  fs_open fs (OsPath.join d n1) = Some content ->
  fs_open fs (OsPath.join d n2) = Some content ->
  exists groups g,
    fst (duplicate_file_finder fs top cb s) = Ok groups
    /\ In g groups
    /\ directory g = d
    /\ In (OsPath.join d n1) (paths g) /\ In (OsPath.join d n2) (paths g).
Proof.
  intros Hwalk H1 P1 H2 P2 Hkey O1 O2.
  unfold duplicate_file_finder. cbn [fst].
  set (st := scan_directory fs top (Some (safe_progress_callback cb))
                            (fst (safe_progress_callback cb 0 s))).
  destruct (scanned_bucket fs top (Some (safe_progress_callback cb))
                           (fst (safe_progress_callback cb 0 s))
                           d l1 l2 l3 n1 n2 v1 v2 Hwalk H1 P1 H2 P2)
    as (a & b & c & Hbucket).
  fold st in Hbucket.
  destruct (identical_records_are_grouped
              fs (files_by_size st) (files_by_directory st)
              (Some (safe_progress_callback cb)) d a b c
              (scanned_record fs (OsPath.join d n1))
              (scanned_record fs (OsPath.join d n2)) content Hbucket)
    as (g & Hg & Hdir & Hp1 & Hp2).
  - apply scanned_record_valid.
  - apply scanned_record_valid.
  - unfold name_key. now rewrite !scanned_record_path.
  - now rewrite scanned_record_path.
  - now rewrite scanned_record_path.
  - rewrite !scanned_record_path in *.
    exists (find_duplicates fs (files_by_size st) (files_by_directory st)
                            (Some (safe_progress_callback cb))), g.
    split; [reflexivity |]. repeat split; assumption.
Qed.

Lemma identical_files_of_a_directory_are_grouped_witness :
  exists groups g,
    fst (duplicate_file_finder (S := unit) Scenario.abx "/d" None tt) = Ok groups
    /\ In g groups
    /\ directory g = "/d"
    /\ In (OsPath.join "/d" "a.txt") (paths g)
    /\ In (OsPath.join "/d" "a (1).txt") (paths g).
Proof.
  refine (identical_files_of_a_directory_are_grouped
            Scenario.abx "/d" None tt "/d" [] [] ["b.txt"] "a.txt" "a (1).txt"
            (Scenario.bytes_of_string "X") 1 1 _ _ _ _ _ _ _ _).
  - left. reflexivity.
  - reflexivity.
  - lia.
  - reflexivity.
  - lia.
  - vm_compute. reflexivity.
  - reflexivity.
  - reflexivity.
Defined.

Section ReportAndCopy.
Import FileInfoFacts.
Context {S : Type}.
Variable fs : FileSystem.



End ReportAndCopy.



(** ** The models on sample inputs *)

Example suffix_samples :
  map PurePath.suffix ["a.txt"; ".bashrc"; "a."; "a.tar.gz"; "noext"; "a..b"]
  = [".txt"; ""; ""; ".gz"; ""; ".b"].
Proof. vm_compute. reflexivity. Qed.

Example stem_samples :
  map PurePath.stem ["a.txt"; ".bashrc"; "a."; "a.tar.gz"; "noext"; "a..b"]
  = ["a"; ".bashrc"; "a."; "a.tar"; "noext"; "a."].
Proof. vm_compute. reflexivity. Qed.

(** A name of two dots and an extension has a dot for its stem. *)
Example dot_stem_name_sample :
  PurePath.stem "..a" = "." /\ PurePath.suffix "..a" = ".a"
  /\ PurePath.stem "...a" = "..".
Proof. vm_compute. repeat split; reflexivity. Qed.

Example numbered_name_sample : numbered_name "a.txt" 12 = "a_12.txt".
Proof. vm_compute. reflexivity. Qed.

(** Rules of another form are dropped; a folder keeps the place of its
    first rule, so [.b] goes to [X] although the first rule for [.b]
    names [Y]. *)
Example custom_rules_sample :
  custom_rule_mappings [".A : X"; "bad"; ".b:Y"; ".b:X"; "a:b:c"]
  = [("X", [".a"; ".b"]); ("Y", [".b"])]
  /\ target_folder_name
       (custom_rule_mappings [".A : X"; "bad"; ".b:Y"; ".b:X"; "a:b:c"]) "f.B"
     = "X".
Proof. vm_compute. split; reflexivity. Qed.

(** [a.png] gets the number 2, [b.PDF] matches [.pdf], [c.xyz] stays
    because the file [Others] has the name of its target folder. *)
Example organize_downloads_sample :
  organize_downloads
    {| mkdir_succeeds := fun _ => true; move_succeeds := fun _ => true |}
    saved_mappings [] downloads downloads_listing
  = Finished ({| top_files := ["c.xyz"; "Others"];
                 top_dirs := [("Images", ["a.png"; "a_1.png"; "a_2.png"; "a.jpg"]);
                              ("sub", []); ("Documents", ["b.PDF"])] |}, 3).
Proof. vm_compute. reflexivity. Qed.

(** A move that raises leaves the file, in a directory that has been
    made. *)
Example failed_move_sample :
  organize_downloads
    {| mkdir_succeeds := fun _ => true;
       move_succeeds := fun item => negb (String.eqb item "b.PDF") |}
    saved_mappings [] downloads downloads_listing
  = Finished ({| top_files := ["b.PDF"; "c.xyz"; "Others"];
                 top_dirs := [("Images", ["a.png"; "a_1.png"; "a_2.png"; "a.jpg"]);
                              ("sub", []); ("Documents", [])] |}, 2).
Proof. vm_compute. reflexivity. Qed.

(** The stem of [..a] is a dot: with [..a] taken in [Others], the
    candidates are looked for in the folder, and the file stays there
    under the name [._1.a], although [Others] has an entry of that
    name. *)
Example dot_stem_sample :
  organize_downloads
    {| mkdir_succeeds := fun _ => true; move_succeeds := fun _ => true |}
    [] []
    {| top_files := ["..a"]; top_dirs := [("Others", ["..a"; "._1.a"])] |}
    ["..a"; "Others"]
  = Finished ({| top_files := ["._1.a"];
                 top_dirs := [("Others", ["..a"; "._1.a"])] |}, 1).
Proof. vm_compute. reflexivity. Qed.

(** An empty folder name is the folder itself: the files are renamed
    where they are.  The folder [..] is outside. *)
Example empty_folder_name_sample :
  organize_downloads
    {| mkdir_succeeds := fun _ => true; move_succeeds := fun _ => true |}
    [] [".txt:"] {| top_files := ["a.txt"; "a_1.txt"]; top_dirs := [] |}
    ["a.txt"; "a_1.txt"]
  = Finished ({| top_files := ["a_2.txt"; "a_1_1.txt"]; top_dirs := [] |}, 2)
  /\ organize_downloads
       {| mkdir_succeeds := fun _ => true; move_succeeds := fun _ => true |}
       [] [".txt:.."] {| top_files := ["a.txt"]; top_dirs := [] |} ["a.txt"]
     = LeavesFolder.
Proof. vm_compute. split; reflexivity. Qed.

(** Sixty times the letter e with an acute accent: 120 bytes and 60
    characters, shown and copied whole; 101 letters are cut. *)
Example display_content_sample :
  code_points (String.concat "" (repeat e_acute 60)) = 60
  /\ String.length (String.concat "" (repeat e_acute 60)) = 120%nat
  /\ display_content (String.concat "" (repeat e_acute 60))
     = String.concat "" (repeat e_acute 60)
  /\ display_content (String.concat "" (repeat "a" 101))
     = (String.concat "" (repeat "a" 97) ++ "...")%string.
Proof. vm_compute. repeat split; reflexivity. Qed.

(** Checked file rows are collected; a checked header row makes the
    loop raise. *)
Example files_to_delete_sample :
  files_to_delete
    (duplicates_table
       (fun _ => false) (fun p => String.eqb p "/d/a (1).txt")
       [ {| paths := ["/d/a.txt"; "/d/a (1).txt"]; size := 1; directory := "/d" |} ])
  = Some ["/d/a (1).txt"]
  /\ files_to_delete
       (duplicates_table
          (fun _ => true) (fun _ => true)
          [ {| paths := ["/d/a.txt"; "/d/a (1).txt"]; size := 1;
               directory := "/d" |} ])
     = None.
Proof. vm_compute. split; reflexivity. Qed.

Example dialog_sample :
  ExtensionMappingDialog.get_mappings
    (ExtensionMappingDialog.add_mapping
       " png " " Images"
       (ExtensionMappingDialog.load_mappings (("Empty", []) :: saved_mappings)))
  = [("Images", [".png"; ".jpg"; ".png"]); ("Documents", [".pdf"])].
Proof. vm_compute. reflexivity. Qed.

Example clipboard_sample :
  map (fun r => (ClipboardManager.rowid r, ClipboardManager.timestamp r,
                 ClipboardManager.content r))
      (ClipboardManager.process_queue
         [] (combine ["t1"; "t2"; "t3"; "t4"]
                     (ClipboardManager.monitor_clipboard
                        ["abc"; "abc"; ""; "*****secret"; "x"; "abc"; "x"])))
  = [(1, "t1", "abc"); (2, "t2", "x")].
Proof. vm_compute. reflexivity. Qed.

Example split_samples :
  map PosixPath.split ["/d/x/a.txt"; "/a.txt"; "a.txt"; "//a"; "/d//a"]
  = [("/d/x", "a.txt"); ("/", "a.txt"); ("", "a.txt"); ("//", "a"); ("/d", "a")].
Proof. vm_compute. reflexivity. Qed.
